(** * Gate.io futures trading adapter (trader/gateio_futures.go)

    A shallow embedding of the adapter: Go strings are byte strings,
    [float64] is IEEE-754 binary64 in the form of [spec_float] with
    precision 53 and maximal exponent 1024, [int64] is [Z], the
    [map[string]interface{}] records are finite maps from field names to
    dynamically typed values, and every call of the exchange SDK is an
    event answered by an arbitrary upstream.  Calls of [log.Printf] and
    values computed only for them are left out. *)

From Stdlib Require Import ZArith Bool List Ascii String Lia DecimalString.
From Stdlib Require Import Floats.SpecFloat.
From stdpp Require Import base option gmap strings.

Import ListNotations.
Local Open Scope string_scope.
Local Open Scope Z_scope.

(** ** The parts of package [strings] the adapter uses *)

Module Strings.

(** [len(s)], a number of bytes. *)
Definition len (s : string) : nat := String.length s.

(** [s[:n]] and [s[n:]] for [n <= len(s)]. *)
Fixpoint take (n : nat) (s : string) : string :=
  match n, s with
  | S k, String c r => String c (take k r)
  | _, _ => EmptyString
  end.

Fixpoint drop (n : nat) (s : string) : string :=
  match n, s with
  | S k, String _ r => drop k r
  | _, _ => s
  end.

(** [strings.HasPrefix(s, p)]. *)
Fixpoint HasPrefix (s p : string) : bool :=
  match p, s with
  | EmptyString, _ => true
  | String a p', String b s' => Ascii.eqb a b && HasPrefix s' p'
  | String _ _, EmptyString => false
  end.

(** [strings.HasSuffix(s, suffix)] is
    [len(s) >= len(suffix) && s[len(s)-len(suffix):] == suffix]. *)
Definition HasSuffix (s suffix : string) : bool :=
  (len suffix <=? len s)%nat
  && String.eqb (drop (len s - len suffix) s) suffix.

(** [strings.TrimSuffix(s, suffix)]. *)
Definition TrimSuffix (s suffix : string) : string :=
  if HasSuffix s suffix then take (len s - len suffix) s else s.

(** [strings.Contains(s, substr)]: [substr] starts at some offset. *)
Fixpoint Contains (s substr : string) : bool :=
  HasPrefix s substr
  || match s with
     | EmptyString => false
     | String _ r => Contains r substr
     end.

(** [strings.ReplaceAll(s, old, new)] for a non-empty [old]: the
    non-overlapping occurrences of [old] are replaced from left to
    right.  [skip] counts the bytes of an occurrence still to be
    passed over.  (The adapter only ever passes a one-byte [old]; for
    an empty [old] Go inserts [new] around every rune, which is not
    expressed here.) *)
Fixpoint replaceFrom (skip : nat) (s old new : string) : string :=
  match s with
  | EmptyString => EmptyString
  | String c r =>
      match skip with
      | S k => replaceFrom k r old new
      | O =>
          if HasPrefix s old
          then new ++ replaceFrom (len old - 1) r old new
          else String c (replaceFrom O r old new)
      end
  end.

Definition ReplaceAll (s old new : string) : string :=
  replaceFrom O s old new.

(** [strings.Split(s, sep)] for a one-byte separator. *)
Fixpoint splitByte (sep : ascii) (s : string) : list string :=
  match s with
  | EmptyString => [EmptyString]
  | String c r =>
      if Ascii.eqb c sep then EmptyString :: splitByte sep r
      else match splitByte sep r with
           | piece :: rest => String c piece :: rest
           | [] => [String c EmptyString]
           end
  end.

End Strings.

(** ** Symbol normalisation *)

Definition suffixes : list string :=
  ["USDT"; "USDC"; "BUSD"; "TUSD"; "DAI"; "USD"].

(** The [for _, suffix := range suffixes] loop of
    [normalizeSymbolForGateIO]: the first suffix the symbol ends in
    decides the result. *)
Fixpoint splitAtSuffix (symbol : string) (sfx : list string) : option string :=
  match sfx with
  | [] => None
  | suffix :: rest =>
      if Strings.HasSuffix symbol suffix
      then Some (Strings.TrimSuffix symbol suffix ++ "_" ++ suffix)
      else splitAtSuffix symbol rest
  end.

Definition normalizeSymbolForGateIO (symbol : string) : string :=
  if Strings.Contains symbol "_" then symbol
  else
    match splitAtSuffix symbol suffixes with
    | Some r => r
    | None =>
        if (4 <? Strings.len symbol)%nat
        then Strings.take (Strings.len symbol - 4) symbol
             ++ "_" ++ Strings.drop (Strings.len symbol - 4) symbol
        else symbol
    end.

Definition DenormalizeSymbolFromGateIO (symbol : string) : string :=
  if negb (Strings.Contains symbol "_") then symbol
  else Strings.ReplaceAll symbol "_" "".

(** ** [int64] and [float64] *)

Module Int64.

Definition min_int : Z := - 2 ^ 63.
Definition max_int : Z := 2 ^ 63 - 1.

(** Two's-complement wrap-around of a mathematical integer. *)
Definition wrap (z : Z) : Z := (z + 2 ^ 63) mod 2 ^ 64 - 2 ^ 63.

(** Unary minus on [int64]. *)
Definition neg (z : Z) : Z := wrap (- z).

End Int64.

Module Float64.

Definition prec : Z := 53.
Definition emax : Z := 1024.

Definition float64 : Type := spec_float.

Definition zero : float64 := S754_zero false.
Definition nan : float64 := S754_nan.
Definition inf (negative : bool) : float64 := S754_infinity negative.

Definition mul (x y : float64) : float64 := SFmul prec emax x y.
Definition div (x y : float64) : float64 := SFdiv prec emax x y.
Definition neg (x : float64) : float64 := SFopp x.
Definition ltb (x y : float64) : bool := SFltb x y.
Definition leb (x y : float64) : bool := SFleb x y.
Definition eqb (x y : float64) : bool := SFeqb x y.
Definition gtb (x y : float64) : bool := SFltb y x.

(** Neither an infinity nor NaN. *)
Definition is_finite (x : float64) : bool :=
  match x with
  | S754_zero _ | S754_finite _ _ _ => true
  | _ => false
  end.

(** The conversion [float64(n)] of an integer, rounding to nearest
    even. *)
Definition of_int (n : Z) : float64 := binary_normalize prec emax n 0 false.

(** The correctly rounded quotient of two positive integers (the value
    of a decimal literal). *)
Definition of_ratio (negative : bool) (num den : positive) : float64 :=
  SFdiv prec emax (S754_finite negative num 0) (S754_finite false den 0).

(** Part of a finite value before the binary point, towards zero. *)
Definition truncate (m : positive) (e : Z) : Z :=
  if 0 <=? e then Z.pos m * 2 ^ e else Z.pos m / 2 ^ (- e).

(** The conversion [int64(x)]: the fraction is discarded.  Go leaves
    the result open when the value does not fit; the value taken here
    is the one the amd64 conversion instruction delivers. *)
Definition to_int64 (x : float64) : Z :=
  match x with
  | S754_zero _ => 0
  | S754_finite s m e =>
      let v := if s then - truncate m e else truncate m e in
      if (Int64.min_int <=? v) && (v <=? Int64.max_int) then v
      else Int64.min_int
  | _ => Int64.min_int
  end.

(** Nearest integer to [num/den], ties to even. *)
Definition round_half_even (num den : Z) : Z :=
  let q := num / den in
  let r := num mod den in
  match 2 * r ?= den with
  | Lt => q
  | Gt => q + 1
  | Eq => if Z.even q then q else q + 1
  end.

(** [|x| * 10^digits] rounded to an integer, for finite [x]. *)
Definition scaled (digits : nat) (m : positive) (e : Z) : Z :=
  let p10 := 10 ^ Z.of_nat digits in
  if 0 <=? e then Z.pos m * 2 ^ e * p10
  else round_half_even (Z.pos m * p10) (2 ^ (- e)).

End Float64.

Abbreviation float64 := Float64.float64.

(** ** The part of package [math] the adapter uses *)

Module Math.

(** [math.Pow10(n)] for [n >= 0]: up to 308 the product of two table
    entries, [pow10postab32[n/32] * pow10tab[n%32]], each the [float64]
    nearest to its power of ten; [+Inf] above. *)
Definition Pow10 (n : nat) : float64 :=
  if (n <=? 308)%nat
  then Float64.mul (Float64.of_int (10 ^ Z.of_nat (32 * (n / 32))))
                   (Float64.of_int (10 ^ Z.of_nat (n mod 32)))
  else Float64.inf false.

End Math.

(** ** The parts of packages [strconv] and [fmt] the adapter uses *)

Module Strconv.

Import Float64.

Inductive NumError := ErrSyntax | ErrRange.

(** Decimal digits of a natural number, ["0"] for zero. *)
Definition utoa (n : Z) : string :=
  DecimalString.NilZero.string_of_uint (N.to_uint (Z.to_N n)).

(** [strconv.FormatInt(i, 10)], which is also [strconv.Itoa]. *)
Definition FormatInt (i : Z) : string :=
  if i <? 0 then "-" ++ utoa (- i) else utoa i.

Fixpoint zeros (n : nat) : string :=
  match n with
  | O => EmptyString
  | S k => String "0" (zeros k)
  end.

(** A natural number of [10^-digits] units in fixed-point notation:
    at least one digit before the point, [digits] digits after it, and
    no point when [digits] is 0. *)
Definition unsignedFixed (digits : nat) (n : Z) : string :=
  let ds := utoa n in
  let ds := zeros (S digits - Strings.len ds) ++ ds in
  let whole := Strings.take (Strings.len ds - digits) ds in
  match digits with
  | O => whole
  | _ => whole ++ "." ++ Strings.drop (Strings.len ds - digits) ds
  end.

(** [fmt.Sprintf("%.<digits>f", x)]: the exact value of [x] rounded to
    [digits] decimals, ties to even. *)
Definition FormatFixed (digits : nat) (x : float64) : string :=
  match x with
  | S754_nan => "NaN"
  | S754_infinity s => if s then "-Inf" else "+Inf"
  | S754_zero s => (if s then "-" else "") ++ unsignedFixed digits 0
  | S754_finite s m e =>
      (if s then "-" else "") ++ unsignedFixed digits (scaled digits m e)
  end.

Definition isDigit (c : ascii) : bool :=
  (48 <=? nat_of_ascii c)%nat && (nat_of_ascii c <=? 57)%nat.

(** [lower(c)] is [c | ('x' - 'X')]. *)
Definition lower (c : ascii) : ascii :=
  let '(Ascii b0 b1 b2 b3 b4 _ b6 b7) := c in Ascii b0 b1 b2 b3 b4 true b6 b7.

Definition isHexLetter (c : ascii) : bool :=
  (97 <=? nat_of_ascii (lower c))%nat && (nat_of_ascii (lower c) <=? 102)%nat.

Definition digitVal (c : ascii) : Z :=
  if isDigit c then Z.of_nat (nat_of_ascii c) - 48
  else Z.of_nat (nat_of_ascii (lower c)) - 97 + 10.

(** Upper-case ASCII letters to lower case, as
    [commonPrefixLenIgnoreCase] compares. *)
Definition foldCase (c : ascii) : ascii :=
  if (65 <=? nat_of_ascii c)%nat && (nat_of_ascii c <=? 90)%nat
  then ascii_of_nat (nat_of_ascii c + 32) else c.

Fixpoint foldString (s : string) : string :=
  match s with
  | EmptyString => EmptyString
  | String c r => String (foldCase c) (foldString r)
  end.

(** [special]: the names of the infinities and of NaN, when they make
    up the whole string. *)
Definition special (s : string) : option float64 :=
  match s with
  | String "+" r =>
      let n := foldString r in
      if String.eqb n "inf" || String.eqb n "infinity"
      then Some (inf false) else None
  | String "-" r =>
      let n := foldString r in
      if String.eqb n "inf" || String.eqb n "infinity"
      then Some (inf true) else None
  | _ =>
      let n := foldString s in
      if String.eqb n "inf" || String.eqb n "infinity" then Some (inf false)
      else if String.eqb n "nan" then Some nan
      else None
  end.

(** What the scan of [underscoreOK] saw last. *)
Inductive seen := SeenStart | SeenDigit | SeenUnderscore | SeenOther.

(** [underscoreOK]: an underscore stands between two digits, or
    between a base prefix and a digit. *)
Fixpoint underscoreScan (hex : bool) (saw : seen) (s : string) : bool :=
  match s with
  | EmptyString => match saw with SeenUnderscore => false | _ => true end
  | String c r =>
      if isDigit c || (hex && isHexLetter c) then underscoreScan hex SeenDigit r
      else if Ascii.eqb c "_" then
        match saw with
        | SeenDigit => underscoreScan hex SeenUnderscore r
        | _ => false
        end
      else
        match saw with
        | SeenUnderscore => false
        | _ => underscoreScan hex SeenOther r
        end
  end.

Definition basePrefix (c : ascii) : bool :=
  Ascii.eqb (lower c) "b" || Ascii.eqb (lower c) "o" || Ascii.eqb (lower c) "x".

Definition underscoreOK (s : string) : bool :=
  let body :=
    match s with
    | String "+" r => r
    | String "-" r => r
    | _ => s
    end in
  match body with
  | String "0" (String c r) =>
      if basePrefix c
      then underscoreScan (Ascii.eqb (lower c) "x") SeenDigit r
      else underscoreScan false SeenStart body
  | _ => underscoreScan false SeenStart body
  end.

Fixpoint stripUnderscores (s : string) : string :=
  match s with
  | EmptyString => EmptyString
  | String c r =>
      if Ascii.eqb c "_" then stripUnderscores r
      else String c (stripUnderscores r)
  end.

(** Mantissa digits in the given base: the accumulated value, the
    number of digits read and the rest of the input. *)
Fixpoint readDigits (hex : bool) (s : string) (acc : Z) (count : nat)
  : Z * nat * string :=
  match s with
  | String c r =>
      if isDigit c || (hex && isHexLetter c)
      then readDigits hex r (acc * (if hex then 16 else 10) + digitVal c) (S count)
      else (acc, count, s)
  | EmptyString => (acc, count, s)
  end.

(** Exponent digits; the value stops growing at 10000 as in
    [readFloat]. *)
Fixpoint readExponent (s : string) (e : Z) : Z * string :=
  match s with
  | String c r =>
      if isDigit c
      then readExponent r (if e <? 10000 then e * 10 + digitVal c else e)
      else (e, s)
  | EmptyString => (e, s)
  end.

(** The exponent part, after the exponent character: an optional sign
    and at least one digit, up to the end of the input. *)
Definition readSignedExponent (s : string) : option Z :=
  let '(esign, r) :=
    match s with
    | String "+" r => (1, r)
    | String "-" r => (-1, r)
    | _ => (1, s)
    end in
  match r with
  | String c _ =>
      if isDigit c then
        match readExponent r 0 with
        | (e, EmptyString) => Some (e * esign)
        | _ => None
        end
      else None
  | EmptyString => None
  end.

(** [readFloat] without underscores: sign, mantissa and exponent of a
    decimal or hexadecimal literal ([mantissa * base^exponent] with
    base 10 or 2). *)
Definition readFloat (s : string) : option (bool * bool * Z * Z) :=
  let '(negative, body) :=
    match s with
    | String "+" r => (false, r)
    | String "-" r => (true, r)
    | _ => (false, s)
    end in
  let '(hex, digits) :=
    match body with
    | String "0" (String c (String d r)) =>
        if Ascii.eqb (lower c) "x" then (true, String d r) else (false, body)
    | _ => (false, body)
    end in
  let '(whole, nwhole, r1) := readDigits hex digits 0 O in
  let '(mant, nfrac, r2) :=
    match r1 with
    | String "." r => readDigits hex r whole O
    | _ => (whole, O, r1)
    end in
  if (nwhole + nfrac =? 0)%nat then None
  else
    let scale := (if hex then 4 else 1) * Z.of_nat nfrac in
    match r2 with
    | EmptyString => if hex then None else Some (negative, hex, mant, - scale)
    | String c r =>
        if Ascii.eqb (lower c) (if hex then "p" else "e") then
          match readSignedExponent r with
          | Some e => Some (negative, hex, mant, e - scale)
          | None => None
          end
        else None
    end.

(** The binary64 value nearest to [mant * base^e], ties to even. *)
Definition nearest (negative hex : bool) (mant e : Z) : float64 :=
  match mant with
  | Z.pos m =>
      if hex then binary_normalize prec emax (if negative then Z.neg m else mant) e false
      else if 0 <=? e
      then binary_normalize prec emax
             ((if negative then Z.neg m else mant) * 10 ^ e) 0 false
      else of_ratio negative m (Z.to_pos (10 ^ (- e)))
  | _ => S754_zero negative
  end.

(** [strconv.ParseFloat(s, 64)]: the value and the error.  On a syntax
    error the value is 0, on overflow it is the infinity of the sign. *)
Definition ParseFloat (s : string) : float64 * option NumError :=
  match special s with
  | Some v => (v, None)
  | None =>
      if Strings.Contains s "_" && negb (underscoreOK s) then (zero, Some ErrSyntax)
      else
        match readFloat (stripUnderscores s) with
        | None => (zero, Some ErrSyntax)
        | Some (negative, hex, mant, e) =>
            match nearest negative hex mant e with
            | S754_infinity sg => (S754_infinity sg, Some ErrRange)
            | v => (v, None)
            end
        end
  end.

End Strconv.

(** ** The exchange SDK ([gateapi]) as far as the adapter touches it *)

Module gateapi.

Module FuturesAccount.
Record t := { Total : string; Available : string; UnrealisedPnl : string }.
End FuturesAccount.

Module Position.
Record t := {
  Contract : string; Size : Z;
  EntryPrice : string; MarkPrice : string; UnrealisedPnl : string;
  Leverage : string; LiqPrice : string }.
End Position.

Module Contract.
Record t := {
  Name : string; QuantoMultiplier : string;
  OrderPriceRound : string; OrderSizeMin : Z }.
End Contract.

Module FuturesTicker.
Record t := { Last : string }.
End FuturesTicker.

Module FuturesOrder.
Record t := {
  Id : Z; Contract : string; Size : Z; Price : string;
  Close : bool; ReduceOnly : bool; Tif : string; Text : string;
  Status : string }.
End FuturesOrder.

Module FuturesInitialOrder.
Record t := { Contract : string; Size : Z; Price : string; Tif : string }.
End FuturesInitialOrder.

Module FuturesPriceTrigger.
Record t := { StrategyType : Z; PriceType : Z; Price : string }.
End FuturesPriceTrigger.

Module FuturesPriceTriggeredOrder.
Record t := {
  Initial : FuturesInitialOrder.t; Trigger : FuturesPriceTrigger.t; Id : Z }.
End FuturesPriceTriggeredOrder.

Module TriggerOrderResponse.
Record t := { Id : Z }.
End TriggerOrderResponse.

(** A failed call: the text of [err.Error()] and the status code of
    the HTTP response when there is one. *)
Record APIError := { message : string; statusCode : option Z }.

Definition reply (A : Type) : Type := A + APIError.

(** The requests the adapter sends, indexed by the type of the answer.
    [Now] is a reading of the clock ([time.Now], [time.Since]). *)
Inductive Call : Type -> Type :=
| Now : Call Z
| ListFuturesAccounts (settle : string) : Call (reply FuturesAccount.t)
| ListPositions (settle : string) : Call (reply (list Position.t))
| ListFuturesContracts (settle : string) : Call (reply (list Contract.t))
| ListFuturesTickers (settle : string) (contract : option string)
  : Call (reply (list FuturesTicker.t))
| UpdatePositionLeverage (settle contract leverage : string)
  : Call (reply Position.t)
| CreateFuturesOrder (settle : string) (order : FuturesOrder.t)
  : Call (reply FuturesOrder.t)
| CancelFuturesOrders (settle contract : string)
  : Call (reply (list FuturesOrder.t))
| ListPriceTriggeredOrders (settle status : string) (contract : option string)
  : Call (reply (list FuturesPriceTriggeredOrder.t))
| CancelPriceTriggeredOrder (settle orderId : string)
  : Call (reply FuturesPriceTriggeredOrder.t)
| CreatePriceTriggeredOrder (settle : string) (order : FuturesPriceTriggeredOrder.t)
  : Call (reply TriggerOrderResponse.t).

(** A request that was sent, whatever the type of its answer. *)
Inductive Event := Sent (R : Type) (c : Call R).
Arguments Sent {R} c.

End gateapi.

Import gateapi.

(** ** Values of the adapter *)

(** What the adapter stores under [interface{}]. *)
Inductive value :=
| VFloat (f : float64)
| VString (s : string)
| VInt (i : Z).

(** [v == s] for an [interface{}] read from a map and a string. *)
Definition isString (v : option value) (s : string) : bool :=
  match v with
  | Some (VString s') => String.eqb s' s
  | _ => false
  end.

(** Nanoseconds, for [time.Time] (since an arbitrary origin) and
    [time.Duration]. *)
Definition Second : Z := 1000000000.
Definition Minute : Z := 60 * Second.

(** The errors the adapter returns, one constructor for each place that
    builds one; the text of the messages is not modelled.  [Panicked] is
    a failed type assertion, which unwinds through every caller. *)
Inductive error :=
| UpstreamError (e : APIError)
| NumError (input : string) (e : Strconv.NumError)
| AccountUnavailable (cause : error)
| PositionsUnavailable (cause : error)
| ContractsUnavailable (cause : error)
| SymbolNotFound (symbol gateIOSymbol : string)
| ConversionFailed (cause : error)
| QuantityConversionFailed (cause : error)
| BelowMinimumSize (quantity contractSize minContractSize : float64)
| ZeroAfterRounding (quantity contractSize : float64) (precision : nat)
| PriceUnavailable (cause : error)
| PriceNotFound
| InvalidLeverage (leverage : Z)
| LeverageFailed (cause : error)
| FormattedUnparsable (cause : error)
| MarketPriceFailed (cause : error)
| BelowMinimumNotional (notional minNotional quantity price : float64)
| OpenLongFailed (cause : error)
| OpenShortFailed (cause : error)
| PositionAmountNotFloat (symbol side : string)
| NoOpenPosition (symbol side : string)
| CloseLongFailed (cause : error)
| CloseShortFailed (cause : error)
| TriggerOrdersUnavailable (cause : error)
| StopLossFailed (cause : error)
| TakeProfitFailed (cause : error)
| Panicked.

(** [err != nil]. *)
Definition failed {A} (err : option A) : bool :=
  match err with
  | Some _ => true
  | None => false
  end.

Inductive result (A : Type) :=
| Ok (a : A)
| Err (e : error).
Arguments Ok {A} a.
Arguments Err {A} e.

(** [GateIOFuturesTrader] without the client and its context.  A nil map
    is [None]; a nil slice is the empty list, which is the only empty
    slice [GetPositions] ever stores. *)
Record GateIOFuturesTrader := {
  cachedBalance : option (gmap string value);
  balanceCacheTime : Z;
  cachedPositions : list (gmap string value);
  positionsCacheTime : Z;
  symbolInfoCache : gmap string Contract.t;
  symbolInfoCacheTime : Z;
  cacheDuration : Z }.

Definition NewGateIOFuturesTrader (apiKey secretKey : string) : GateIOFuturesTrader :=
  {| cachedBalance := None; balanceCacheTime := 0;
     cachedPositions := []; positionsCacheTime := 0;
     symbolInfoCache := ∅; symbolInfoCacheTime := 0;
     cacheDuration := 15 * Second |}.

Definition setBalanceCache (b : gmap string value) (now : Z) (t : GateIOFuturesTrader) :=
  {| cachedBalance := Some b; balanceCacheTime := now;
     cachedPositions := cachedPositions t; positionsCacheTime := positionsCacheTime t;
     symbolInfoCache := symbolInfoCache t; symbolInfoCacheTime := symbolInfoCacheTime t;
     cacheDuration := cacheDuration t |}.

Definition setPositionsCache (ps : list (gmap string value)) (now : Z) (t : GateIOFuturesTrader) :=
  {| cachedBalance := cachedBalance t; balanceCacheTime := balanceCacheTime t;
     cachedPositions := ps; positionsCacheTime := now;
     symbolInfoCache := symbolInfoCache t; symbolInfoCacheTime := symbolInfoCacheTime t;
     cacheDuration := cacheDuration t |}.

Definition setSymbolInfoCache (c : gmap string Contract.t) (now : Z) (t : GateIOFuturesTrader) :=
  {| cachedBalance := cachedBalance t; balanceCacheTime := balanceCacheTime t;
     cachedPositions := cachedPositions t; positionsCacheTime := positionsCacheTime t;
     symbolInfoCache := c; symbolInfoCacheTime := now;
     cacheDuration := cacheDuration t |}.

(** ** Methods run against an upstream

    A method transforms the trader and the world behind the SDK, and
    leaves the list of the requests it sent. *)

Record Out (World A : Type) := mkOut {
  returned : A;
  trader : GateIOFuturesTrader;
  world : World;
  sent : list Event }.
Arguments mkOut {World A}.
Arguments returned {World A}.
Arguments trader {World A}.
Arguments world {World A}.
Arguments sent {World A}.

Definition M (World A : Type) : Type := GateIOFuturesTrader -> World -> Out World A.

Definition ret {World A} (a : A) : M World A := fun t w => mkOut a t w [].

Definition bind {World A B} (c : M World A) (k : A -> M World B) : M World B :=
  fun t w =>
    let o := c t w in
    let o' := k (returned o) (trader o) (world o) in
    mkOut (returned o') (trader o') (world o') (sent o ++ sent o').

Definition get {World} : M World GateIOFuturesTrader := fun t w => mkOut t t w [].

Definition modify {World} (f : GateIOFuturesTrader -> GateIOFuturesTrader) : M World unit :=
  fun t w => mkOut tt (f t) w [].

Declare Scope go_scope.
Delimit Scope go_scope with go.
Notation "x <- c ;; k" := (bind c (fun x => k))
  (at level 100, c at next level, right associativity) : go_scope.
Notation "c ;; k" := (bind c (fun _ => k))
  (at level 100, right associativity) : go_scope.
(** [x, err := c; if err != nil { return nil, wrap(err) }]. *)
Notation "x <-? c 'or' wrap ;; k" :=
  (bind c (fun r => match r with Ok x => k | Err e => ret (Err (wrap e)) end))
  (at level 100, c at next level, wrap at next level, right associativity) : go_scope.

(** The [for _, x := range l] loop whose body only has effects. *)
Fixpoint forEach {World A} (l : list A) (body : A -> M World unit) : M World unit :=
  match l with
  | [] => ret tt
  | x :: rest => bind (body x) (fun _ => forEach rest body)
  end.

Section Adapter.

Context {World : Type}.

(** The exchange behind the SDK, and the clock: any function that
    answers a request and moves the world on. *)
Variable upstream : forall R : Type, Call R -> World -> R * World.

Local Open Scope go_scope.

Definition call {R} (c : Call R) : M World R :=
  fun t w => let (r, w') := upstream R c w in mkOut r t w' [Sent c].

(** *** Contract information *)

Definition getSymbolInfo (symbol : string) : M World (result Contract.t) :=
  let gateIOSymbol := normalizeSymbolForGateIO symbol in
  t <- get;;
  cached <- match symbolInfoCache t !! gateIOSymbol with
            | Some info =>
                now <- call Now;;
                ret (if now - symbolInfoCacheTime t <? 5 * Minute
                     then Some info else None)
            | None => ret None
            end;;
  match cached with
  | Some info => ret (Ok info)
  | None =>
      r <- call (ListFuturesContracts "usdt");;
      match r with
      | inr e => ret (Err (ContractsUnavailable (UpstreamError e)))
      | inl contracts =>
          let cache :=
            fold_left (fun m contract => <[Contract.Name contract := contract]> m)
                      contracts (∅ : gmap string Contract.t) in
          now <- call Now;;
          modify (setSymbolInfoCache cache now);;
          ret (match cache !! gateIOSymbol with
               | Some info => Ok info
               | None => Err (SymbolNotFound symbol gateIOSymbol)
               end)
      end
  end.

(** The coin quantity of one contract: the parsed [QuantoMultiplier]
    when it is there and positive, 1 otherwise. *)
Definition quantoMultiplier (info : Contract.t) : float64 :=
  if negb (String.eqb (Contract.QuantoMultiplier info) "") then
    match Strconv.ParseFloat (Contract.QuantoMultiplier info) with
    | (parsed, None) =>
        if Float64.gtb parsed Float64.zero then parsed else Float64.of_int 1
    | (_, Some _) => Float64.of_int 1
    end
  else Float64.of_int 1.

Definition convertCoinQuantityToContractSize (symbol : string) (coinQuantity : float64)
  : M World (result float64) :=
  info <-? getSymbolInfo symbol or ConversionFailed;;
  ret (Ok (Float64.div coinQuantity (quantoMultiplier info))).

(** *** Balance and positions *)

(** The record [GetBalance] builds from the account; a field that
    does not parse counts as what [ParseFloat] returns with the error. *)
Definition balanceRecord (account : FuturesAccount.t) : gmap string value :=
  let totalBalance := fst (Strconv.ParseFloat (FuturesAccount.Total account)) in
  let availableBalance := fst (Strconv.ParseFloat (FuturesAccount.Available account)) in
  let unrealizedPnL := fst (Strconv.ParseFloat (FuturesAccount.UnrealisedPnl account)) in
  <["totalUnrealizedProfit" := VFloat unrealizedPnL]>
    (<["availableBalance" := VFloat availableBalance]>
       (<["totalWalletBalance" := VFloat totalBalance]> ∅)).

Definition GetBalance : M World (result (gmap string value)) :=
  t <- get;;
  fresh <- match cachedBalance t with
           | Some _ =>
               now <- call Now;;
               ret (now - balanceCacheTime t <? cacheDuration t)
           | None => ret false
           end;;
  match cachedBalance t, fresh with
  | Some balance, true => ret (Ok balance)
  | _, _ =>
      r <- call (ListFuturesAccounts "usdt");;
      match r with
      | inr e => ret (Err (AccountUnavailable (UpstreamError e)))
      | inl account =>
          let result := balanceRecord account in
          now <- call Now;;
          modify (setBalanceCache result now);;
          ret (Ok result)
      end
  end.

(** The body of the loop of [GetPositions]: nothing for a position of
    size 0, the record of the position otherwise. *)
Definition positionMap (pos : Position.t) : M World (option (gmap string value)) :=
  let contractSize := Float64.of_int (Position.Size pos) in
  if Float64.eqb contractSize Float64.zero then ret None
  else
    let binanceSymbol := DenormalizeSymbolFromGateIO (Position.Contract pos) in
    r <- getSymbolInfo binanceSymbol;;
    let coinQuantity :=
      match r with
      | Ok info =>
          if negb (String.eqb (Contract.QuantoMultiplier info) "") then
            match Strconv.ParseFloat (Contract.QuantoMultiplier info) with
            | (quantoMultiplier, None) =>
                if Float64.gtb quantoMultiplier Float64.zero
                then Float64.mul contractSize quantoMultiplier
                else contractSize
            | (_, Some _) => contractSize
            end
          else contractSize
      | Err _ => contractSize
      end in
    let long := Float64.gtb contractSize Float64.zero in
    let posMap : gmap string value :=
      <["side" := VString (if long then "long" else "short")]>
        (<["positionAmt" := VFloat (if long then coinQuantity else Float64.neg coinQuantity)]>
        (<["liquidationPrice" := VFloat (fst (Strconv.ParseFloat (Position.LiqPrice pos)))]>
        (<["leverage" := VFloat (fst (Strconv.ParseFloat (Position.Leverage pos)))]>
        (<["unRealizedProfit" := VFloat (fst (Strconv.ParseFloat (Position.UnrealisedPnl pos)))]>
        (<["markPrice" := VFloat (fst (Strconv.ParseFloat (Position.MarkPrice pos)))]>
        (<["entryPrice" := VFloat (fst (Strconv.ParseFloat (Position.EntryPrice pos)))]>
        (<["symbol" := VString binanceSymbol]> ∅))))))) in
    ret (Some posMap).

Fixpoint collectPositions (positions : list Position.t)
  : M World (list (gmap string value)) :=
  match positions with
  | [] => ret []
  | pos :: rest =>
      m <- positionMap pos;;
      result <- collectPositions rest;;
      ret (match m with Some posMap => posMap :: result | None => result end)
  end.

Definition GetPositions : M World (result (list (gmap string value))) :=
  t <- get;;
  fresh <- match cachedPositions t with
           | _ :: _ =>
               now <- call Now;;
               ret (now - positionsCacheTime t <? cacheDuration t)
           | [] => ret false
           end;;
  if fresh then ret (Ok (cachedPositions t))
  else
    r <- call (ListPositions "usdt");;
    match r with
    | inr e => ret (Err (PositionsUnavailable (UpstreamError e)))
    | inl positions =>
        result <- collectPositions positions;;
        now <- call Now;;
        modify (setPositionsCache result now);;
        ret (Ok result)
    end.

(** *** Market price *)

Definition contractFilter (gateIOSymbol : string) : option string :=
  if negb (String.eqb gateIOSymbol "") then Some gateIOSymbol else None.

Definition GetMarketPrice (symbol : string) : M World (result float64) :=
  let gateIOSymbol := normalizeSymbolForGateIO symbol in
  r <- call (ListFuturesTickers "usdt" (contractFilter gateIOSymbol));;
  match r with
  | inr e => ret (Err (PriceUnavailable (UpstreamError e)))
  | inl [] => ret (Err PriceNotFound)
  | inl (ticker :: _) =>
      match Strconv.ParseFloat (FuturesTicker.Last ticker) with
      | (price, None) => ret (Ok price)
      | (_, Some e) => ret (Err (NumError (FuturesTicker.Last ticker) e))
      end
  end.

(** *** Formatting a quantity *)

(** Decimals of a contract size: the length of what follows the point
    of [OrderPriceRound] when it has exactly one point, 3 otherwise. *)
Definition precisionOf (info : Contract.t) : nat :=
  let round := Contract.OrderPriceRound info in
  if negb (String.eqb round "") && Strings.Contains round "." then
    match Strings.splitByte "." round with
    | [_; fraction] => Strings.len fraction
    | _ => 3%nat
    end
  else 3%nat.

Definition FormatQuantity (symbol : string) (quantity : float64)
  : M World (result string) :=
  r <- getSymbolInfo symbol;;
  match r with
  | Err _ => ret (Ok (Strconv.FormatFixed 3 quantity))
  | Ok info =>
      contractSize <-? convertCoinQuantityToContractSize symbol quantity
                    or QuantityConversionFailed;;
      let precision := precisionOf info in
      let minContractSize := Float64.of_int (Contract.OrderSizeMin info) in
      if (0 <? Contract.OrderSizeMin info) && Float64.ltb contractSize minContractSize
      then
        _ <- GetMarketPrice symbol;;
        ret (Err (BelowMinimumSize quantity contractSize minContractSize))
      else
        let formatted := Strconv.FormatFixed precision contractSize in
        match Strconv.ParseFloat formatted with
        | (formattedFloat, parseErr) =>
            if failed parseErr || Float64.leb formattedFloat Float64.zero
            then
              _ <- GetMarketPrice symbol;;
              ret (Err (ZeroAfterRounding quantity contractSize precision))
            else ret (Ok formatted)
        end
  end.

(** *** Leverage, cancellation, minimum notional *)

Definition SetLeverage (symbol : string) (leverage : Z) : M World (result unit) :=
  let gateIOSymbol := normalizeSymbolForGateIO symbol in
  if leverage <=? 0 then ret (Err (InvalidLeverage leverage))
  else
    r <- call (UpdatePositionLeverage "usdt" gateIOSymbol (Strconv.FormatInt leverage));;
    match r with
    | inl _ => ret (Ok tt)
    | inr e =>
        let succeeded :=
          match statusCode e with
          | Some code => (200 <=? code) && (code <? 300)
          | None => false
          end in
        if succeeded
           && (Strings.Contains (message e) "cannot unmarshal array"
               || Strings.Contains (message e) "unmarshal")
        then ret (Ok tt)
        else if Strings.Contains (message e) "already"
                || Strings.Contains (message e) "same"
        then ret (Ok tt)
        else ret (Err (LeverageFailed (UpstreamError e)))
    end.

Definition CancelAllOrders (symbol : string) : M World (result unit) :=
  let gateIOSymbol := normalizeSymbolForGateIO symbol in
  _ <- call (CancelFuturesOrders "usdt" gateIOSymbol);;
  r <- call (ListPriceTriggeredOrders "usdt" "open" (contractFilter gateIOSymbol));;
  match r with
  | inl priceOrders =>
      forEach priceOrders (fun order =>
        if 0 <? FuturesPriceTriggeredOrder.Id order then
          _ <- call (CancelPriceTriggeredOrder "usdt"
                       (Strconv.FormatInt (FuturesPriceTriggeredOrder.Id order)));;
          ret tt
        else ret tt)
  | inr _ => ret tt
  end;;
  ret (Ok tt).

Definition GetMinNotional (symbol : string) : float64 := Float64.of_int 10.

Definition CheckMinNotional (symbol : string) (quantity : float64)
  : M World (result unit) :=
  price <-? GetMarketPrice symbol or MarketPriceFailed;;
  let notionalValue := Float64.mul quantity price in
  let minNotional := GetMinNotional symbol in
  if Float64.ltb notionalValue minNotional
  then ret (Err (BelowMinimumNotional notionalValue minNotional quantity price))
  else ret (Ok tt).

(** *** Opening and closing *)

Definition marketOrder (contract : string) (size : Z) (reduceOnly : bool) (text : string)
  : FuturesOrder.t :=
  {| FuturesOrder.Id := 0; FuturesOrder.Contract := contract;
     FuturesOrder.Size := size; FuturesOrder.Price := "0";
     FuturesOrder.Close := false; FuturesOrder.ReduceOnly := reduceOnly;
     FuturesOrder.Tif := "ioc"; FuturesOrder.Text := text;
     FuturesOrder.Status := "" |}.

Definition orderResult (order : FuturesOrder.t) : gmap string value :=
  <["status" := VString (FuturesOrder.Status order)]>
    (<["symbol" := VString (FuturesOrder.Contract order)]>
       (<["orderId" := VInt (FuturesOrder.Id order)]> ∅)).

Definition OpenLong (symbol : string) (quantity : float64) (leverage : Z)
  : M World (result (gmap string value)) :=
  _ <- CancelAllOrders symbol;;
  _ <-? SetLeverage symbol leverage or id;;
  quantityStr <-? FormatQuantity symbol quantity or id;;
  match Strconv.ParseFloat quantityStr with
  | (_, Some e) => ret (Err (FormattedUnparsable (NumError quantityStr e)))
  | (contractSizeFloat, None) =>
      _ <-? CheckMinNotional symbol quantity or id;;
      let gateIOSymbol := normalizeSymbolForGateIO symbol in
      let quantityInt64 := Float64.to_int64 contractSizeFloat in
      r <- call (CreateFuturesOrder "usdt"
                   (marketOrder gateIOSymbol quantityInt64 false "t-gateio-futures"));;
      match r with
      | inr e => ret (Err (OpenLongFailed (UpstreamError e)))
      | inl order => ret (Ok (orderResult order))
      end
  end.

Definition OpenShort (symbol : string) (quantity : float64) (leverage : Z)
  : M World (result (gmap string value)) :=
  _ <- CancelAllOrders symbol;;
  _ <-? SetLeverage symbol leverage or id;;
  quantityStr <-? FormatQuantity symbol quantity or id;;
  match Strconv.ParseFloat quantityStr with
  | (_, Some e) => ret (Err (FormattedUnparsable (NumError quantityStr e)))
  | (contractSizeFloat, None) =>
      _ <-? CheckMinNotional symbol quantity or id;;
      let gateIOSymbol := normalizeSymbolForGateIO symbol in
      let negQuantityInt64 := Float64.to_int64 (Float64.neg contractSizeFloat) in
      r <- call (CreateFuturesOrder "usdt"
                   (marketOrder gateIOSymbol negQuantityInt64 false "t-gateio-futures"));;
      match r with
      | inr e => ret (Err (OpenShortFailed (UpstreamError e)))
      | inl order => ret (Ok (orderResult order))
      end
  end.

(** The search loop of [CloseLong] and [CloseShort]: the amount of the
    first position of the symbol and side, or the failure of its type
    assertion; [None] when the loop ends without a match. *)
Fixpoint findPositionAmt (positions : list (gmap string value)) (symbol side : string)
  : option (result float64) :=
  match positions with
  | [] => None
  | pos :: rest =>
      if isString (pos !! "symbol") symbol && isString (pos !! "side") side then
        match pos !! "positionAmt" with
        | Some (VFloat amt) => Some (Ok amt)
        | _ => Some (Err (PositionAmountNotFloat symbol side))
        end
      else findPositionAmt rest symbol side
  end.

(** The quantity to close: the given one, or for 0 the amount of the
    open position of that side. *)
Definition resolveQuantity (symbol side : string) (quantity : float64)
  : M World (result float64) :=
  if Float64.eqb quantity Float64.zero then
    positions <-? GetPositions or id;;
    match findPositionAmt positions symbol side with
    | Some (Err e) => ret (Err e)
    | Some (Ok amt) =>
        if Float64.eqb amt Float64.zero
        then ret (Err (NoOpenPosition symbol side))
        else ret (Ok amt)
    | None => ret (Err (NoOpenPosition symbol side))
    end
  else ret (Ok quantity).

(** [|int64(x)|] as [CloseLong] and [CloseShort] compute it. *)
Definition absContracts (contractSizeFloat : float64) : Z :=
  let contractSizeInt64 := Float64.to_int64 contractSizeFloat in
  if contractSizeInt64 <? 0 then Int64.neg contractSizeInt64 else contractSizeInt64.

Definition CloseLong (symbol : string) (quantity : float64)
  : M World (result (gmap string value)) :=
  quantity <-? resolveQuantity symbol "long" quantity or id;;
  let gateIOSymbol := normalizeSymbolForGateIO symbol in
  quantityStr <-? FormatQuantity symbol quantity or id;;
  match Strconv.ParseFloat quantityStr with
  | (_, Some e) => ret (Err (FormattedUnparsable (NumError quantityStr e)))
  | (contractSizeFloat, None) =>
      let contractSizeInt64 := absContracts contractSizeFloat in
      r <- call (CreateFuturesOrder "usdt"
                   (marketOrder gateIOSymbol (Int64.neg contractSizeInt64) true
                                "t-gateio-futures-close"));;
      match r with
      | inr e => ret (Err (CloseLongFailed (UpstreamError e)))
      | inl order =>
          _ <- CancelAllOrders symbol;;
          ret (Ok (orderResult order))
      end
  end.

Definition CloseShort (symbol : string) (quantity : float64)
  : M World (result (gmap string value)) :=
  quantity <-? resolveQuantity symbol "short" quantity or id;;
  let gateIOSymbol := normalizeSymbolForGateIO symbol in
  quantityStr <-? FormatQuantity symbol quantity or id;;
  match Strconv.ParseFloat quantityStr with
  | (_, Some e) => ret (Err (FormattedUnparsable (NumError quantityStr e)))
  | (contractSizeFloat, None) =>
      let contractSizeInt64 := absContracts contractSizeFloat in
      r <- call (CreateFuturesOrder "usdt"
                   (marketOrder gateIOSymbol contractSizeInt64 true
                                "t-gateio-futures-close"));;
      match r with
      | inr e => ret (Err (CloseShortFailed (UpstreamError e)))
      | inl order =>
          _ <- CancelAllOrders symbol;;
          ret (Ok (orderResult order))
      end
  end.

(** *** Stop-loss and take-profit orders *)

(** The side of the first position of the symbol, [""] when there is
    none; [None] when [pos["side"].(string)] panics. *)
Fixpoint positionSideOf (positions : list (gmap string value)) (symbol : string)
  : option string :=
  match positions with
  | [] => Some ""
  | pos :: rest =>
      if isString (pos !! "symbol") symbol then
        match pos !! "side" with
        | Some (VString side) => Some side
        | _ => None
        end
      else positionSideOf rest symbol
  end.

(** The flag [isStopLoss] of [CancelStopLossOrders] for one order. *)
Definition isStopLoss (positionSide : string) (currentPrice : float64)
           (order : FuturesPriceTriggeredOrder.t) : bool :=
  let trigger := FuturesPriceTrigger.Price (FuturesPriceTriggeredOrder.Trigger order) in
  if negb (String.eqb trigger "") then
    match Strconv.ParseFloat trigger with
    | (triggerPrice, parseErr) =>
        if negb (failed parseErr) && Float64.gtb currentPrice Float64.zero then
          if String.eqb positionSide "long" then Float64.ltb triggerPrice currentPrice
          else if String.eqb positionSide "short" then Float64.gtb triggerPrice currentPrice
          else false
        else
          let size := FuturesInitialOrder.Size (FuturesPriceTriggeredOrder.Initial order) in
          if String.eqb positionSide "long" && (size <? 0) then true
          else if String.eqb positionSide "short" && (0 <? size) then true
          else false
    end
  else false.

(** The flag [isTakeProfit] of [CancelTakeProfitOrders] for one order. *)
Definition isTakeProfit (positionSide : string) (currentPrice : float64)
           (order : FuturesPriceTriggeredOrder.t) : bool :=
  let trigger := FuturesPriceTrigger.Price (FuturesPriceTriggeredOrder.Trigger order) in
  if negb (String.eqb trigger "") then
    match Strconv.ParseFloat trigger with
    | (triggerPrice, parseErr) =>
        if negb (failed parseErr) && Float64.gtb currentPrice Float64.zero then
          if String.eqb positionSide "long" then Float64.gtb triggerPrice currentPrice
          else if String.eqb positionSide "short" then Float64.ltb triggerPrice currentPrice
          else false
        else
          let size := FuturesInitialOrder.Size (FuturesPriceTriggeredOrder.Initial order) in
          if String.eqb positionSide "long" && (size <? 0) then true
          else if String.eqb positionSide "short" && (0 <? size) then true
          else false
    end
  else false.

(** The body of the loop over the open conditional orders: an order
    is passed over when the side or the price is missing, and
    cancelled when its flag is set and its id is positive. *)
Definition cancelIfSelected
           (selected : string -> float64 -> FuturesPriceTriggeredOrder.t -> bool)
           (positionSide : string) (currentPrice : float64)
           (order : FuturesPriceTriggeredOrder.t) : M World unit :=
  let flag := selected positionSide currentPrice order in
  if String.eqb positionSide "" || Float64.eqb currentPrice Float64.zero
  then ret tt
  else if flag && (0 <? FuturesPriceTriggeredOrder.Id order) then
    _ <- call (CancelPriceTriggeredOrder "usdt"
                 (Strconv.FormatInt (FuturesPriceTriggeredOrder.Id order)));;
    ret tt
  else ret tt.

(** The common shape of [CancelStopLossOrders] and
    [CancelTakeProfitOrders], which differ in the flag they compute. *)
Definition cancelSelected
           (selected : string -> float64 -> FuturesPriceTriggeredOrder.t -> bool)
           (symbol : string) : M World (result unit) :=
  let gateIOSymbol := normalizeSymbolForGateIO symbol in
  p <- GetMarketPrice symbol;;
  let currentPrice := match p with Ok price => price | Err _ => Float64.zero end in
  r <- call (ListPriceTriggeredOrders "usdt" "open" (contractFilter gateIOSymbol));;
  match r with
  | inr e => ret (Err (TriggerOrdersUnavailable (UpstreamError e)))
  | inl priceOrders =>
      ps <- GetPositions;;
      let positions := match ps with Ok l => l | Err _ => [] end in
      match positionSideOf positions symbol with
      | None => ret (Err Panicked)
      | Some positionSide =>
          forEach priceOrders (cancelIfSelected selected positionSide currentPrice);;
          ret (Ok tt)
      end
  end.

Definition CancelStopLossOrders : string -> M World (result unit) :=
  cancelSelected isStopLoss.

Definition CancelTakeProfitOrders : string -> M World (result unit) :=
  cancelSelected isTakeProfit.

Definition CancelStopOrders (symbol : string) : M World (result unit) :=
  _ <-? CancelStopLossOrders symbol or id;;
  CancelTakeProfitOrders symbol.

Definition triggerOrder (contract : string) (size : Z) (price : float64)
  : FuturesPriceTriggeredOrder.t :=
  {| FuturesPriceTriggeredOrder.Initial :=
       {| FuturesInitialOrder.Contract := contract;
          FuturesInitialOrder.Size := size;
          FuturesInitialOrder.Price := Strconv.FormatFixed 8 price;
          FuturesInitialOrder.Tif := "gtc" |};
     FuturesPriceTriggeredOrder.Trigger :=
       {| FuturesPriceTrigger.StrategyType := 0;
          FuturesPriceTrigger.PriceType := 0;
          FuturesPriceTrigger.Price := Strconv.FormatFixed 8 price |};
     FuturesPriceTriggeredOrder.Id := 0 |}.

(** The size of a protective order: the parsed quantity, negated for a
    ["LONG"] position, as an [int64]. *)
Definition protectiveSize (positionSide quantityStr : string) : Z :=
  let size := fst (Strconv.ParseFloat quantityStr) in
  let size := if String.eqb positionSide "LONG" then Float64.neg size else size in
  Float64.to_int64 size.

Definition SetStopLoss (symbol positionSide : string) (quantity stopPrice : float64)
  : M World (result unit) :=
  quantityStr <-? FormatQuantity symbol quantity or id;;
  let sizeInt64 := protectiveSize positionSide quantityStr in
  let gateIOSymbol := normalizeSymbolForGateIO symbol in
  r <- call (CreatePriceTriggeredOrder "usdt" (triggerOrder gateIOSymbol sizeInt64 stopPrice));;
  match r with
  | inr e => ret (Err (StopLossFailed (UpstreamError e)))
  | inl _ => ret (Ok tt)
  end.

Definition SetTakeProfit (symbol positionSide : string) (quantity takeProfitPrice : float64)
  : M World (result unit) :=
  quantityStr <-? FormatQuantity symbol quantity or id;;
  let sizeInt64 := protectiveSize positionSide quantityStr in
  let gateIOSymbol := normalizeSymbolForGateIO symbol in
  r <- call (CreatePriceTriggeredOrder "usdt"
               (triggerOrder gateIOSymbol sizeInt64 takeProfitPrice));;
  match r with
  | inr e => ret (Err (TakeProfitFailed (UpstreamError e)))
  | inl _ => ret (Ok tt)
  end.

End Adapter.

(** ** The minimum amount to open, run against an upstream *)

Section MinOpen.

Context {World : Type}.
Variable upstream : forall R : Type, Call R -> World -> R * World.

Local Open Scope go_scope.

(** [GetMinOpenAmount] returns a number and an error: 0 and the error
    of [GetMarketPrice] (wrapped) when there is no price, else the
    amount and no error. *)
Definition GetMinOpenAmount (symbol : string) : M World (float64 * option error) :=
  p <- GetMarketPrice upstream symbol;;
  match p with
  | Err e => ret (Float64.zero, Some e)
  | Ok price =>
      r <- getSymbolInfo upstream symbol;;
      match r with
      | Err _ => ret (Float64.of_int 12, None)
      | Ok info =>
          let quantoMultiplier := quantoMultiplier info in
          let minNotional :=
            if 0 <? Contract.OrderSizeMin info then
              let minContractSize := Float64.of_int (Contract.OrderSizeMin info) in
              let minCoinQuantity := Float64.mul minContractSize quantoMultiplier in
              Float64.mul minCoinQuantity price
            else
              let precision := precisionOf info in
              let minContractQuantity :=
                Float64.div (Float64.of_int 1) (Math.Pow10 precision) in
              let minCoinQuantity := Float64.mul minContractQuantity quantoMultiplier in
              Float64.mul minCoinQuantity price in
          let minExchangeNotional := GetMinNotional symbol in
          let minNotional :=
            if Float64.ltb minNotional minExchangeNotional
            then minExchangeNotional else minNotional in
          ret (Float64.mul minNotional (Float64.of_ratio false 11 10), None)
      end
  end.

End MinOpen.

(** ** Reading the list of requests *)

(** The orders passed to [CreateFuturesOrder]. *)
Definition submittedOrders (evs : list Event) : list FuturesOrder.t :=
  flat_map (fun ev =>
    match ev with
    | Sent (CreateFuturesOrder _ order) => [order]
    | Sent _ => []
    end) evs.

(** The orders passed to [CreatePriceTriggeredOrder]. *)
Definition submittedTriggerOrders (evs : list Event) : list FuturesPriceTriggeredOrder.t :=
  flat_map (fun ev =>
    match ev with
    | Sent (CreatePriceTriggeredOrder _ order) => [order]
    | Sent _ => []
    end) evs.

(** The ids passed to [CancelPriceTriggeredOrder]. *)
Definition cancelledTriggerOrders (evs : list Event) : list string :=
  flat_map (fun ev =>
    match ev with
    | Sent (CancelPriceTriggeredOrder _ orderId) => [orderId]
    | Sent _ => []
    end) evs.

(** The number of account queries. *)
Definition accountFetches (evs : list Event) : nat :=
  length (flat_map (fun ev =>
    match ev with
    | Sent (ListFuturesAccounts _) => [tt]
    | Sent _ => []
    end) evs).

(** ** A scripted exchange, to run the adapter on concrete inputs *)

Module Script.

Record Exchange := {
  clock : Z;
  account : reply FuturesAccount.t;
  positions : reply (list Position.t);
  contracts : reply (list Contract.t);
  tickers : reply (list FuturesTicker.t);
  triggerOrders : reply (list FuturesPriceTriggeredOrder.t) }.

Definition refused : APIError := {| message := "refused"; statusCode := Some 500 |}.

Definition noPosition : Position.t :=
  {| Position.Contract := ""; Position.Size := 0; Position.EntryPrice := "";
     Position.MarkPrice := ""; Position.UnrealisedPnl := "";
     Position.Leverage := ""; Position.LiqPrice := "" |}.

Definition contract (multiplier round : string) (sizeMin : Z) : Contract.t :=
  {| Contract.Name := "BTC_USDT"; Contract.QuantoMultiplier := multiplier;
     Contract.OrderPriceRound := round; Contract.OrderSizeMin := sizeMin |}.

Definition position (size : Z) : Position.t :=
  {| Position.Contract := "BTC_USDT"; Position.Size := size;
     Position.EntryPrice := "100"; Position.MarkPrice := "100";
     Position.UnrealisedPnl := "0"; Position.Leverage := "10";
     Position.LiqPrice := "0" |}.

Definition conditional (id size : Z) (trigger : string) : FuturesPriceTriggeredOrder.t :=
  {| FuturesPriceTriggeredOrder.Initial :=
       {| FuturesInitialOrder.Contract := "BTC_USDT";
          FuturesInitialOrder.Size := size;
          FuturesInitialOrder.Price := "0"; FuturesInitialOrder.Tif := "gtc" |};
     FuturesPriceTriggeredOrder.Trigger :=
       {| FuturesPriceTrigger.StrategyType := 0; FuturesPriceTrigger.PriceType := 0;
          FuturesPriceTrigger.Price := trigger |};
     FuturesPriceTriggeredOrder.Id := id |}.

(** Every request is answered from the script; an order is accepted
    and comes back with id 1, a cancellation succeeds. *)
Definition answer (R : Type) (c : Call R) (x : Exchange) : R * Exchange :=
  match c in Call R return R * Exchange with
  | Now => (clock x, x)
  | ListFuturesAccounts _ => (account x, x)
  | ListPositions _ => (positions x, x)
  | ListFuturesContracts _ => (contracts x, x)
  | ListFuturesTickers _ _ => (tickers x, x)
  | UpdatePositionLeverage _ _ _ => (inl noPosition, x)
  | CreateFuturesOrder _ order =>
      (inl {| FuturesOrder.Id := 1;
              FuturesOrder.Contract := FuturesOrder.Contract order;
              FuturesOrder.Size := FuturesOrder.Size order;
              FuturesOrder.Price := FuturesOrder.Price order;
              FuturesOrder.Close := FuturesOrder.Close order;
              FuturesOrder.ReduceOnly := FuturesOrder.ReduceOnly order;
              FuturesOrder.Tif := FuturesOrder.Tif order;
              FuturesOrder.Text := FuturesOrder.Text order;
              FuturesOrder.Status := "finished" |}, x)
  | CancelFuturesOrders _ _ => (inl [], x)
  | ListPriceTriggeredOrders _ _ _ => (triggerOrders x, x)
  | CancelPriceTriggeredOrder _ _ => (inl (conditional 0 0 ""), x)
  | CreatePriceTriggeredOrder _ _ => (inl {| TriggerOrderResponse.Id := 2 |}, x)
  end.

(** An exchange listing one contract, the last price, the open
    positions and the open conditional orders. *)
Definition exchange (spec : reply (list Contract.t)) (last : string)
           (open : list Position.t) (orders : list FuturesPriceTriggeredOrder.t)
  : Exchange :=
  {| clock := 1000 * Second;
     account := inl {| FuturesAccount.Total := "1000.5";
                       FuturesAccount.Available := "900";
                       FuturesAccount.UnrealisedPnl := "-1.25" |};
     positions := inl open;
     contracts := spec;
     tickers := inl [ {| FuturesTicker.Last := last |} ];
     triggerOrders := inl orders |}.

(** The same exchange at another reading of the clock. *)
Definition atTime (now : Z) (x : Exchange) : Exchange :=
  {| clock := now; account := account x; positions := positions x;
     contracts := contracts x; tickers := tickers x;
     triggerOrders := triggerOrders x |}.

Definition fresh : GateIOFuturesTrader := NewGateIOFuturesTrader "key" "secret".

(** The value of a decimal literal. *)
Definition num (s : string) : float64 := fst (Strconv.ParseFloat s).

End Script.
(** ** Vocabulary of the properties *)

(** The reading of "the symbol with ['_'] inserted 4 characters from the
    end": the result is the symbol cut before its last 4 bytes, with the
    separator in the cut. *)
Definition insertedFourFromEnd (symbol r : string) : Prop :=
  exists a b, symbol = a ++ b /\ Strings.len b = 4%nat /\ r = a ++ "_" ++ b.

Fixpoint allDigits (s : string) : bool :=
  match s with
  | EmptyString => true
  | String c r => Strconv.isDigit c && allDigits r
  end.

(** A number written with exactly [digits] decimals: a point followed by
    [digits] digits up to the end. *)
Definition hasDecimals (digits : nat) (s : string) : Prop :=
  exists whole fraction,
    s = whole ++ "." ++ fraction
    /\ Strings.len fraction = digits /\ allDigits fraction = true.

Definition isBelowMinimumSize {A} (r : result A) : bool :=
  match r with
  | Err (BelowMinimumSize _ _ _) => true
  | _ => false
  end.

Definition isZeroAfterRounding {A} (r : result A) : bool :=
  match r with
  | Err (ZeroAfterRounding _ _ _) => true
  | _ => false
  end.

Definition creates (ev : Event) : bool :=
  match ev with
  | Sent (CreateFuturesOrder _ _) => true
  | Sent (CreatePriceTriggeredOrder _ _) => true
  | Sent _ => false
  end.

(** Readings of the clock and queries, which change nothing upstream. *)
Definition reads (ev : Event) : bool :=
  match ev with
  | Sent Now => true
  | Sent (ListFuturesAccounts _) => true
  | Sent (ListPositions _) => true
  | Sent (ListFuturesContracts _) => true
  | Sent (ListFuturesTickers _ _) => true
  | Sent (ListPriceTriggeredOrders _ _ _) => true
  | Sent _ => false
  end.

(** A list of requests all of the allowed kind. *)
Definition only (allowed : Event -> bool) (evs : list Event) : Prop :=
  forallb allowed evs = true.

(** A list of requests none of which places an order. *)
Definition quiet : list Event -> Prop := only (fun ev => negb (creates ev)).

(** A list of requests that only read. *)
Definition readOnly : list Event -> Prop := only reads.

(** The size of an order is opposite to the side of the position: a
    sale against a long position, a purchase against a short one. *)
Definition closesPosition (positionSide : string) (size : Z) : bool :=
  (String.eqb positionSide "long" && (size <? 0))
  || (String.eqb positionSide "short" && (0 <? size)).

(** The ids of the orders that a selective cancellation picks: those
    with the flag set and a positive id, provided the side of the
    position is known and the price is not 0. *)
Definition selection
           (selected : string -> float64 -> FuturesPriceTriggeredOrder.t -> bool)
           (positionSide : string) (currentPrice : float64)
           (priceOrders : list FuturesPriceTriggeredOrder.t) : list string :=
  if String.eqb positionSide "" || Float64.eqb currentPrice Float64.zero then []
  else
    map (fun order => Strconv.FormatInt (FuturesPriceTriggeredOrder.Id order))
        (List.filter (fun order => selected positionSide currentPrice order
                                   && (0 <? FuturesPriceTriggeredOrder.Id order))
                     priceOrders).

Section Vocabulary.

Context {World : Type}.
Variable upstream : forall R : Type, Call R -> World -> R * World.

(** A string that some call of [FormatQuantity] for the symbol
    returns, and the number it is read back as. *)
Definition formattedAs (symbol quantityStr : string) (contractSizeFloat : float64)
  : Prop :=
  (exists quantity t w,
      returned (FormatQuantity upstream symbol quantity t w) = Ok quantityStr)
  /\ Strconv.ParseFloat quantityStr = (contractSizeFloat, None).

(** The age of the cached balance at the reading of the clock that
    [GetBalance] takes, and the world in which it turns to the
    exchange: the clock is only read when there is a cached balance. *)
Definition balanceAge (t : GateIOFuturesTrader) (w : World) : Z :=
  fst (upstream Z Now w) - balanceCacheTime t.

Definition beforeFetch (t : GateIOFuturesTrader) (w : World) : World :=
  match cachedBalance t with
  | Some _ => snd (upstream Z Now w)
  | None => w
  end.

End Vocabulary.

(** ** Vocabulary of the further properties *)

(** A number that is not NaN and has the sign bit [s]. *)
Definition signed (s : bool) (x : float64) : Prop :=
  match x with
  | S754_zero s' | S754_infinity s' | S754_finite s' _ _ => s' = s
  | S754_nan => False
  end.

(** A number that is neither NaN nor a zero. *)
Definition nonzero (x : float64) : Prop :=
  match x with
  | S754_infinity _ | S754_finite _ _ _ => True
  | _ => False
  end.

(** The table that [getSymbolInfo] builds from a listing: every contract
    under its name, a later one replacing an earlier one of that name. *)
Definition contractTable (contracts : list Contract.t) : gmap string Contract.t :=
  fold_left (fun m contract => <[Contract.Name contract := contract]> m)
            contracts (∅ : gmap string Contract.t).

(** What [GetPositions] reports of a position: the symbol without
    separator, and the side by the sign of the size. *)
Definition reportedSymbol (pos : Position.t) : option value :=
  Some (VString (DenormalizeSymbolFromGateIO (Position.Contract pos))).

Definition reportedSide (pos : Position.t) : option value :=
  Some (VString (if 0 <? Position.Size pos then "long" else "short")).

(** The number of listings of the positions. *)
Definition positionFetches (evs : list Event) : nat :=
  length (flat_map (fun ev =>
    match ev with
    | Sent (ListPositions _) => [tt]
    | Sent _ => []
    end) evs).

(** The amount of a position record is a number that is not negative. *)
Definition amountNotNegative (posMap : gmap string value) : Prop :=
  exists amt, posMap !! "positionAmt" = Some (VFloat amt)
              /\ Float64.leb Float64.zero amt = true.

(** What a position record holds for the methods that read it: a
    symbol, one of the two sides, and an amount that is not negative. *)
Definition positionRecord (posMap : gmap string value) : Prop :=
  (exists symbol, posMap !! "symbol" = Some (VString symbol))
  /\ (posMap !! "side" = Some (VString "long")
      \/ posMap !! "side" = Some (VString "short"))
  /\ amountNotNegative posMap.

(** The state of a trader as the methods leave it: the lifetime of the
    caches is the 15 seconds of the constructor, every contract of the
    table is stored under its own name, every cached position is a
    position record, and a cached balance is the record of an account. *)
Record consistent (t : GateIOFuturesTrader) : Prop := {
  lifetime_fixed : cacheDuration t = 15 * Second;
  contracts_by_name :
    forall name info, symbolInfoCache t !! name = Some info -> Contract.Name info = name;
  positions_formed : Forall positionRecord (cachedPositions t);
  balance_formed :
    forall balance, cachedBalance t = Some balance ->
                    exists account, balance = balanceRecord account }.

(** The methods of the trader that touch its fields or the exchange,
    with their arguments.  ([SetMarginMode] and [GetMinNotional] read
    and write no field.) *)
Inductive method :=
| CallGetBalance
| CallGetPositions
| CallGetSymbolInfo (symbol : string)
| CallConvertCoinQuantityToContractSize (symbol : string) (coinQuantity : float64)
| CallFormatQuantity (symbol : string) (quantity : float64)
| CallGetMarketPrice (symbol : string)
| CallSetLeverage (symbol : string) (leverage : Z)
| CallOpenLong (symbol : string) (quantity : float64) (leverage : Z)
| CallOpenShort (symbol : string) (quantity : float64) (leverage : Z)
| CallCloseLong (symbol : string) (quantity : float64)
| CallCloseShort (symbol : string) (quantity : float64)
| CallCancelAllOrders (symbol : string)
| CallCancelStopLossOrders (symbol : string)
| CallCancelTakeProfitOrders (symbol : string)
| CallCancelStopOrders (symbol : string)
| CallSetStopLoss (symbol positionSide : string) (quantity stopPrice : float64)
| CallSetTakeProfit (symbol positionSide : string) (quantity takeProfitPrice : float64)
| CallCheckMinNotional (symbol : string) (quantity : float64)
| CallGetMinOpenAmount (symbol : string).

(** Whether a call may look at the cached balance or positions, and
    refresh them. *)
Definition readsAccount (m : method) : bool :=
  match m with
  | CallGetBalance | CallGetPositions => true
  | CallCloseLong _ quantity | CallCloseShort _ quantity =>
      Float64.eqb quantity Float64.zero
  | CallCancelStopLossOrders _ | CallCancelTakeProfitOrders _
  | CallCancelStopOrders _ => true
  | _ => false
  end.

Section Calls.

Context {World : Type}.
Variable upstream : forall R : Type, Call R -> World -> R * World.

(** A call of a method, what it returns left aside. *)
Definition run (m : method) : M World unit :=
  let discard {A} (c : M World A) : M World unit := bind c (fun _ => ret tt) in
  match m with
  | CallGetBalance => discard (GetBalance upstream)
  | CallGetPositions => discard (GetPositions upstream)
  | CallGetSymbolInfo symbol => discard (getSymbolInfo upstream symbol)
  | CallConvertCoinQuantityToContractSize symbol coinQuantity =>
      discard (convertCoinQuantityToContractSize upstream symbol coinQuantity)
  | CallFormatQuantity symbol quantity => discard (FormatQuantity upstream symbol quantity)
  | CallGetMarketPrice symbol => discard (GetMarketPrice upstream symbol)
  | CallSetLeverage symbol leverage => discard (SetLeverage upstream symbol leverage)
  | CallOpenLong symbol quantity leverage =>
      discard (OpenLong upstream symbol quantity leverage)
  | CallOpenShort symbol quantity leverage =>
      discard (OpenShort upstream symbol quantity leverage)
  | CallCloseLong symbol quantity => discard (CloseLong upstream symbol quantity)
  | CallCloseShort symbol quantity => discard (CloseShort upstream symbol quantity)
  | CallCancelAllOrders symbol => discard (CancelAllOrders upstream symbol)
  | CallCancelStopLossOrders symbol => discard (CancelStopLossOrders upstream symbol)
  | CallCancelTakeProfitOrders symbol => discard (CancelTakeProfitOrders upstream symbol)
  | CallCancelStopOrders symbol => discard (CancelStopOrders upstream symbol)
  | CallSetStopLoss symbol positionSide quantity stopPrice =>
      discard (SetStopLoss upstream symbol positionSide quantity stopPrice)
  | CallSetTakeProfit symbol positionSide quantity takeProfitPrice =>
      discard (SetTakeProfit upstream symbol positionSide quantity takeProfitPrice)
  | CallCheckMinNotional symbol quantity =>
      discard (CheckMinNotional upstream symbol quantity)
  | CallGetMinOpenAmount symbol => discard (GetMinOpenAmount upstream symbol)
  end.

(** The traders that calls of the methods lead to from a new one, the
    exchange being in any state at each call. *)
Inductive reachable : GateIOFuturesTrader -> Prop :=
| reachable_new apiKey secretKey : reachable (NewGateIOFuturesTrader apiKey secretKey)
| reachable_run m t w : reachable t -> reachable (trader (run m t w)).

(** [c] keeps [I]: run from a trader with the property, it leaves one
    with it, whatever the upstream answers. *)
Definition keeps {A} (I : GateIOFuturesTrader -> Prop) (c : M World A) : Prop :=
  forall t w, I t -> I (trader (c t w)).

End Calls.

(** The errors of a failed type assertion: the one [CloseLong] and
    [CloseShort] return for an amount that is no [float64], and the
    panic of [pos["side"].(string)]. *)
Definition isAssertionFailure {A} (r : result A) : bool :=
  match r with
  | Err (PositionAmountNotFloat _ _) | Err Panicked => true
  | _ => false
  end.

(** A property of what a method returns, whatever the trader and the
    upstream. *)
Definition returns {World A} (Q : A -> Prop) (c : M World A) : Prop :=
  forall t w, Q (returned (c t w)).

(** The errors of an order that was sent and refused. *)
Definition isRefusal (e : error) : bool :=
  match e with
  | OpenLongFailed _ | OpenShortFailed _ | CloseLongFailed _ | CloseShortFailed _ => true
  | _ => false
  end.

(** What a trading method returns when it has sent its order: the
    record of the order, or the error of a refusal. *)
Definition reportsOrder {A} (r : result A) : bool :=
  match r with
  | Ok _ => true
  | Err e => isRefusal e
  end.

Definition reportsRefusal {A} (r : result A) : bool :=
  match r with
  | Ok _ => false
  | Err e => isRefusal e
  end.

(** The contracts passed to [CancelFuturesOrders]. *)
Definition cancelledOrdinaryOrders (evs : list Event) : list string :=
  flat_map (fun ev =>
    match ev with
    | Sent (CancelFuturesOrders _ contract) => [contract]
    | Sent _ => []
    end) evs.

(** Two traders with the same cached balance and positions, of the same
    age and lifetime. *)
Definition sameAccount (t t' : GateIOFuturesTrader) : Prop :=
  cachedBalance t' = cachedBalance t
  /\ balanceCacheTime t' = balanceCacheTime t
  /\ cachedPositions t' = cachedPositions t
  /\ positionsCacheTime t' = positionsCacheTime t
  /\ cacheDuration t' = cacheDuration t.

Definition cancelsOrdinaryOrders (ev : Event) : bool :=
  match ev with
  | Sent (CancelFuturesOrders _ _) => true
  | Sent _ => false
  end.

(** The errors of the exchange that [SetLeverage] takes for a success:
    an answer that could not be decoded under a 2xx status, or a
    message saying that the leverage is the wanted one already. *)
Definition leverageErrorIgnored (e : APIError) : bool :=
  (match statusCode e with
   | Some code => (200 <=? code) && (code <? 300)
   | None => false
   end && Strings.Contains (message e) "unmarshal")
  || Strings.Contains (message e) "already"
  || Strings.Contains (message e) "same".

(** * Properties *)

Import Script.

(** Unfolding a method down to the answers of the upstream. *)
Ltac simpl_out := cbn beta iota delta [returned trader world sent fst snd].
Ltac unfold_go := unfold bind, get, call, ret, modify; simpl_out.

(** ** Strings *)

Section StringFacts.

Import Strings.

Lemma app_cons (c : ascii) (a b : string) : String c a ++ b = String c (a ++ b).
Proof. reflexivity. Qed.

Lemma take_drop (n : nat) (s : string) : take n s ++ drop n s = s.
Proof.
  revert s; induction n as [|n IH]; intros [|c r]; simpl; try reflexivity.
  now rewrite app_cons, IH.
Qed.

Lemma len_app (a b : string) : len (a ++ b) = (len a + len b)%nat.
Proof.
  induction a as [|c a IH]; [reflexivity|].
  rewrite app_cons. unfold len in *. simpl. now rewrite IH.
Qed.

Lemma len_drop (n : nat) (s : string) : len (drop n s) = (len s - n)%nat.
Proof.
  revert s; induction n as [|n IH]; intros [|c r]; unfold len in *; simpl;
    try reflexivity; try lia. apply IH.
Qed.

Lemma Contains_byte_cons (c : ascii) (r : string) :
  Contains (String c r) "_" = Ascii.eqb "_" c || Contains r "_".
Proof.
  change (Contains (String c r) "_")
    with (Ascii.eqb "_" c && HasPrefix r "" || Contains r "_").
  replace (HasPrefix r "") with true by (destruct r; reflexivity).
  now rewrite andb_true_r.
Qed.

Lemma Contains_byte_app (a b : string) :
  Contains (a ++ b) "_" = Contains a "_" || Contains b "_".
Proof.
  induction a as [|c a IH].
  - simpl. destruct b; reflexivity.
  - change (String c a ++ b) with (String c (a ++ b)).
    rewrite !Contains_byte_cons, IH. now rewrite orb_assoc.
Qed.

Lemma replaceFrom_byte_cons (c : ascii) (r : string) :
  replaceFrom 0 (String c r) "_" "" =
  if Ascii.eqb "_" c then replaceFrom 0 r "_" ""
  else String c (replaceFrom 0 r "_" "").
Proof.
  change (replaceFrom 0 (String c r) "_" "")
    with (if Ascii.eqb "_" c && HasPrefix r ""
          then replaceFrom 0 r "_" "" else String c (replaceFrom 0 r "_" "")).
  replace (HasPrefix r "") with true by (destruct r; reflexivity).
  now rewrite andb_true_r.
Qed.

Lemma ReplaceAll_byte_app (a b : string) :
  ReplaceAll (a ++ b) "_" "" = ReplaceAll a "_" "" ++ ReplaceAll b "_" "".
Proof.
  unfold ReplaceAll. induction a as [|c a IH]; [reflexivity|].
  change (String c a ++ b) with (String c (a ++ b)).
  rewrite !replaceFrom_byte_cons, IH. now destruct (Ascii.eqb "_" c).
Qed.

Lemma ReplaceAll_clean (s : string) :
  Contains s "_" = false -> ReplaceAll s "_" "" = s.
Proof.
  unfold ReplaceAll. induction s as [|c r IH]; [reflexivity|].
  rewrite Contains_byte_cons, replaceFrom_byte_cons.
  intros [Hc Hr]%orb_false_elim. rewrite Hc. now rewrite IH.
Qed.

(** Stripping the separator put between two clean halves gives the
    halves back. *)
Lemma strip_inserted (a b : string) :
  Contains (a ++ b) "_" = false ->
  DenormalizeSymbolFromGateIO (a ++ "_" ++ b) = a ++ b.
Proof.
  rewrite Contains_byte_app. intros [Ha Hb]%orb_false_elim.
  unfold DenormalizeSymbolFromGateIO.
  rewrite Contains_byte_app, (Contains_byte_app "_" b), Hb, Ha. simpl negb. cbv iota.
  rewrite ReplaceAll_byte_app, (ReplaceAll_byte_app "_" b).
  now rewrite (ReplaceAll_clean a Ha), (ReplaceAll_clean b Hb).
Qed.

Lemma TrimSuffix_app (s suffix : string) :
  HasSuffix s suffix = true -> TrimSuffix s suffix ++ suffix = s.
Proof.
  intros H. unfold TrimSuffix. rewrite H.
  unfold HasSuffix in H. apply andb_true_iff in H as [_ H].
  apply String.eqb_eq in H. set (k := (len s - len suffix)%nat) in *.
  rewrite <- H. apply take_drop.
Qed.

(** Whatever [normalizeSymbolForGateIO] does to a symbol without
    separator, it keeps the symbol or cuts it in two around one. *)
Lemma splitAtSuffix_cut (symbol r : string) (sfx : list string) :
  splitAtSuffix symbol sfx = Some r ->
  exists a b, symbol = a ++ b /\ r = a ++ "_" ++ b.
Proof.
  induction sfx as [|suffix rest IH]; simpl; [discriminate|].
  destruct (HasSuffix symbol suffix) eqn:E; [|exact IH].
  intros [= <-]. exists (TrimSuffix symbol suffix), suffix.
  split; [symmetry; now apply TrimSuffix_app | reflexivity].
Qed.

Lemma splitAtSuffix_none (symbol : string) (sfx : list string) :
  (forall suffix, In suffix sfx -> HasSuffix symbol suffix = false) ->
  splitAtSuffix symbol sfx = None.
Proof.
  induction sfx as [|suffix rest IH]; simpl; [reflexivity|].
  intros H. rewrite (H suffix (or_introl eq_refl)). apply IH.
  intros x Hx. apply H. now right.
Qed.

End StringFacts.

(** C6.  Round trip of the symbol spellings: a canonical symbol, one
    without the separator ['_'], comes back unchanged from
    [DenormalizeSymbolFromGateIO] after [normalizeSymbolForGateIO]. *)
Theorem denormalize_normalize (S : string) :
  Strings.Contains S "_" = false ->
  DenormalizeSymbolFromGateIO (normalizeSymbolForGateIO S) = S.
Proof.
  intros clean. unfold normalizeSymbolForGateIO. rewrite clean.
  destruct (splitAtSuffix S suffixes) as [r|] eqn:E.
  - apply splitAtSuffix_cut in E as (a & b & -> & ->). now apply strip_inserted.
  - destruct (4 <? Strings.len S)%nat.
    + rewrite strip_inserted; rewrite take_drop; [reflexivity | exact clean].
    + unfold DenormalizeSymbolFromGateIO. now rewrite clean.
Qed.

Lemma denormalize_normalize_witness :
  Strings.Contains "BTCUSDT" "_" = false
  /\ normalizeSymbolForGateIO "BTCUSDT" = "BTC_USDT"
  /\ DenormalizeSymbolFromGateIO (normalizeSymbolForGateIO "BTCUSDT") = "BTCUSDT".
Proof.
  split; [reflexivity|]. split; [reflexivity|].
  apply (denormalize_normalize "BTCUSDT"). reflexivity.
Defined.

(** C7, as stated, fails on a short symbol: ["ETH"] has no separator and
    none of the known suffixes, and is returned as it is. *)
Lemma short_symbol_not_cut :
  Strings.Contains "ETH" "_" = false
  /\ (forall suffix, In suffix suffixes -> Strings.HasSuffix "ETH" suffix = false)
  /\ normalizeSymbolForGateIO "ETH" = "ETH"
  /\ ~ insertedFourFromEnd "ETH" (normalizeSymbolForGateIO "ETH").
Proof.
  split; [reflexivity|]. split.
  - intros suffix H. simpl in H.
    repeat (destruct H as [<-|H]; [reflexivity|]). contradiction.
  - split; [reflexivity|].
    intros (a & b & Hs & Hb & _).
    apply (f_equal Strings.len) in Hs. rewrite len_app, Hb in Hs.
    unfold Strings.len in Hs. simpl in Hs. lia.
Qed.

(** C7, amended.  A symbol without separator that ends in none of the
    known quote currencies gets ['_'] inserted 4 bytes from its end when
    it is longer than 4 bytes, and is returned unchanged otherwise. *)
Theorem normalize_fallback (symbol : string) :
  Strings.Contains symbol "_" = false ->
  (forall suffix, In suffix suffixes -> Strings.HasSuffix symbol suffix = false) ->
  ((4 < Strings.len symbol)%nat ->
     normalizeSymbolForGateIO symbol =
       Strings.take (Strings.len symbol - 4) symbol
       ++ "_" ++ Strings.drop (Strings.len symbol - 4) symbol
     /\ insertedFourFromEnd symbol (normalizeSymbolForGateIO symbol))
  /\ ((Strings.len symbol <= 4)%nat -> normalizeSymbolForGateIO symbol = symbol).
Proof.
  intros clean none. unfold normalizeSymbolForGateIO at 1 3.
  rewrite clean, (splitAtSuffix_none symbol suffixes none). split; intros Hlen.
  - assert (E : (4 <? Strings.len symbol)%nat = true) by now apply Nat.ltb_lt.
    rewrite E. split; [reflexivity|].
    unfold normalizeSymbolForGateIO.
    rewrite clean, (splitAtSuffix_none symbol suffixes none), E.
    eexists _, _. split; [symmetry; apply take_drop|]. split; [|reflexivity].
    rewrite len_drop. lia.
  - assert (E : (4 <? Strings.len symbol)%nat = false) by now apply Nat.ltb_ge.
    now rewrite E.
Qed.

Lemma normalize_fallback_witness :
  normalizeSymbolForGateIO "BTCEUR" = "BT_CEUR"
  /\ insertedFourFromEnd "BTCEUR" (normalizeSymbolForGateIO "BTCEUR").
Proof.
  assert (none : forall suffix, In suffix suffixes ->
                                Strings.HasSuffix "BTCEUR" suffix = false).
  { intros suffix H. simpl in H.
    repeat (destruct H as [<-|H]; [reflexivity|]). contradiction. }
  destruct (normalize_fallback "BTCEUR" eq_refl none) as [long _].
  apply long. unfold Strings.len. simpl. lia.
Defined.

(** ** The balance cache *)

Section BalanceCache.

Context {World : Type}.
Variable upstream : forall R : Type, Call R -> World -> R * World.

Lemma GetBalance_keeps_duration (t : GateIOFuturesTrader) (w : World) :
  cacheDuration (trader (GetBalance upstream t w)) = cacheDuration t.
Proof.
  unfold GetBalance. unfold_go.
  destruct (cachedBalance t) as [cached|].
  - destruct (upstream Z Now w) as [now w1]. simpl_out.
    destruct (now - balanceCacheTime t <? cacheDuration t); [reflexivity|].
    destruct (upstream _ (ListFuturesAccounts "usdt") w1) as [[account|e] w2];
      simpl_out; [destruct (upstream Z Now w2) as [now2 w3]; simpl_out|];
      reflexivity.
  - simpl_out.
    destruct (upstream _ (ListFuturesAccounts "usdt") w) as [[account|e] w2];
      simpl_out; [destruct (upstream Z Now w2) as [now2 w3]; simpl_out|];
      reflexivity.
Qed.

(** C8.  With the 15 second lifetime that [NewGateIOFuturesTrader] sets
    and [GetBalance] keeps: a cached balance younger than that is
    returned without any account query and without touching the trader;
    when there is no cached balance, or it is at least that old, the
    account is queried exactly once, and the answer (when the query
    succeeds) is stored in the cache together with a new reading of the
    clock and returned. *)
Theorem GetBalance_cache (t : GateIOFuturesTrader) (w : World) :
  cacheDuration t = 15 * Second ->
  let out := GetBalance upstream t w in
  (forall apiKey secretKey,
      cacheDuration (NewGateIOFuturesTrader apiKey secretKey) = 15 * Second)
  /\ cacheDuration (trader out) = 15 * Second
  /\ (forall balance,
      cachedBalance t = Some balance -> balanceAge upstream t w < 15 * Second ->
      returned out = Ok balance /\ trader out = t
      /\ accountFetches (sent out) = 0%nat)
  /\ (cachedBalance t = None \/ 15 * Second <= balanceAge upstream t w ->
      accountFetches (sent out) = 1%nat
      /\ match upstream _ (ListFuturesAccounts "usdt") (beforeFetch upstream t w) with
         | (inl account, w') =>
             returned out = Ok (balanceRecord account)
             /\ cachedBalance (trader out) = Some (balanceRecord account)
             /\ balanceCacheTime (trader out) = fst (upstream Z Now w')
         | (inr e, _) =>
             returned out = Err (AccountUnavailable (UpstreamError e))
             /\ trader out = t
         end).
Proof.
  intros ttl out. subst out. split; [reflexivity|].
  split; [now rewrite GetBalance_keeps_duration|].
  unfold GetBalance, balanceAge, beforeFetch. unfold_go. rewrite ttl.
  destruct (cachedBalance t) as [cached|] eqn:Ecache.
  - destruct (upstream Z Now w) as [now w1] eqn:Enow. simpl_out.
    destruct (now - balanceCacheTime t <? 15 * Second) eqn:Eage.
    + split.
      * intros balance [= <-] _. repeat split; reflexivity.
      * intros [H|H]; [discriminate|]. apply Z.ltb_lt in Eage. lia.
    + split.
      * intros balance _ H. apply Z.ltb_ge in Eage. lia.
      * intros _.
        destruct (upstream _ (ListFuturesAccounts "usdt") w1) as [[account|e] w2];
          simpl_out; [destruct (upstream Z Now w2) as [now2 w3]; simpl_out|];
          repeat split; reflexivity.
  - split; [discriminate|]. intros _. simpl_out.
    destruct (upstream _ (ListFuturesAccounts "usdt") w) as [[account|e] w2];
      simpl_out; [destruct (upstream Z Now w2) as [now2 w3]; simpl_out|];
      repeat split; reflexivity.
Qed.

End BalanceCache.

Lemma GetBalance_cache_witness :
  let x := exchange (inl []) "100" [] [] in
  let t1 := trader (GetBalance answer fresh x) in
  accountFetches (sent (GetBalance answer t1 (atTime (1015 * Second - 1) x))) = 0%nat
  /\ accountFetches (sent (GetBalance answer t1 (atTime (1015 * Second) x))) = 1%nat.
Proof.
  intros x t1.
  assert (ttl : cacheDuration t1 = 15 * Second) by reflexivity.
  split.
  - pose proof (GetBalance_cache answer t1 (atTime (1015 * Second - 1) x) ttl)
      as (_ & _ & cached & _).
    assert (held : cachedBalance t1
                   = Some (balanceRecord {| FuturesAccount.Total := "1000.5";
                                            FuturesAccount.Available := "900";
                                            FuturesAccount.UnrealisedPnl := "-1.25" |}))
      by reflexivity.
    assert (young : balanceAge answer t1 (atTime (1015 * Second - 1) x) < 15 * Second)
      by reflexivity.
    pose proof (cached _ held young) as (_ & _ & quietly).
    exact quietly.
  - pose proof (GetBalance_cache answer t1 (atTime (1015 * Second) x) ttl)
      as (_ & _ & _ & stale).
    assert (old : 15 * Second <= balanceAge answer t1 (atTime (1015 * Second) x))
      by (intros H; discriminate H).
    pose proof (stale (or_intror old)) as [once _].
    exact once.
Defined.

(** ** Requests that place no order *)

Lemma only_app allowed (a b : list Event) :
  only allowed a -> only allowed b -> only allowed (a ++ b)%list.
Proof. unfold only. rewrite forallb_app. now intros -> ->. Qed.

Lemma only_weaken (p q : Event -> bool) (evs : list Event) :
  (forall ev, p ev = true -> q ev = true) -> only p evs -> only q evs.
Proof.
  unfold only. intros Hpq. induction evs as [|ev evs IH]; [reflexivity|].
  cbn [forallb]. intros [H1 H2]%andb_true_iff. now rewrite (Hpq _ H1), IH.
Qed.

Lemma readOnly_quiet (evs : list Event) : readOnly evs -> quiet evs.
Proof. apply only_weaken. intros [R c]. now destruct c. Qed.

Lemma quiet_submitted (evs : list Event) :
  quiet evs -> submittedOrders evs = [] /\ submittedTriggerOrders evs = [].
Proof.
  unfold quiet, only, submittedOrders, submittedTriggerOrders.
  induction evs as [|[R c] evs IH]; [now split|].
  cbn [forallb flat_map]. intros [Hc Hrest]%andb_true_iff.
  destruct (IH Hrest) as [-> ->]. destruct c; try discriminate; now split.
Qed.

Lemma readOnly_cancelled (evs : list Event) :
  readOnly evs -> cancelledTriggerOrders evs = [].
Proof.
  unfold readOnly, only, cancelledTriggerOrders.
  induction evs as [|[R c] evs IH]; [reflexivity|].
  cbn [forallb flat_map]. intros [Hc Hrest]%andb_true_iff.
  rewrite (IH Hrest). now destruct c.
Qed.

Lemma submittedOrders_app (a b : list Event) :
  submittedOrders (a ++ b) = (submittedOrders a ++ submittedOrders b)%list.
Proof. apply flat_map_app. Qed.

Lemma submittedTriggerOrders_app (a b : list Event) :
  submittedTriggerOrders (a ++ b)
  = (submittedTriggerOrders a ++ submittedTriggerOrders b)%list.
Proof. apply flat_map_app. Qed.

Lemma cancelledTriggerOrders_app (a b : list Event) :
  cancelledTriggerOrders (a ++ b)
  = (cancelledTriggerOrders a ++ cancelledTriggerOrders b)%list.
Proof. apply flat_map_app. Qed.

Section Only.

Context {World : Type}.
Variable upstream : forall R : Type, Call R -> World -> R * World.
Variable allowed : Event -> bool.

Lemma only_ret {A} (a : A) t (w : World) : only allowed (sent (ret a t w)).
Proof. reflexivity. Qed.

Lemma only_get t (w : World) : only allowed (sent (get t w)).
Proof. reflexivity. Qed.

Lemma only_modify f t (w : World) : only allowed (sent (modify f t w)).
Proof. reflexivity. Qed.

Lemma only_call {R} (c : Call R) t (w : World) :
  allowed (Sent c) = true -> only allowed (sent (call upstream c t w)).
Proof.
  intros H. unfold call. destruct (upstream R c w). unfold only.
  cbn [sent forallb]. now rewrite H.
Qed.

Lemma only_bind {A B} (c : M World A) (k : A -> M World B) t w :
  only allowed (sent (c t w)) ->
  (forall a t' w', only allowed (sent (k a t' w'))) ->
  only allowed (sent (bind c k t w)).
Proof. intros Hc Hk. unfold bind. simpl_out. apply only_app; [exact Hc | apply Hk]. Qed.

Lemma only_forEach {A} (l : list A) (body : A -> M World unit) t w :
  (forall x t' w', only allowed (sent (body x t' w'))) ->
  only allowed (sent (forEach l body t w)).
Proof.
  intros Hbody. revert t w. induction l as [|x l IH]; intros t w.
  - reflexivity.
  - cbn [forEach]. apply only_bind; [apply Hbody | intros; apply IH].
Qed.

End Only.

Create HintDb traffic.

(** Walks through a method: binds, loops, branches and requests. *)
Ltac traffic_step :=
  first
    [ apply only_ret | apply only_get | apply only_modify
    | apply only_call; reflexivity
    | solve [fold readOnly; fold quiet; auto with traffic]
    | apply only_bind; [| intros ? ? ?; cbv beta]
    | apply only_forEach; intros ? ? ?; cbv beta
    | match goal with
      | |- only _ (sent (match ?x with _ => _ end _ _)) => destruct x
      | |- only _ (sent ((if ?b then _ else _) _ _)) => destruct b
      | |- only _ (sent ((let (_, _) := ?x in _) _ _)) => destruct x
      end ].
Ltac traffic := repeat (unfold quiet, readOnly; traffic_step).

Section Traffic.

Context {World : Type}.
Variable upstream : forall R : Type, Call R -> World -> R * World.

Lemma getSymbolInfo_reads symbol t w :
  readOnly (sent (getSymbolInfo upstream symbol t w)).
Proof. unfold getSymbolInfo. traffic. Qed.
Hint Resolve getSymbolInfo_reads : traffic.

Lemma GetMarketPrice_reads symbol t w :
  readOnly (sent (GetMarketPrice upstream symbol t w)).
Proof. unfold GetMarketPrice. traffic. Qed.
Hint Resolve GetMarketPrice_reads : traffic.

Lemma convert_reads symbol q t w :
  readOnly (sent (convertCoinQuantityToContractSize upstream symbol q t w)).
Proof. unfold convertCoinQuantityToContractSize. traffic. Qed.
Hint Resolve convert_reads : traffic.

Lemma FormatQuantity_reads symbol q t w :
  readOnly (sent (FormatQuantity upstream symbol q t w)).
Proof. unfold FormatQuantity. traffic. Qed.

Lemma CheckMinNotional_reads symbol q t w :
  readOnly (sent (CheckMinNotional upstream symbol q t w)).
Proof. unfold CheckMinNotional. traffic. Qed.

Lemma collectPositions_reads positions t w :
  readOnly (sent (collectPositions upstream positions t w)).
Proof.
  revert t w. induction positions as [|pos rest IH]; intros t w.
  - reflexivity.
  - cbn [collectPositions]. unfold positionMap. traffic; apply IH.
Qed.
Hint Resolve collectPositions_reads : traffic.

Lemma GetPositions_reads t w : readOnly (sent (GetPositions upstream t w)).
Proof. unfold GetPositions. traffic. Qed.
Hint Resolve GetPositions_reads : traffic.

Lemma resolveQuantity_reads symbol side q t w :
  readOnly (sent (resolveQuantity upstream symbol side q t w)).
Proof. unfold resolveQuantity. traffic. Qed.

Lemma FormatQuantity_quiet symbol q t w :
  quiet (sent (FormatQuantity upstream symbol q t w)).
Proof. apply readOnly_quiet, FormatQuantity_reads. Qed.

Lemma CheckMinNotional_quiet symbol q t w :
  quiet (sent (CheckMinNotional upstream symbol q t w)).
Proof. apply readOnly_quiet, CheckMinNotional_reads. Qed.

Lemma resolveQuantity_quiet symbol side q t w :
  quiet (sent (resolveQuantity upstream symbol side q t w)).
Proof. apply readOnly_quiet, resolveQuantity_reads. Qed.

Lemma SetLeverage_quiet symbol leverage t w :
  quiet (sent (SetLeverage upstream symbol leverage t w)).
Proof. unfold SetLeverage. traffic. Qed.

Lemma CancelAllOrders_quiet symbol t w :
  quiet (sent (CancelAllOrders upstream symbol t w)).
Proof. unfold CancelAllOrders. traffic. Qed.

End Traffic.

(** ** Formatting a quantity *)

Section DigitFacts.

Import Strings Strconv.

Lemma allDigits_app (a b : string) :
  allDigits (a ++ b) = allDigits a && allDigits b.
Proof.
  induction a as [|c a IH]; [reflexivity|].
  rewrite app_cons. cbn [allDigits]. now rewrite IH, andb_assoc.
Qed.

Lemma allDigits_drop (n : nat) (s : string) :
  allDigits s = true -> allDigits (drop n s) = true.
Proof.
  revert s; induction n as [|n IH]; intros [|c r]; cbn [drop allDigits]; auto.
  intros [_ H]%andb_true_iff. now apply IH.
Qed.

Lemma allDigits_zeros (n : nat) : allDigits (zeros n) = true.
Proof. induction n as [|n IH]; [reflexivity|]. cbn [zeros allDigits]. now rewrite IH. Qed.

Lemma len_zeros (n : nat) : len (zeros n) = n.
Proof. induction n as [|n IH]; [reflexivity|]. unfold len in *. cbn. now rewrite IH. Qed.

Lemma allDigits_uint (d : Decimal.uint) :
  allDigits (NilEmpty.string_of_uint d) = true.
Proof. induction d; cbn [NilEmpty.string_of_uint allDigits]; auto. Qed.

Lemma allDigits_utoa (n : Z) : allDigits (utoa n) = true.
Proof.
  unfold utoa, NilZero.string_of_uint.
  destruct (N.to_uint (Z.to_N n)) eqn:E; try reflexivity;
    rewrite <- E; apply allDigits_uint.
Qed.

(** With at least one decimal asked for, the digits are cut by a point
    that many places before the end. *)
Lemma unsignedFixed_decimals (digits : nat) (n : Z) :
  (0 < digits)%nat ->
  exists whole fraction,
    unsignedFixed digits n = whole ++ "." ++ fraction
    /\ len fraction = digits /\ allDigits fraction = true.
Proof.
  intros positive. unfold unsignedFixed.
  set (ds := zeros (S digits - len (utoa n)) ++ utoa n).
  assert (long : (digits < len ds)%nat).
  { subst ds. rewrite len_app, len_zeros. lia. }
  destruct digits as [|k]; [lia|].
  eexists _, _. split; [reflexivity|]. split.
  - rewrite len_drop. lia.
  - apply allDigits_drop. subst ds.
    now rewrite allDigits_app, allDigits_zeros, allDigits_utoa.
Qed.

Lemma FormatFixed_decimals (digits : nat) (x : float64) :
  (0 < digits)%nat -> Float64.is_finite x = true ->
  hasDecimals digits (FormatFixed digits x).
Proof.
  intros positive finite. unfold hasDecimals.
  destruct x as [s|s| |s m e]; try discriminate; cbn [FormatFixed].
  - destruct (unsignedFixed_decimals digits 0 positive) as (whole & fraction & -> & H).
    exists ((if s then "-" else "") ++ whole), fraction.
    split; [|exact H]. now destruct s.
  - destruct (unsignedFixed_decimals digits (Float64.scaled digits m e) positive)
      as (whole & fraction & -> & H).
    exists ((if s then "-" else "") ++ whole), fraction.
    split; [|exact H]. now destruct s.
Qed.

End DigitFacts.

Section FormatQuantityFacts.

Context {World : Type}.
Variable upstream : forall R : Type, Call R -> World -> R * World.

(** Without contract information the method ends where the lookup
    ends. *)
Lemma FormatQuantity_unresolved symbol quantity t w e :
  returned (getSymbolInfo upstream symbol t w) = Err e ->
  FormatQuantity upstream symbol quantity t w
  = let o := getSymbolInfo upstream symbol t w in
    mkOut (Ok (Strconv.FormatFixed 3 quantity)) (trader o) (world o) (sent o).
Proof.
  intros H. unfold FormatQuantity. unfold bind at 1. simpl_out. rewrite H.
  unfold ret. simpl_out. now rewrite app_nil_r.
Qed.

(** With contract information and a converted contract size, what the
    method returns is decided by the two gates in turn. *)
Lemma FormatQuantity_resolved symbol quantity t w info contractSize :
  let o1 := getSymbolInfo upstream symbol t w in
  returned o1 = Ok info ->
  returned (convertCoinQuantityToContractSize upstream symbol quantity
              (trader o1) (world o1)) = Ok contractSize ->
  let minContractSize := Float64.of_int (Contract.OrderSizeMin info) in
  let formatted := Strconv.FormatFixed (precisionOf info) contractSize in
  returned (FormatQuantity upstream symbol quantity t w)
  = if (0 <? Contract.OrderSizeMin info) && Float64.ltb contractSize minContractSize
    then Err (BelowMinimumSize quantity contractSize minContractSize)
    else if failed (snd (Strconv.ParseFloat formatted))
            || Float64.leb (fst (Strconv.ParseFloat formatted)) Float64.zero
    then Err (ZeroAfterRounding quantity contractSize (precisionOf info))
    else Ok formatted.
Proof.
  intros o1 H1 H2 minContractSize formatted. subst o1.
  unfold FormatQuantity. unfold bind at 1. simpl_out. rewrite H1.
  unfold bind at 1. simpl_out. rewrite H2.
  fold minContractSize. fold formatted.
  destruct ((0 <? Contract.OrderSizeMin info)
            && Float64.ltb contractSize minContractSize).
  - reflexivity.
  - destruct (Strconv.ParseFloat formatted) as [formattedFloat parseErr].
    cbn [fst snd].
    destruct (failed parseErr || Float64.leb formattedFloat Float64.zero);
      reflexivity.
Qed.

End FormatQuantityFacts.

Section PrecisionFacts.

Import Strings.

Lemma Contains_cons (b c : ascii) (r : string) :
  Contains (String c r) (String b "") = Ascii.eqb b c || Contains r (String b "").
Proof.
  change (Contains (String c r) (String b ""))
    with (Ascii.eqb b c && HasPrefix r "" || Contains r (String b "")).
  replace (HasPrefix r "") with true by (destruct r; reflexivity).
  now rewrite andb_true_r.
Qed.

Lemma Contains_app_sep (b : ascii) (a r : string) :
  Contains (a ++ String b r) (String b "") = true.
Proof.
  induction a as [|c a IH].
  - change ("" ++ String b r) with (String b r).
    now rewrite Contains_cons, Ascii.eqb_refl.
  - rewrite app_cons, Contains_cons, IH. apply orb_true_r.
Qed.

Lemma splitByte_clean (sep : ascii) (s : string) :
  Contains s (String sep "") = false -> splitByte sep s = [s].
Proof.
  induction s as [|c r IH]; [reflexivity|].
  rewrite Contains_cons. intros [Hc Hr]%orb_false_elim.
  cbn [splitByte]. rewrite Ascii.eqb_sym, Hc, (IH Hr). reflexivity.
Qed.

Lemma splitByte_app (sep : ascii) (a b : string) :
  Contains a (String sep "") = false ->
  splitByte sep (a ++ String sep b) = a :: splitByte sep b.
Proof.
  induction a as [|c a IH].
  - intros _. change ("" ++ String sep b) with (String sep b).
    cbn [splitByte]. now rewrite Ascii.eqb_refl.
  - rewrite Contains_cons. intros [Hc Ha]%orb_false_elim.
    rewrite app_cons. cbn [splitByte]. rewrite Ascii.eqb_sym, Hc, (IH Ha).
    reflexivity.
Qed.

(** The precision is the number of bytes after the only point of the
    rounding increment. *)
Lemma precisionOf_fraction info whole fraction :
  Contract.OrderPriceRound info = whole ++ "." ++ fraction ->
  Contains whole "." = false -> Contains fraction "." = false ->
  precisionOf info = len fraction.
Proof.
  intros E Hw Hf. unfold precisionOf. rewrite E.
  change (whole ++ "." ++ fraction) with (whole ++ String "." fraction).
  rewrite Contains_app_sep, (splitByte_app "." whole fraction Hw),
    (splitByte_clean "." fraction Hf).
  replace (String.eqb (whole ++ String "." fraction) "") with false
    by (destruct whole; reflexivity).
  reflexivity.
Qed.

(** Without a point the precision is 3. *)
Lemma precisionOf_default info :
  Contains (Contract.OrderPriceRound info) "." = false -> precisionOf info = 3%nat.
Proof. intros H. unfold precisionOf. rewrite H. now rewrite andb_false_r. Qed.

End PrecisionFacts.

Section FormatQuantityClaims.

Context {World : Type}.
Variable upstream : forall R : Type, Call R -> World -> R * World.

(** C9.  When the contract information of the symbol cannot be had,
    [FormatQuantity] succeeds with the coin quantity itself printed
    with 3 decimals: it ends in the state in which the lookup ended and
    sends nothing after it, so the quantity is not converted and no
    gate is applied to it (a failing gate would ask for the price).
    The printed quantity has exactly 3 decimals when it is finite. *)
Theorem FormatQuantity_without_spec symbol quantity t w e :
  let o := getSymbolInfo upstream symbol t w in
  returned o = Err e ->
  let out := FormatQuantity upstream symbol quantity t w in
  returned out = Ok (Strconv.FormatFixed 3 quantity)
  /\ trader out = trader o /\ world out = world o /\ sent out = sent o
  /\ (Float64.is_finite quantity = true ->
      hasDecimals 3 (Strconv.FormatFixed 3 quantity)).
Proof.
  intros o H out. subst out.
  rewrite (FormatQuantity_unresolved upstream symbol quantity t w e H).
  repeat split. apply FormatFixed_decimals. lia.
Qed.

(** What the conversion returns is the quotient by a multiplier. *)
Lemma convert_divides symbol quantity t w contractSize :
  returned (convertCoinQuantityToContractSize upstream symbol quantity t w)
  = Ok contractSize ->
  exists info,
    returned (getSymbolInfo upstream symbol t w) = Ok info
    /\ contractSize = Float64.div quantity (quantoMultiplier info).
Proof.
  unfold convertCoinQuantityToContractSize, bind. simpl_out.
  destruct (returned (getSymbolInfo upstream symbol t w)) as [info|e];
    [|discriminate].
  unfold ret. simpl_out. intros [= <-]. now exists info.
Qed.

Lemma FormatQuantity_unconverted symbol quantity t w info e :
  let o1 := getSymbolInfo upstream symbol t w in
  returned o1 = Ok info ->
  returned (convertCoinQuantityToContractSize upstream symbol quantity
              (trader o1) (world o1)) = Err e ->
  returned (FormatQuantity upstream symbol quantity t w)
  = Err (QuantityConversionFailed e).
Proof.
  intros o1 H1 H2. subst o1.
  unfold FormatQuantity. unfold bind at 1. simpl_out. rewrite H1.
  unfold bind at 1. simpl_out. now rewrite H2.
Qed.

(** C4.  For a symbol whose contract information is found and has a
    positive minimum order size, [FormatQuantity] fails with
    [BelowMinimumSize] exactly when the converted contract size, the
    quotient of the quantity by the multiplier, is below that minimum
    as a [float64].  (When the conversion itself fails, for want of the
    contract information at its own lookup, that failure is returned.) *)
Theorem FormatQuantity_minimum_size symbol quantity t w info :
  let o1 := getSymbolInfo upstream symbol t w in
  returned o1 = Ok info ->
  0 < Contract.OrderSizeMin info ->
  let o2 := convertCoinQuantityToContractSize upstream symbol quantity
              (trader o1) (world o1) in
  let minContractSize := Float64.of_int (Contract.OrderSizeMin info) in
  let out := FormatQuantity upstream symbol quantity t w in
  match returned o2 with
  | Ok contractSize =>
      (exists info', contractSize = Float64.div quantity (quantoMultiplier info'))
      /\ isBelowMinimumSize (returned out) = Float64.ltb contractSize minContractSize
      /\ (Float64.ltb contractSize minContractSize = true ->
          returned out = Err (BelowMinimumSize quantity contractSize minContractSize))
  | Err e =>
      returned out = Err (QuantityConversionFailed e)
      /\ isBelowMinimumSize (returned out) = false
  end.
Proof.
  intros o1 H1 positive o2 minContractSize out. subst out.
  destruct (returned o2) as [contractSize|e] eqn:H2.
  - split.
    { destruct (convert_divides _ _ _ _ _ H2) as (info' & _ & E). now exists info'. }
    rewrite (FormatQuantity_resolved upstream symbol quantity t w info contractSize H1 H2).
    apply Z.ltb_lt in positive. rewrite positive. cbn [andb].
    fold minContractSize.
    destruct (Float64.ltb contractSize minContractSize).
    + split; [reflexivity | intros _; reflexivity].
    + split; [|discriminate].
      destruct (failed _ || Float64.leb _ _); reflexivity.
  - rewrite (FormatQuantity_unconverted symbol quantity t w info e H1 H2).
    split; reflexivity.
Qed.

(** C5.  Once the contract information is found and the minimum-size
    gate has let the converted contract size through, [FormatQuantity]
    prints the contract size rounded to as many decimals as the
    rounding increment has after its point (3 when it has no point),
    and fails with [ZeroAfterRounding] whenever the rounded value read
    back is not above 0 (or cannot be read back); otherwise it returns
    what was printed. *)
Theorem FormatQuantity_rounding symbol quantity t w info contractSize :
  let o1 := getSymbolInfo upstream symbol t w in
  returned o1 = Ok info ->
  returned (convertCoinQuantityToContractSize upstream symbol quantity
              (trader o1) (world o1)) = Ok contractSize ->
  (0 <? Contract.OrderSizeMin info)
  && Float64.ltb contractSize (Float64.of_int (Contract.OrderSizeMin info)) = false ->
  let formatted := Strconv.FormatFixed (precisionOf info) contractSize in
  let rounded := Strconv.ParseFloat formatted in
  let out := FormatQuantity upstream symbol quantity t w in
  (forall whole fraction,
      Contract.OrderPriceRound info = whole ++ "." ++ fraction ->
      Strings.Contains whole "." = false -> Strings.Contains fraction "." = false ->
      precisionOf info = Strings.len fraction)
  /\ (Strings.Contains (Contract.OrderPriceRound info) "." = false ->
      precisionOf info = 3%nat)
  /\ isZeroAfterRounding (returned out)
     = failed (snd rounded) || Float64.leb (fst rounded) Float64.zero
  /\ (failed (snd rounded) || Float64.leb (fst rounded) Float64.zero = true ->
      returned out = Err (ZeroAfterRounding quantity contractSize (precisionOf info)))
  /\ (failed (snd rounded) || Float64.leb (fst rounded) Float64.zero = false ->
      returned out = Ok formatted).
Proof.
  intros o1 H1 H2 passed formatted rounded out. subst out.
  rewrite (FormatQuantity_resolved upstream symbol quantity t w info contractSize H1 H2).
  rewrite passed. fold formatted. fold rounded.
  split; [apply precisionOf_fraction|]. split; [apply precisionOf_default|].
  split; [now destruct (failed (snd rounded) || Float64.leb (fst rounded) Float64.zero)|].
  split; intros ->; reflexivity.
Qed.

End FormatQuantityClaims.

Lemma FormatQuantity_without_spec_witness :
  let x := exchange (inr refused) "100" [] [] in
  returned (FormatQuantity answer "BTCUSDT" (num "0.5") fresh x) = Ok "0.500"
  /\ returned (FormatQuantity answer "BTCUSDT" Float64.zero fresh x) = Ok "0.000"
  /\ hasDecimals 3 "0.500".
Proof.
  intros x.
  assert (lost : returned (getSymbolInfo answer "BTCUSDT" fresh x)
                 = Err (ContractsUnavailable (UpstreamError refused)))
    by (vm_compute; reflexivity).
  pose proof (FormatQuantity_without_spec answer "BTCUSDT" (num "0.5") fresh x _ lost)
    as (half & _ & _ & _ & decimals).
  pose proof (FormatQuantity_without_spec answer "BTCUSDT" Float64.zero fresh x _ lost)
    as (nothing & _).
  split; [exact half|]. split; [exact nothing|].
  apply decimals. vm_compute. reflexivity.
Defined.

Lemma FormatQuantity_minimum_size_witness :
  let x := exchange (inl [contract "0.0001" "0.1" 1]) "100000" [] [] in
  returned (FormatQuantity answer "BTCUSDT" (num "0.00005") fresh x)
  = Err (BelowMinimumSize (num "0.00005") (num "0.5") (num "1"))
  /\ isBelowMinimumSize (returned (FormatQuantity answer "BTCUSDT" (num "0.0001") fresh x))
     = false
  /\ returned (FormatQuantity answer "BTCUSDT" (num "0.0001") fresh x) = Ok "1.0".
Proof.
  intros x.
  assert (found : returned (getSymbolInfo answer "BTCUSDT" fresh x)
                  = Ok (contract "0.0001" "0.1" 1))
    by (vm_compute; reflexivity).
  assert (positive : 0 < Contract.OrderSizeMin (contract "0.0001" "0.1" 1))
    by reflexivity.
  assert (half : returned (convertCoinQuantityToContractSize answer "BTCUSDT" (num "0.00005")
                   (trader (getSymbolInfo answer "BTCUSDT" fresh x))
                   (world (getSymbolInfo answer "BTCUSDT" fresh x))) = Ok (num "0.5"))
    by (vm_compute; reflexivity).
  assert (one : returned (convertCoinQuantityToContractSize answer "BTCUSDT" (num "0.0001")
                   (trader (getSymbolInfo answer "BTCUSDT" fresh x))
                   (world (getSymbolInfo answer "BTCUSDT" fresh x))) = Ok (num "1"))
    by (vm_compute; reflexivity).
  pose proof (FormatQuantity_minimum_size answer "BTCUSDT" (num "0.00005") fresh x
                _ found positive) as below.
  pose proof (FormatQuantity_minimum_size answer "BTCUSDT" (num "0.0001") fresh x
                _ found positive) as enough.
  cbv zeta in below, enough. rewrite half in below. rewrite one in enough.
  destruct below as (_ & _ & below). destruct enough as (_ & enough & _).
  split; [|split].
  - rewrite below; [vm_compute; reflexivity | vm_compute; reflexivity].
  - rewrite enough. vm_compute. reflexivity.
  - vm_compute. reflexivity.
Defined.

Lemma FormatQuantity_rounding_witness :
  let x := exchange (inl [contract "1" "0.01" 0]) "100" [] [] in
  precisionOf (contract "1" "0.01" 0) = 2%nat
  /\ returned (FormatQuantity answer "BTCUSDT" (num "0.004") fresh x)
     = Err (ZeroAfterRounding (num "0.004") (num "0.004") 2)
  /\ returned (FormatQuantity answer "BTCUSDT" (num "0.005") fresh x) = Ok "0.01".
Proof.
  intros x.
  assert (found : returned (getSymbolInfo answer "BTCUSDT" fresh x)
                  = Ok (contract "1" "0.01" 0))
    by (vm_compute; reflexivity).
  assert (small : returned (convertCoinQuantityToContractSize answer "BTCUSDT" (num "0.004")
                   (trader (getSymbolInfo answer "BTCUSDT" fresh x))
                   (world (getSymbolInfo answer "BTCUSDT" fresh x))) = Ok (num "0.004"))
    by (vm_compute; reflexivity).
  assert (more : returned (convertCoinQuantityToContractSize answer "BTCUSDT" (num "0.005")
                   (trader (getSymbolInfo answer "BTCUSDT" fresh x))
                   (world (getSymbolInfo answer "BTCUSDT" fresh x))) = Ok (num "0.005"))
    by (vm_compute; reflexivity).
  pose proof (FormatQuantity_rounding answer "BTCUSDT" (num "0.004") fresh x
                _ _ found small eq_refl) as (digits & _ & _ & vanishes & _).
  pose proof (FormatQuantity_rounding answer "BTCUSDT" (num "0.005") fresh x
                _ _ found more eq_refl) as (_ & _ & _ & _ & stays).
  split; [|split].
  - apply (digits "0" "01"); reflexivity.
  - rewrite vanishes; [vm_compute; reflexivity | vm_compute; reflexivity].
  - rewrite stays; [vm_compute; reflexivity | vm_compute; reflexivity].
Defined.

(** ** Orders placed by the trading operations *)

Section OrderFacts.

Context {World : Type}.
Variable upstream : forall R : Type, Call R -> World -> R * World.

Lemma sent_bind {A B} (c : M World A) (k : A -> M World B) t w :
  sent (bind c k t w)
  = (sent (c t w) ++ sent (k (returned (c t w)) (trader (c t w)) (world (c t w))))%list.
Proof. reflexivity. Qed.

Lemma no_orders {A} (o : Out World A) : quiet (sent o) -> submittedOrders (sent o) = [].
Proof. intros H. apply (quiet_submitted _ H). Qed.

Lemma no_trigger_orders {A} (o : Out World A) :
  quiet (sent o) -> submittedTriggerOrders (sent o) = [].
Proof. intros H. apply (quiet_submitted _ H). Qed.

(** The one request that places the order, and what may follow it. *)
Lemma submitted_after_create {A} settle order
      (k : reply FuturesOrder.t -> M World A) t w :
  (forall r t' w', quiet (sent (k r t' w'))) ->
  submittedOrders (sent (bind (call upstream (CreateFuturesOrder settle order)) k t w))
  = [order].
Proof.
  intros Hk. rewrite sent_bind, submittedOrders_app, (no_orders _ (Hk _ _ _)).
  unfold call. destruct (upstream _ (CreateFuturesOrder settle order) w). reflexivity.
Qed.

Lemma submitted_after_trigger {A} settle order
      (k : reply TriggerOrderResponse.t -> M World A) t w :
  (forall r t' w', quiet (sent (k r t' w'))) ->
  submittedTriggerOrders
    (sent (bind (call upstream (CreatePriceTriggeredOrder settle order)) k t w))
  = [order].
Proof.
  intros Hk.
  rewrite sent_bind, submittedTriggerOrders_app, (no_trigger_orders _ (Hk _ _ _)).
  unfold call. destruct (upstream _ (CreatePriceTriggeredOrder settle order) w).
  reflexivity.
Qed.

Lemma after_order_quiet symbol wrap (r : reply FuturesOrder.t) t w :
  quiet (sent (match r with
               | inr e => ret (Err (wrap (UpstreamError e)))
               | inl order =>
                   bind (CancelAllOrders upstream symbol)
                        (fun _ => ret (Ok (orderResult order)))
               end t w)).
Proof.
  destruct r; [|reflexivity].
  apply only_bind; [apply CancelAllOrders_quiet | reflexivity].
Qed.

Ltac skip_quiet lemma :=
  rewrite sent_bind, submittedOrders_app, (no_orders _ lemma); cbn [app].

Ltac found E quantityStr contractSizeFloat E3 :=
  right; exists quantityStr, contractSizeFloat;
  split; [split; [eexists _, _, _; exact E | exact E3]|].

(** Each operation places no order, or the one whose size is made of
    the integer part of the quantity string of [FormatQuantity]. *)
Lemma OpenLong_orders symbol quantity leverage t w :
  let out := OpenLong upstream symbol quantity leverage t w in
  submittedOrders (sent out) = []
  \/ exists quantityStr contractSizeFloat,
      formattedAs upstream symbol quantityStr contractSizeFloat
      /\ submittedOrders (sent out)
         = [marketOrder (normalizeSymbolForGateIO symbol)
                        (Float64.to_int64 contractSizeFloat) false "t-gateio-futures"].
Proof.
  intros out. subst out. unfold OpenLong.
  skip_quiet (CancelAllOrders_quiet upstream symbol t w).
  set (o0 := CancelAllOrders upstream symbol t w).
  skip_quiet (SetLeverage_quiet upstream symbol leverage (trader o0) (world o0)).
  set (o1 := SetLeverage upstream symbol leverage (trader o0) (world o0)).
  destruct (returned o1) as [[]|e1]; [|left; reflexivity].
  skip_quiet (FormatQuantity_quiet upstream symbol quantity (trader o1) (world o1)).
  set (o2 := FormatQuantity upstream symbol quantity (trader o1) (world o1)).
  destruct (returned o2) as [quantityStr|e2] eqn:E2; [|left; reflexivity].
  destruct (Strconv.ParseFloat quantityStr) as [contractSizeFloat [e3|]] eqn:E3;
    [left; reflexivity|].
  skip_quiet (CheckMinNotional_quiet upstream symbol quantity (trader o2) (world o2)).
  set (o3 := CheckMinNotional upstream symbol quantity (trader o2) (world o2)).
  destruct (returned o3) as [[]|e4]; [|left; reflexivity].
  found E2 quantityStr contractSizeFloat E3.
  apply submitted_after_create. intros [order|e] t' w'; reflexivity.
Qed.

Lemma OpenShort_orders symbol quantity leverage t w :
  let out := OpenShort upstream symbol quantity leverage t w in
  submittedOrders (sent out) = []
  \/ exists quantityStr contractSizeFloat,
      formattedAs upstream symbol quantityStr contractSizeFloat
      /\ submittedOrders (sent out)
         = [marketOrder (normalizeSymbolForGateIO symbol)
                        (Float64.to_int64 (Float64.neg contractSizeFloat))
                        false "t-gateio-futures"].
Proof.
  intros out. subst out. unfold OpenShort.
  skip_quiet (CancelAllOrders_quiet upstream symbol t w).
  set (o0 := CancelAllOrders upstream symbol t w).
  skip_quiet (SetLeverage_quiet upstream symbol leverage (trader o0) (world o0)).
  set (o1 := SetLeverage upstream symbol leverage (trader o0) (world o0)).
  destruct (returned o1) as [[]|e1]; [|left; reflexivity].
  skip_quiet (FormatQuantity_quiet upstream symbol quantity (trader o1) (world o1)).
  set (o2 := FormatQuantity upstream symbol quantity (trader o1) (world o1)).
  destruct (returned o2) as [quantityStr|e2] eqn:E2; [|left; reflexivity].
  destruct (Strconv.ParseFloat quantityStr) as [contractSizeFloat [e3|]] eqn:E3;
    [left; reflexivity|].
  skip_quiet (CheckMinNotional_quiet upstream symbol quantity (trader o2) (world o2)).
  set (o3 := CheckMinNotional upstream symbol quantity (trader o2) (world o2)).
  destruct (returned o3) as [[]|e4]; [|left; reflexivity].
  found E2 quantityStr contractSizeFloat E3.
  apply submitted_after_create. intros [order|e] t' w'; reflexivity.
Qed.

Lemma CloseLong_orders symbol quantity t w :
  let out := CloseLong upstream symbol quantity t w in
  submittedOrders (sent out) = []
  \/ exists quantityStr contractSizeFloat,
      formattedAs upstream symbol quantityStr contractSizeFloat
      /\ submittedOrders (sent out)
         = [marketOrder (normalizeSymbolForGateIO symbol)
                        (Int64.neg (absContracts contractSizeFloat))
                        true "t-gateio-futures-close"].
Proof.
  intros out. subst out. unfold CloseLong.
  skip_quiet (resolveQuantity_quiet upstream symbol "long" quantity t w).
  set (o0 := resolveQuantity upstream symbol "long" quantity t w).
  destruct (returned o0) as [amount|e0]; [|left; reflexivity].
  skip_quiet (FormatQuantity_quiet upstream symbol amount (trader o0) (world o0)).
  set (o1 := FormatQuantity upstream symbol amount (trader o0) (world o0)).
  destruct (returned o1) as [quantityStr|e1] eqn:E1; [|left; reflexivity].
  destruct (Strconv.ParseFloat quantityStr) as [contractSizeFloat [e3|]] eqn:E3;
    [left; reflexivity|].
  found E1 quantityStr contractSizeFloat E3.
  apply submitted_after_create. intros r t' w'.
  apply (after_order_quiet symbol CloseLongFailed).
Qed.

Lemma CloseShort_orders symbol quantity t w :
  let out := CloseShort upstream symbol quantity t w in
  submittedOrders (sent out) = []
  \/ exists quantityStr contractSizeFloat,
      formattedAs upstream symbol quantityStr contractSizeFloat
      /\ submittedOrders (sent out)
         = [marketOrder (normalizeSymbolForGateIO symbol)
                        (absContracts contractSizeFloat)
                        true "t-gateio-futures-close"].
Proof.
  intros out. subst out. unfold CloseShort.
  skip_quiet (resolveQuantity_quiet upstream symbol "short" quantity t w).
  set (o0 := resolveQuantity upstream symbol "short" quantity t w).
  destruct (returned o0) as [amount|e0]; [|left; reflexivity].
  skip_quiet (FormatQuantity_quiet upstream symbol amount (trader o0) (world o0)).
  set (o1 := FormatQuantity upstream symbol amount (trader o0) (world o0)).
  destruct (returned o1) as [quantityStr|e1] eqn:E1; [|left; reflexivity].
  destruct (Strconv.ParseFloat quantityStr) as [contractSizeFloat [e3|]] eqn:E3;
    [left; reflexivity|].
  found E1 quantityStr contractSizeFloat E3.
  apply submitted_after_create. intros r t' w'.
  apply (after_order_quiet symbol CloseShortFailed).
Qed.

(** The protective orders take the string without looking at the
    error of reading it back. *)
Lemma SetStopLoss_orders symbol positionSide quantity stopPrice t w :
  let out := SetStopLoss upstream symbol positionSide quantity stopPrice t w in
  submittedTriggerOrders (sent out) = []
  \/ exists quantityStr,
      (exists t' w',
          returned (FormatQuantity upstream symbol quantity t' w') = Ok quantityStr)
      /\ submittedTriggerOrders (sent out)
         = [triggerOrder (normalizeSymbolForGateIO symbol)
                         (protectiveSize positionSide quantityStr) stopPrice].
Proof.
  intros out. subst out. unfold SetStopLoss.
  rewrite sent_bind, submittedTriggerOrders_app,
    (no_trigger_orders _ (FormatQuantity_quiet upstream symbol quantity t w)).
  cbn [app].
  set (o1 := FormatQuantity upstream symbol quantity t w).
  destruct (returned o1) as [quantityStr|e1] eqn:E1; [|left; reflexivity].
  right. exists quantityStr. split; [eexists _, _; exact E1|].
  apply submitted_after_trigger. intros [r|e] t' w'; reflexivity.
Qed.

Lemma SetTakeProfit_orders symbol positionSide quantity takeProfitPrice t w :
  let out := SetTakeProfit upstream symbol positionSide quantity takeProfitPrice t w in
  submittedTriggerOrders (sent out) = []
  \/ exists quantityStr,
      (exists t' w',
          returned (FormatQuantity upstream symbol quantity t' w') = Ok quantityStr)
      /\ submittedTriggerOrders (sent out)
         = [triggerOrder (normalizeSymbolForGateIO symbol)
                         (protectiveSize positionSide quantityStr) takeProfitPrice].
Proof.
  intros out. subst out. unfold SetTakeProfit.
  rewrite sent_bind, submittedTriggerOrders_app,
    (no_trigger_orders _ (FormatQuantity_quiet upstream symbol quantity t w)).
  cbn [app].
  set (o1 := FormatQuantity upstream symbol quantity t w).
  destruct (returned o1) as [quantityStr|e1] eqn:E1; [|left; reflexivity].
  right. exists quantityStr. split; [eexists _, _; exact E1|].
  apply submitted_after_trigger. intros [r|e] t' w'; reflexivity.
Qed.

End OrderFacts.

(** ** Closing a whole position *)

(** Passes over a part of a method that places no order. *)
Ltac pass_quiet lemma :=
  rewrite sent_bind, submittedOrders_app, (no_orders _ lemma); cbn [app].

Section CloseAll.

Context {World : Type}.
Variable upstream : forall R : Type, Call R -> World -> R * World.

(** For the quantity 0 the quantity to close is looked up in the
    positions, and nothing else is done for it. *)
Lemma resolveQuantity_zero symbol side quantity t w positions :
  Float64.eqb quantity Float64.zero = true ->
  let o1 := GetPositions upstream t w in
  returned o1 = Ok positions ->
  let o := resolveQuantity upstream symbol side quantity t w in
  trader o = trader o1 /\ world o = world o1 /\ sent o = sent o1
  /\ returned o = match findPositionAmt positions symbol side with
                  | Some (Err e) => Err e
                  | Some (Ok amt) =>
                      if Float64.eqb amt Float64.zero
                      then Err (NoOpenPosition symbol side) else Ok amt
                  | None => Err (NoOpenPosition symbol side)
                  end.
Proof.
  intros Hq o1 H o. subst o o1. unfold resolveQuantity. rewrite Hq.
  unfold bind. simpl_out. rewrite H.
  destruct (findPositionAmt positions symbol side) as [[amt|e]|];
    [destruct (Float64.eqb amt Float64.zero)|..];
    unfold ret; simpl_out; rewrite app_nil_r; repeat split.
Qed.



End CloseAll.


(** ** Sizes of the orders *)

Section Truncation.

Import Float64.

Lemma truncate_nonneg (m : positive) (e : Z) : 0 <= truncate m e.
Proof.
  unfold truncate. destruct (0 <=? e) eqn:E.
  - apply Z.leb_le in E. apply Z.mul_nonneg_nonneg; [lia|]. now apply Z.pow_nonneg.
  - apply Z.div_pos; [lia|]. apply Z.pow_pos_nonneg; lia.
Qed.

(** [int64(x)] of a finite [x] of magnitude below [2^63] is the whole
    part of [x] with the sign of [x]: what follows the point is
    dropped. *)
Lemma to_int64_whole_part (s : bool) (m : positive) (e : Z) :
  truncate m e <= Int64.max_int ->
  to_int64 (S754_finite s m e) = (if s then - truncate m e else truncate m e)
  /\ (e < 0 ->
      truncate m e * 2 ^ (- e) <= Z.pos m < (truncate m e + 1) * 2 ^ (- e)).
Proof.
  intros fits. pose proof (truncate_nonneg m e) as nonneg. split.
  - unfold to_int64.
    assert (inside : forall v, - Int64.max_int <= v <= Int64.max_int ->
              (Int64.min_int <=? v) && (v <=? Int64.max_int) = true).
    { intros v Hv. apply andb_true_iff. split; apply Z.leb_le;
        unfold Int64.min_int, Int64.max_int in *; lia. }
    destruct s; rewrite inside; try reflexivity; lia.
  - intros negative. unfold truncate.
    replace (0 <=? e) with false by (symmetry; apply Z.leb_gt; lia).
    assert (0 < 2 ^ (- e)) by (apply Z.pow_pos_nonneg; lia).
    split.
    + rewrite Z.mul_comm. apply Z.mul_div_le. lia.
    + rewrite Z.mul_comm. apply Z.mul_succ_div_gt. lia.
Qed.

Lemma pos_below_digits (m : positive) : Z.pos m < 2 ^ Z.pos (digits2_pos m).
Proof.
  induction m as [m IH|m IH|]; cbn [digits2_pos]; rewrite ?Pos2Z.inj_succ, ?Z.pow_succ_r;
    try lia; reflexivity.
Qed.

(** A number of the format strictly between 0 and 1 becomes 0. *)
Lemma to_int64_fraction (x : float64) :
  valid_binary prec emax x = true ->
  ltb zero x = true -> ltb x (of_int 1) = true -> to_int64 x = 0.
Proof.
  intros valid positive below.
  destruct x as [s|s| |s m e]; [reflexivity | destruct s; discriminate | discriminate |].
  destruct s; [discriminate|].
  assert (small : Z.pos m < 2 ^ (- e) /\ e < 0).
  { change (of_int 1) with (S754_finite false 4503599627370496 (-52)) in below.
    unfold ltb, SFltb, SFcompare in below.
    cbn in valid. apply andb_true_iff in valid as [canonical _].
    unfold canonical_mantissa, fexp, emin, prec, emax in canonical.
    apply Z.eqb_eq in canonical.
    pose proof (pos_below_digits m) as digits.
    destruct (e ?= -52) eqn:C.
    - apply Z.compare_eq in C. subst e. split; [|reflexivity].
      destruct (PosDef.Pos.compare_cont Eq m 4503599627370496) eqn:D;
        try discriminate.
      exact D.
    - change (e < -52) in C. split; [|clear - C; lia].
      assert (few : Z.pos (digits2_pos m) <= - e) by (clear - canonical C; lia).
      assert (2 ^ Z.pos (digits2_pos m) <= 2 ^ (- e))
        by (apply Z.pow_le_mono_r; [lia | exact few]).
      clear - digits H. lia.
    - discriminate. }
  destruct small as [small negative].
  unfold to_int64, truncate.
  replace (0 <=? e) with false by (symmetry; apply Z.leb_gt; lia).
  rewrite Z.div_small by lia. reflexivity.
Qed.

End Truncation.


(** C2 fails on the code: a quantity can pass [FormatQuantity] and the
    minimum notional and still be placed with the size 0, which is
    neither positive nor negative.  Here the contract list cannot be
    had, so that 0.5 coin is formatted as "0.500"; at the price 100 its
    notional value 50 is above the minimum; and each of the four
    operations places an order of size 0.  The same happens when the
    contract is listed with the minimum order size 0. *)
Theorem order_size_can_be_zero :
  let half := num "0.5" in
  (let x := exchange (inr refused) "100" [] [] in
   returned (FormatQuantity answer "BTCUSDT" half fresh x) = Ok "0.500"
   /\ returned (CheckMinNotional answer "BTCUSDT" half fresh x) = Ok tt
   /\ map FuturesOrder.Size
          (submittedOrders (sent (OpenLong answer "BTCUSDT" half 10 fresh x))) = [0]
   /\ map FuturesOrder.Size
          (submittedOrders (sent (OpenShort answer "BTCUSDT" half 10 fresh x))) = [0]
   /\ map FuturesOrder.Size
          (submittedOrders (sent (CloseLong answer "BTCUSDT" half fresh x))) = [0]
   /\ map FuturesOrder.Size
          (submittedOrders (sent (CloseShort answer "BTCUSDT" half fresh x))) = [0])
  /\ (let x := exchange (inl [contract "1" "0.001" 0]) "100" [] [] in
      returned (FormatQuantity answer "BTCUSDT" half fresh x) = Ok "0.500"
      /\ returned (CheckMinNotional answer "BTCUSDT" half fresh x) = Ok tt
      /\ map FuturesOrder.Size
             (submittedOrders (sent (OpenLong answer "BTCUSDT" half 10 fresh x))) = [0]
      /\ map FuturesOrder.Size
             (submittedOrders (sent (OpenShort answer "BTCUSDT" half 10 fresh x))) = [0]).
Proof. vm_compute. repeat split. Qed.

(** ** Selective cancellation *)

Section Classification.

Context {World : Type}.
Variable upstream : forall R : Type, Call R -> World -> R * World.

(** What the loop of a selective cancellation cancels. *)
Lemma cancel_loop selected positionSide currentPrice priceOrders t w :
  cancelledTriggerOrders
    (sent (forEach priceOrders
                   (cancelIfSelected upstream selected positionSide currentPrice) t w))
  = selection selected positionSide currentPrice priceOrders.
Proof.
  unfold selection, cancelIfSelected.
  destruct (String.eqb positionSide "" || Float64.eqb currentPrice Float64.zero).
  - revert t w. induction priceOrders as [|order rest IH]; intros t w; [reflexivity|].
    cbn [forEach]. rewrite sent_bind, cancelledTriggerOrders_app, IH. reflexivity.
  - revert t w. induction priceOrders as [|order rest IH]; intros t w; [reflexivity|].
    cbn [forEach List.filter]. rewrite sent_bind, cancelledTriggerOrders_app, IH.
    destruct (selected positionSide currentPrice order
              && (0 <? FuturesPriceTriggeredOrder.Id order)); [|reflexivity].
    unfold bind, call.
    destruct (upstream _ (CancelPriceTriggeredOrder "usdt"
                (Strconv.FormatInt (FuturesPriceTriggeredOrder.Id order))) w).
    reflexivity.
Qed.

(** What a selective cancellation cancels, in terms of what it learnt
    from the upstream on its way. *)
Lemma cancelSelected_cancels selected symbol t w priceOrders positionSide :
  let o1 := GetMarketPrice upstream symbol t w in
  let currentPrice := match returned o1 with Ok price => price | Err _ => Float64.zero end in
  let listed :=
    upstream _ (ListPriceTriggeredOrders "usdt" "open"
                  (contractFilter (normalizeSymbolForGateIO symbol))) (world o1) in
  let o3 := GetPositions upstream (trader o1) (snd listed) in
  let positions := match returned o3 with Ok l => l | Err _ => [] end in
  fst listed = inl priceOrders ->
  positionSideOf positions symbol = Some positionSide ->
  cancelledTriggerOrders (sent (cancelSelected upstream selected symbol t w))
  = selection selected positionSide currentPrice priceOrders.
Proof.
  intros o1 currentPrice listed o3 positions Hlisted Hside.
  unfold cancelSelected.
  rewrite sent_bind, cancelledTriggerOrders_app,
    (readOnly_cancelled _ (GetMarketPrice_reads upstream symbol t w)).
  fold o1. cbn [app]. fold currentPrice.
  rewrite sent_bind, cancelledTriggerOrders_app.
  unfold call at 1 2 3 4. fold listed.
  destruct listed as [r w2] eqn:E. cbn [fst snd] in *. subst r. simpl_out.
  cbn [flat_map cancelledTriggerOrders app].
  rewrite sent_bind, cancelledTriggerOrders_app,
    (readOnly_cancelled _ (GetPositions_reads upstream (trader o1) w2)).
  fold o3. fold positions. rewrite Hside. cbn [app].
  rewrite sent_bind, cancelledTriggerOrders_app, cancel_loop.
  unfold ret. simpl_out. cbn [flat_map cancelledTriggerOrders]. apply app_nil_r.
Qed.

End Classification.

Section ClassificationClaim.

Context {World : Type}.
Variable upstream : forall R : Type, Call R -> World -> R * World.

(** With a trigger price that is there but cannot be read, both flags
    are decided by the size of the order alone. *)
Lemma flags_of_unreadable_trigger positionSide currentPrice order :
  let trigger := FuturesPriceTrigger.Price (FuturesPriceTriggeredOrder.Trigger order) in
  trigger <> "" ->
  failed (snd (Strconv.ParseFloat trigger)) = true ->
  isStopLoss positionSide currentPrice order
  = closesPosition positionSide
      (FuturesInitialOrder.Size (FuturesPriceTriggeredOrder.Initial order))
  /\ isTakeProfit positionSide currentPrice order
     = closesPosition positionSide
         (FuturesInitialOrder.Size (FuturesPriceTriggeredOrder.Initial order)).
Proof.
  intros trigger present unreadable. unfold isStopLoss, isTakeProfit, closesPosition.
  fold trigger.
  replace (String.eqb trigger "") with false
    by (symmetry; now apply String.eqb_neq).
  destruct (Strconv.ParseFloat trigger) as [triggerPrice parseErr].
  cbn [snd] in unreadable. rewrite unreadable. cbn [negb andb].
  destruct (String.eqb positionSide "long" && _), (String.eqb positionSide "short" && _);
    split; reflexivity.
Qed.

Lemma flags_of_missing_trigger positionSide currentPrice order :
  FuturesPriceTrigger.Price (FuturesPriceTriggeredOrder.Trigger order) = "" ->
  isStopLoss positionSide currentPrice order = false
  /\ isTakeProfit positionSide currentPrice order = false.
Proof. intros missing. unfold isStopLoss, isTakeProfit. now rewrite missing. Qed.

(** C1, amended.  With the orders the upstream lists and the side of
    the position of the symbol, [CancelStopLossOrders] cancels the
    orders flagged as stop-loss and [CancelTakeProfitOrders] those
    flagged as take-profit (of positive id, and only when the side is
    known and the price is not 0).  For an order whose trigger price is
    there but cannot be read, both flags are set exactly when the size
    of the order is opposite to the side of the position: such an
    order is taken for a stop-loss by the one method and for a
    take-profit by the other.  An order without trigger price gets
    neither flag. *)
Theorem unreadable_trigger_selected_by_size symbol t w priceOrders positionSide :
  let o1 := GetMarketPrice upstream symbol t w in
  let currentPrice :=
    match returned o1 with Ok price => price | Err _ => Float64.zero end in
  let listed :=
    upstream _ (ListPriceTriggeredOrders "usdt" "open"
                  (contractFilter (normalizeSymbolForGateIO symbol))) (world o1) in
  let o3 := GetPositions upstream (trader o1) (snd listed) in
  let positions := match returned o3 with Ok l => l | Err _ => [] end in
  fst listed = inl priceOrders ->
  positionSideOf positions symbol = Some positionSide ->
  cancelledTriggerOrders (sent (CancelStopLossOrders upstream symbol t w))
  = selection isStopLoss positionSide currentPrice priceOrders
  /\ cancelledTriggerOrders (sent (CancelTakeProfitOrders upstream symbol t w))
     = selection isTakeProfit positionSide currentPrice priceOrders
  /\ (forall order,
        let trigger :=
          FuturesPriceTrigger.Price (FuturesPriceTriggeredOrder.Trigger order) in
        trigger <> "" ->
        failed (snd (Strconv.ParseFloat trigger)) = true ->
        isStopLoss positionSide currentPrice order
        = closesPosition positionSide
            (FuturesInitialOrder.Size (FuturesPriceTriggeredOrder.Initial order))
        /\ isTakeProfit positionSide currentPrice order
           = closesPosition positionSide
               (FuturesInitialOrder.Size (FuturesPriceTriggeredOrder.Initial order)))
  /\ (forall order,
        FuturesPriceTrigger.Price (FuturesPriceTriggeredOrder.Trigger order) = "" ->
        isStopLoss positionSide currentPrice order = false
        /\ isTakeProfit positionSide currentPrice order = false).
Proof.
  intros o1 currentPrice listed o3 positions Hlisted Hside.
  split; [|split; [|split]].
  - now apply cancelSelected_cancels.
  - now apply cancelSelected_cancels.
  - intros order. apply flags_of_unreadable_trigger.
  - intros order. apply flags_of_missing_trigger.
Qed.

End ClassificationClaim.

(** C1, as stated, fails: the long position of the script faces an order
    to sell 5 contracts whose trigger price "abc" cannot be read, while
    the price is 100.  The order is flagged as a stop-loss and as a
    take-profit, and each of the two methods cancels it. *)
Lemma unreadable_trigger_is_classified :
  let order := conditional 7 (-5) "abc" in
  let x := exchange (inl [contract "0.0001" "0.1" 1]) "100" [position 20] [order] in
  failed (snd (Strconv.ParseFloat "abc")) = true
  /\ isStopLoss "long" (num "100") order = true
  /\ isTakeProfit "long" (num "100") order = true
  /\ cancelledTriggerOrders (sent (CancelStopLossOrders answer "BTCUSDT" fresh x)) = ["7"]
  /\ cancelledTriggerOrders (sent (CancelTakeProfitOrders answer "BTCUSDT" fresh x)) = ["7"].
Proof. vm_compute. repeat split. Qed.

Lemma unreadable_trigger_selected_by_size_witness :
  let orders := [conditional 7 (-5) "abc"; conditional 8 5 "abc"; conditional 9 (-5) ""] in
  let x := exchange (inl [contract "0.0001" "0.1" 1]) "100" [position 20] orders in
  cancelledTriggerOrders (sent (CancelStopLossOrders answer "BTCUSDT" fresh x)) = ["7"]
  /\ cancelledTriggerOrders (sent (CancelTakeProfitOrders answer "BTCUSDT" fresh x)) = ["7"].
Proof.
  intros orders x.
  assert (side : positionSideOf
                   (match returned (GetPositions answer
                                      (trader (GetMarketPrice answer "BTCUSDT" fresh x)) x)
                    with Ok l => l | Err _ => [] end) "BTCUSDT" = Some "long")
    by (vm_compute; reflexivity).
  pose proof (unreadable_trigger_selected_by_size answer "BTCUSDT" fresh x orders "long"
                eq_refl side) as (stops & takes & _).
  rewrite stops, takes. vm_compute. split; reflexivity.
Defined.

(** * Further properties *)

(** ** Symbols: further properties *)

Section SymbolFacts.

Import Strings.

Lemma Contains_inserted (a b : string) : Contains (a ++ "_" ++ b) "_" = true.
Proof.
  rewrite Contains_byte_app, (Contains_byte_app "_" b).
  now rewrite orb_true_r.
Qed.

Lemma normalize_separated (symbol : string) :
  Contains symbol "_" = true -> normalizeSymbolForGateIO symbol = symbol.
Proof. intros H. unfold normalizeSymbolForGateIO. now rewrite H. Qed.

Lemma ReplaceAll_no_separator (s : string) :
  Contains (ReplaceAll s "_" "") "_" = false.
Proof.
  unfold ReplaceAll. induction s as [|c r IH]; [reflexivity|].
  rewrite replaceFrom_byte_cons. destruct (Ascii.eqb "_" c) eqn:E; [exact IH|].
  now rewrite Contains_byte_cons, E, IH.
Qed.

Lemma drop_app (a b : string) : drop (len a) (a ++ b) = b.
Proof. induction a as [|c a IH]; [now destruct b | exact IH]. Qed.

Lemma take_app (a b : string) : take (len a) (a ++ b) = a.
Proof.
  induction a as [|c a IH]; [now destruct b|].
  rewrite app_cons. unfold len in *. simpl. now rewrite IH.
Qed.

Lemma HasSuffix_app (a suffix : string) : HasSuffix (a ++ suffix) suffix = true.
Proof.
  unfold HasSuffix. rewrite len_app.
  replace (len a + len suffix - len suffix)%nat with (len a) by lia.
  rewrite drop_app, String.eqb_refl, andb_true_r.
  apply Nat.leb_le. lia.
Qed.

Lemma TrimSuffix_appended (a suffix : string) : TrimSuffix (a ++ suffix) suffix = a.
Proof.
  unfold TrimSuffix. rewrite HasSuffix_app, len_app.
  replace (len a + len suffix - len suffix)%nat with (len a) by lia.
  apply take_app.
Qed.

End SymbolFacts.

(** X1.  [normalizeSymbolForGateIO] is idempotent: a symbol that was
    normalised once is returned as it is when normalised again, so the
    methods may normalise a symbol that a caller has normalised already. *)
Theorem normalize_idempotent (symbol : string) :
  normalizeSymbolForGateIO (normalizeSymbolForGateIO symbol)
  = normalizeSymbolForGateIO symbol.
Proof.
  destruct (Strings.Contains symbol "_") eqn:sep.
  - now rewrite !(normalize_separated symbol sep).
  - unfold normalizeSymbolForGateIO at 2 3. rewrite sep.
    destruct (splitAtSuffix symbol suffixes) as [r|] eqn:E.
    + apply splitAtSuffix_cut in E as (a & b & _ & ->).
      apply normalize_separated, Contains_inserted.
    + destruct (4 <? Strings.len symbol)%nat eqn:L.
      * apply normalize_separated, Contains_inserted.
      * unfold normalizeSymbolForGateIO. now rewrite sep, E, L.
Qed.

(** X2.  [DenormalizeSymbolFromGateIO] removes every separator: its
    result contains no ['_'], and denormalising it again changes
    nothing. *)
Theorem denormalize_removes_separators (symbol : string) :
  Strings.Contains (DenormalizeSymbolFromGateIO symbol) "_" = false
  /\ DenormalizeSymbolFromGateIO (DenormalizeSymbolFromGateIO symbol)
     = DenormalizeSymbolFromGateIO symbol.
Proof.
  assert (clean : Strings.Contains (DenormalizeSymbolFromGateIO symbol) "_" = false).
  { unfold DenormalizeSymbolFromGateIO.
    destruct (Strings.Contains symbol "_") eqn:sep; simpl negb; cbv iota.
    - apply ReplaceAll_no_separator.
    - exact sep. }
  split; [exact clean|].
  unfold DenormalizeSymbolFromGateIO at 1. now rewrite clean.
Qed.

(** X3.  The name of a USDT contract survives the way [GetPositions]
    takes it: [DenormalizeSymbolFromGateIO] turns [base_USDT] into
    [baseUSDT], and [normalizeSymbolForGateIO], which [getSymbolInfo]
    applies to that, gives [base_USDT] back, for every base without a
    separator. *)
Theorem usdt_contract_round_trip (base : string) :
  Strings.Contains base "_" = false ->
  DenormalizeSymbolFromGateIO (base ++ "_USDT") = base ++ "USDT"
  /\ normalizeSymbolForGateIO (DenormalizeSymbolFromGateIO (base ++ "_USDT"))
     = base ++ "_USDT".
Proof.
  intros clean.
  assert (whole : Strings.Contains (base ++ "USDT") "_" = false)
    by now rewrite Contains_byte_app, clean.
  assert (E : DenormalizeSymbolFromGateIO (base ++ "_USDT") = base ++ "USDT")
    by exact (strip_inserted base "USDT" whole).
  split; [exact E|]. rewrite E.
  unfold normalizeSymbolForGateIO. rewrite whole.
  unfold suffixes, splitAtSuffix.
  now rewrite HasSuffix_app, TrimSuffix_appended.
Qed.

Lemma usdt_contract_round_trip_witness :
  DenormalizeSymbolFromGateIO "BTC_USDT" = "BTCUSDT"
  /\ normalizeSymbolForGateIO (DenormalizeSymbolFromGateIO "BTC_USDT") = "BTC_USDT".
Proof.
  assert (clean : Strings.Contains "BTC" "_" = false) by reflexivity.
  exact (usdt_contract_round_trip "BTC" clean).
Defined.

(** ** Signs of the numbers the adapter computes *)

Section SignFacts.

Import Float64.

Lemma iter_pos_nat {A} (f : A -> A) (k : positive) (x : A) :
  SpecFloat.iter_pos f k x = Nat.iter (Pos.to_nat k) f x.
Proof.
  revert x; induction k as [k IH|k IH|]; intros x; simpl SpecFloat.iter_pos.
  - rewrite !IH, Pos2Nat.inj_xI, <- Nat.iter_add, <- Nat.iter_succ_r.
    f_equal. lia.
  - rewrite !IH, Pos2Nat.inj_xO, <- Nat.iter_add. f_equal. lia.
  - reflexivity.
Qed.

Lemma shr_1_digits (mrs : shr_record) (p : positive) :
  shr_m mrs = Z.pos p -> (1 < digits2_pos p)%positive ->
  exists q, shr_m (shr_1 mrs) = Z.pos q /\ digits2_pos p = Pos.succ (digits2_pos q).
Proof.
  destruct mrs as [m r s]; simpl; intros -> H.
  destruct p as [p|p|]; simpl in *; eauto. lia.
Qed.

Lemma shr_iter_digits (j : nat) (mrs : shr_record) (p : positive) :
  shr_m mrs = Z.pos p -> (j < Pos.to_nat (digits2_pos p))%nat ->
  exists q, shr_m (Nat.iter j shr_1 mrs) = Z.pos q
            /\ Pos.to_nat (digits2_pos q) = (Pos.to_nat (digits2_pos p) - j)%nat.
Proof.
  intros Hm. induction j as [|j IH]; intros Hj; simpl.
  - exists p. split; [exact Hm | lia].
  - destruct IH as (q & Hq & Dq); [lia|].
    destruct (shr_1_digits _ q Hq) as (q' & Hq' & Dq'); [lia|].
    exists q'. split; [exact Hq'|]. rewrite Dq', Pos2Nat.inj_succ in Dq. lia.
Qed.

Lemma shr_1_nonneg (mrs : shr_record) : 0 <= shr_m mrs -> 0 <= shr_m (shr_1 mrs).
Proof.
  destruct mrs as [m r s]; simpl.
  destruct m as [|[p|p|]|p]; simpl; lia.
Qed.

Lemma shr_iter_nonneg (j : nat) (mrs : shr_record) :
  0 <= shr_m mrs -> 0 <= shr_m (Nat.iter j shr_1 mrs).
Proof. intros H. induction j; simpl; [exact H | now apply shr_1_nonneg]. Qed.

Lemma shr_m_of_loc (m : Z) (l : location) : shr_m (shr_record_of_loc m l) = m.
Proof. destruct l as [|[]]; reflexivity. Qed.

(** Shifting to the canonical exponent keeps a mantissa non-negative,
    and positive when the number is not below the subnormals. *)
Lemma shr_fexp_nonneg (m e : Z) (l : location) :
  0 <= m -> 0 <= shr_m (fst (shr_fexp prec emax m e l)).
Proof.
  intros H. unfold shr_fexp, shr.
  destruct (fexp prec emax (Zdigits2 m + e) - e) as [|k|k]; simpl fst;
    rewrite ?iter_pos_nat; try apply shr_iter_nonneg; now rewrite shr_m_of_loc.
Qed.

Lemma shr_fexp_positive (p : positive) (e : Z) (l : location) :
  emin prec emax + prec <= Z.pos (digits2_pos p) + e ->
  exists q, shr_m (fst (shr_fexp prec emax (Z.pos p) e l)) = Z.pos q
            /\ Z.pos (digits2_pos q) + snd (shr_fexp prec emax (Z.pos p) e l)
               = Z.pos (digits2_pos p) + e.
Proof.
  intros H. unfold shr_fexp, shr, fexp. simpl Zdigits2.
  rewrite Z.max_l by (unfold prec in *; lia).
  destruct (Z.pos (digits2_pos p) + e - prec - e) as [|k|k] eqn:E; simpl fst; simpl snd.
  - exists p. split; [apply shr_m_of_loc | lia].
  - rewrite iter_pos_nat.
    destruct (shr_iter_digits (Pos.to_nat k) (shr_record_of_loc (Z.pos p) l) p)
      as (q & Hq & Dq); [apply shr_m_of_loc | unfold prec in E; lia |].
    exists q. split; [exact Hq|]. unfold prec in E. lia.
  - exists p. split; [apply shr_m_of_loc | lia].
Qed.

Lemma digits2_pos_succ (p : positive) :
  (digits2_pos p <= digits2_pos (Pos.succ p))%positive.
Proof. induction p as [p IH|p IH|]; simpl; lia. Qed.

Lemma round_nearest_even_nonneg (m : Z) (l : location) :
  0 <= m -> 0 <= round_nearest_even m l.
Proof. destruct l as [|[]]; simpl; try destruct (Z.even m); lia. Qed.

Lemma round_nearest_even_positive (p : positive) (l : location) :
  exists q, round_nearest_even (Z.pos p) l = Z.pos q
            /\ (digits2_pos p <= digits2_pos q)%positive.
Proof.
  pose proof (digits2_pos_succ p) as H. rewrite <- Pos.add_1_r in H.
  destruct l as [|[]]; cbn [round_nearest_even];
    try destruct (Z.even (Z.pos p));
    solve [exists p; split; [reflexivity | lia]
          | exists (p + 1)%positive; split; [reflexivity | exact H]].
Qed.

End SignFacts.

Section RoundingSigns.

Import Float64.

Lemma binary_round_aux_signed (s : bool) (p : positive) (e : Z) (l : location) :
  signed s (binary_round_aux prec emax s (Z.pos p) e l).
Proof.
  unfold binary_round_aux.
  pose proof (shr_fexp_nonneg (Z.pos p) e l ltac:(lia)) as H1.
  destruct (shr_fexp prec emax (Z.pos p) e l) as [mrs' e']. simpl fst in H1.
  pose proof (shr_fexp_nonneg (round_nearest_even (shr_m mrs') (loc_of_shr_record mrs'))
                e' loc_Exact (round_nearest_even_nonneg _ _ H1)) as H2.
  destruct (shr_fexp prec emax _ e' loc_Exact) as [mrs'' e'']. simpl fst in H2.
  destruct (shr_m mrs'') as [|m|m]; [reflexivity| |lia].
  now destruct (e'' <=? emax - prec).
Qed.

Lemma binary_round_aux_nonzero (s : bool) (p : positive) (e : Z) (l : location) :
  emin prec emax + prec <= Z.pos (digits2_pos p) + e ->
  nonzero (binary_round_aux prec emax s (Z.pos p) e l).
Proof.
  intros H. unfold binary_round_aux.
  destruct (shr_fexp_positive p e l H) as (q & Hq & He).
  destruct (shr_fexp prec emax (Z.pos p) e l) as [mrs' e'].
  simpl fst in Hq; simpl snd in He. rewrite Hq.
  destruct (round_nearest_even_positive q (loc_of_shr_record mrs')) as (q' & -> & Dq').
  destruct (shr_fexp_positive q' e' loc_Exact) as (q'' & Hq'' & _); [lia|].
  destruct (shr_fexp prec emax (Z.pos q') e' loc_Exact) as [mrs'' e''].
  simpl fst in Hq''. rewrite Hq''.
  now destruct (e'' <=? emax - prec).
Qed.
End RoundingSigns.

Section IntegerSigns.

Import Float64.

Lemma binary_round_sign (s : bool) (p : positive) :
  signed s (binary_round prec emax s p 0) /\ nonzero (binary_round prec emax s p 0).
Proof.
  unfold binary_round.
  assert (E : fexp prec emax (Z.pos (digits2_pos p) + 0) = Z.pos (digits2_pos p) - prec).
  { unfold fexp, emin, prec, emax. lia. }
  destruct (shl_align p 0 (fexp prec emax (Z.pos (digits2_pos p) + 0))) as [mz ez] eqn:A.
  split; [apply binary_round_aux_signed|]. apply binary_round_aux_nonzero.
  unfold shl_align in A. rewrite E in A.
  pose proof (Pos2Z.is_pos (digits2_pos mz)). pose proof (Pos2Z.is_pos (digits2_pos p)).
  destruct (Z.pos (digits2_pos p) - prec - 0) eqn:D; injection A as Hm He;
    subst ez; unfold emin, prec, emax in *; lia.
Qed.

Lemma signed_nonzero_cases (s : bool) (x : float64) :
  signed s x -> nonzero x -> x = S754_infinity s \/ exists m e, x = S754_finite s m e.
Proof. destruct x; simpl; intros H N; try contradiction; subst; eauto. Qed.

(** [float64(n)] compared with 0 is [n] compared with 0. *)
Lemma of_int_sign (n : Z) :
  eqb (of_int n) zero = (n =? 0)
  /\ gtb (of_int n) zero = (0 <? n)
  /\ signed (n <? 0) (of_int n).
Proof.
  destruct n as [|p|p]; [repeat split| |].
  - destruct (binary_round_sign false p) as [S N].
    change (of_int (Z.pos p)) with (binary_round prec emax false p 0).
    split; [|split; [|exact S]];
      destruct (signed_nonzero_cases _ _ S N) as [->|(m & e & ->)]; reflexivity.
  - destruct (binary_round_sign true p) as [S N].
    change (of_int (Z.neg p)) with (binary_round prec emax true p 0).
    split; [|split; [|exact S]];
      destruct (signed_nonzero_cases _ _ S N) as [->|(m & e & ->)]; reflexivity.
Qed.

(** The sign of a product is the product of the signs, unless the
    product is NaN (a zero times an infinity). *)
Lemma mul_signed (sx sy : bool) (x y : float64) :
  signed sx x -> signed sy y -> nonzero x -> nonzero y ->
  signed (xorb sx sy) (mul x y).
Proof.
  destruct x as [s1|s1| |s1 m1 e1], y as [s2|s2| |s2 m2 e2]; simpl;
    intros Hx Hy Nx Ny; try contradiction; subst; try reflexivity.
  apply binary_round_aux_signed.
Qed.

Lemma neg_signed (s : bool) (x : float64) : signed s x -> signed (negb s) (neg x).
Proof. destruct x; simpl; intros H; try contradiction; now subst. Qed.

Lemma signed_nonneg (x : float64) : signed false x -> leb zero x = true.
Proof. destruct x; simpl; intros H; try contradiction; now subst. Qed.

Lemma positive_signed (x : float64) : gtb x zero = true -> signed false x /\ nonzero x.
Proof. destruct x as [s|[]| |[] m e]; simpl; try discriminate; auto. Qed.

End IntegerSigns.

(** ** The caches of contracts and positions *)

Section ContractCache.

Context {World : Type}.
Variable upstream : forall R : Type, Call R -> World -> R * World.

(** [getSymbolInfo] written out against the answers of the upstream. *)
Lemma getSymbolInfo_run symbol t w :
  getSymbolInfo upstream symbol t w
  = let gateIOSymbol := normalizeSymbolForGateIO symbol in
    let '(cached, w1, asked) :=
      match symbolInfoCache t !! gateIOSymbol with
      | Some info =>
          let (now, w1) := upstream Z Now w in
          (if now - symbolInfoCacheTime t <? 5 * Minute then Some info else None,
           w1, [Sent Now])
      | None => (None, w, [])
      end in
    match cached with
    | Some info => mkOut (Ok info) t w1 asked
    | None =>
        match upstream _ (ListFuturesContracts "usdt") w1 with
        | (inl contracts, w2) =>
            let (now, w3) := upstream Z Now w2 in
            mkOut (match contractTable contracts !! gateIOSymbol with
                   | Some info => Ok info
                   | None => Err (SymbolNotFound symbol gateIOSymbol)
                   end)
                  (setSymbolInfoCache (contractTable contracts) now t) w3
                  (asked ++ [Sent (ListFuturesContracts "usdt"); Sent Now])
        | (inr e, w2) =>
            mkOut (Err (ContractsUnavailable (UpstreamError e))) t w2
                  (asked ++ [Sent (ListFuturesContracts "usdt")])
        end
    end.
Proof.
  unfold getSymbolInfo, contractTable. cbv zeta. unfold_go.
  destruct (symbolInfoCache t !! normalizeSymbolForGateIO symbol) as [cached|].
  - destruct (upstream Z Now w) as [now w1]. simpl_out.
    destruct (now - symbolInfoCacheTime t <? 5 * Minute); [reflexivity|].
    destruct (upstream _ (ListFuturesContracts "usdt") w1) as [[contracts|e] w2];
      simpl_out; [|reflexivity].
    destruct (upstream Z Now w2) as [now2 w3]. reflexivity.
  - simpl_out.
    destruct (upstream _ (ListFuturesContracts "usdt") w) as [[contracts|e] w2];
      simpl_out; [|reflexivity].
    destruct (upstream Z Now w2) as [now2 w3]. reflexivity.
Qed.

(** X4.  The table of contracts lives 5 minutes, whatever
    [cacheDuration] is.  A symbol found in a table younger than that is
    answered from it with no request but the reading of the clock.  A
    symbol missing from the table, or a table that old, makes
    [getSymbolInfo] list the contracts again: a failed listing leaves
    the trader as it was, a successful one replaces the whole table,
    stamps it with a new reading of the clock, and the symbol is looked
    up in the new table. *)
Theorem getSymbolInfo_cache (symbol : string) (t : GateIOFuturesTrader) (w : World) :
  let gateIOSymbol := normalizeSymbolForGateIO symbol in
  let out := getSymbolInfo upstream symbol t w in
  let age := fst (upstream Z Now w) - symbolInfoCacheTime t in
  let w1 := match symbolInfoCache t !! gateIOSymbol with
            | Some _ => snd (upstream Z Now w)
            | None => w
            end in
  (forall info,
      symbolInfoCache t !! gateIOSymbol = Some info -> age < 5 * Minute ->
      returned out = Ok info /\ trader out = t /\ sent out = [Sent Now])
  /\ (symbolInfoCache t !! gateIOSymbol = None \/ 5 * Minute <= age ->
      match upstream _ (ListFuturesContracts "usdt") w1 with
      | (inl contracts, w') =>
          symbolInfoCache (trader out) = contractTable contracts
          /\ symbolInfoCacheTime (trader out) = fst (upstream Z Now w')
          /\ returned out = match contractTable contracts !! gateIOSymbol with
                            | Some info => Ok info
                            | None => Err (SymbolNotFound symbol gateIOSymbol)
                            end
      | (inr e, _) =>
          returned out = Err (ContractsUnavailable (UpstreamError e))
          /\ trader out = t
      end).
Proof.
  intros gateIOSymbol out age w1. subst out age w1.
  rewrite getSymbolInfo_run. fold gateIOSymbol. cbv zeta.
  destruct (symbolInfoCache t !! gateIOSymbol) as [cached|] eqn:Ecache.
  - destruct (upstream Z Now w) as [now w1] eqn:Enow. simpl_out.
    destruct (now - symbolInfoCacheTime t <? 5 * Minute) eqn:Eage.
    + split.
      * intros info [= <-] _. repeat split; reflexivity.
      * intros [H|H]; [discriminate|]. apply Z.ltb_lt in Eage. lia.
    + split.
      * intros info _ H. apply Z.ltb_ge in Eage. lia.
      * intros _.
        destruct (upstream _ (ListFuturesContracts "usdt") w1) as [[contracts|e] w2];
          [destruct (upstream Z Now w2) as [now2 w3]|]; simpl_out;
          repeat split; reflexivity.
  - split; [discriminate|]. intros _.
    destruct (upstream _ (ListFuturesContracts "usdt") w) as [[contracts|e] w2];
      [destruct (upstream Z Now w2) as [now2 w3]|]; simpl_out;
      repeat split; reflexivity.
Qed.

End ContractCache.

Section PositionsCache.

Context {World : Type}.
Variable upstream : forall R : Type, Call R -> World -> R * World.

Lemma returned_bind {A B} (c : M World A) (k : A -> M World B) t w :
  returned (bind c k t w)
  = returned (k (returned (c t w)) (trader (c t w)) (world (c t w))).
Proof. reflexivity. Qed.

Lemma trader_bind {A B} (c : M World A) (k : A -> M World B) t w :
  trader (bind c k t w)
  = trader (k (returned (c t w)) (trader (c t w)) (world (c t w))).
Proof. reflexivity. Qed.

Lemma world_bind {A B} (c : M World A) (k : A -> M World B) t w :
  world (bind c k t w)
  = world (k (returned (c t w)) (trader (c t w)) (world (c t w))).
Proof. reflexivity. Qed.

(** One turn of the loop of [GetPositions]. *)
Lemma positionMap_record (pos : Position.t) t w :
  match returned (positionMap upstream pos t w) with
  | None => Position.Size pos = 0
  | Some posMap =>
      Position.Size pos <> 0
      /\ posMap !! "symbol" = reportedSymbol pos
      /\ posMap !! "side" = reportedSide pos
      /\ amountNotNegative posMap
  end.
Proof.
  unfold positionMap.
  destruct (of_int_sign (Position.Size pos)) as (Ez & Eg & Es). rewrite Ez, Eg.
  destruct (Position.Size pos =? 0) eqn:Z0; [now apply Z.eqb_eq in Z0|].
  apply Z.eqb_neq in Z0. rewrite returned_bind.
  set (r := returned (getSymbolInfo upstream _ t w)).
  unfold ret; simpl_out. split; [exact Z0|].
  split; [now simplify_map_eq|]. split; [now simplify_map_eq|].
  unfold amountNotNegative. eexists. split; [now simplify_map_eq|].
  apply signed_nonneg.
  assert (sized : nonzero (Float64.of_int (Position.Size pos))).
  { (* the size is not 0 *)
    destruct (Position.Size pos) as [|p|p]; [contradiction| |].
    - apply binary_round_sign.
    - apply (binary_round_sign true p). }
  assert (coin : forall c,
             c = Float64.of_int (Position.Size pos)
             \/ (exists q, Float64.gtb q Float64.zero = true
                           /\ c = Float64.mul (Float64.of_int (Position.Size pos)) q) ->
             signed (Position.Size pos <? 0) c).
  { intros c [->|(q & Hq & ->)]; [exact Es|].
    destruct (positive_signed q Hq) as [Sq Nq].
    replace (Position.Size pos <? 0) with (xorb (Position.Size pos <? 0) false)
      by apply xorb_false_r.
    now apply mul_signed. }
  match goal with
  | |- signed false (if _ then ?c else _) =>
      assert (C : signed (Position.Size pos <? 0) c)
  end.
  { apply coin. destruct r as [info|e]; [|now left].
    destruct (negb _); [|now left].
    destruct (Strconv.ParseFloat _) as [q [err|]]; [now left|].
    destruct (Float64.gtb q Float64.zero) eqn:Hq; [right; eauto | now left]. }
  destruct (0 <? Position.Size pos) eqn:P.
  - replace (Position.Size pos <? 0) with false in C by (symmetry; lia). exact C.
  - replace (Position.Size pos <? 0) with true in C by (symmetry; lia).
    exact (neg_signed true _ C).
Qed.

(** X5.  The loop of [GetPositions] reports the positions of size other
    than 0, in the order of the listing and one record for each: the
    symbol is the contract name without separator, the side is ["long"]
    for a positive size and ["short"] for a negative one, and the amount
    is a number that is not negative, for whatever contract information
    the exchange gives. *)
Theorem collectPositions_records (positions : list Position.t) t w :
  let result := returned (collectPositions upstream positions t w) in
  let open := List.filter (fun pos => negb (Position.Size pos =? 0)) positions in
  map (fun posMap => posMap !! "symbol") result = map reportedSymbol open
  /\ map (fun posMap => posMap !! "side") result = map reportedSide open
  /\ Forall amountNotNegative result.
Proof.
  revert t w. induction positions as [|pos rest IH]; intros t w.
  - repeat split; constructor.
  - cbn [collectPositions List.filter]. rewrite !returned_bind.
    pose proof (positionMap_record pos t w) as H.
    set (o1 := positionMap upstream pos t w) in *.
    destruct (IH (trader o1) (world o1)) as (S1 & S2 & S3).
    set (o2 := collectPositions upstream rest (trader o1) (world o1)) in *.
    unfold ret; simpl_out.
    destruct (returned o1) as [posMap|].
    + destruct H as (Z0 & Hs & Hd & Ha).
      apply Z.eqb_neq in Z0. rewrite Z0. cbn [negb map].
      rewrite Hs, Hd, S1, S2. repeat split. now constructor.
    + apply Z.eqb_eq in H. rewrite H. cbn [negb]. now repeat split.
Qed.

(** [GetPositions] written out against the answers of the upstream. *)
Lemma GetPositions_run t w :
  GetPositions upstream t w
  = let '(fresh, w1, asked) :=
      match cachedPositions t with
      | [] => (false, w, [])
      | _ :: _ =>
          let (now, w1) := upstream Z Now w in
          (now - positionsCacheTime t <? cacheDuration t, w1, [Sent Now])
      end in
    if fresh then mkOut (Ok (cachedPositions t)) t w1 asked
    else
      match upstream _ (ListPositions "usdt") w1 with
      | (inl positions, w2) =>
          let loop := collectPositions upstream positions t w2 in
          let (now, w3) := upstream Z Now (world loop) in
          mkOut (Ok (returned loop))
                (setPositionsCache (returned loop) now (trader loop)) w3
                (asked ++ Sent (ListPositions "usdt") :: sent loop ++ [Sent Now])
      | (inr e, w2) =>
          mkOut (Err (PositionsUnavailable (UpstreamError e))) t w2
                (asked ++ [Sent (ListPositions "usdt")])
      end.
Proof.
  unfold GetPositions. unfold_go.
  destruct (cachedPositions t) as [|posMap rest] eqn:Ecache.
  - simpl_out.
    destruct (upstream _ (ListPositions "usdt") w) as [[positions|e] w2]; simpl_out;
      [|reflexivity].
    destruct (upstream Z Now (world (collectPositions upstream positions t w2)))
      as [now w3]. simpl_out. cbn [app]. now rewrite ?app_nil_r.
  - destruct (upstream Z Now w) as [now w1]. simpl_out.
    destruct (now - positionsCacheTime t <? cacheDuration t); [reflexivity|].
    destruct (upstream _ (ListPositions "usdt") w1) as [[positions|e] w2]; simpl_out;
      [|reflexivity].
    destruct (upstream Z Now (world (collectPositions upstream positions t w2)))
      as [now3 w3]. simpl_out. cbn [app]. now rewrite ?app_nil_r.
Qed.

(** X6.  Positions are cached like the balance, except that an empty
    list is never served from the cache.  A cached list that is not
    empty and younger than [cacheDuration] is returned without listing
    the positions and without touching the trader.  When the cached
    list is empty the positions are listed at once, without a look at
    the clock; a failed listing leaves the trader as it was, a
    successful one stores what the loop reports, even when that is the
    empty list again. *)
Theorem GetPositions_cache t w :
  let out := GetPositions upstream t w in
  let age := fst (upstream Z Now w) - positionsCacheTime t in
  let w1 := match cachedPositions t with
            | [] => w
            | _ :: _ => snd (upstream Z Now w)
            end in
  (cachedPositions t <> [] -> age < cacheDuration t ->
     returned out = Ok (cachedPositions t) /\ trader out = t
     /\ positionFetches (sent out) = 0%nat)
  /\ (cachedPositions t = [] ->
      exists rest, sent out = Sent (ListPositions "usdt") :: rest)
  /\ (cachedPositions t = [] \/ cacheDuration t <= age ->
      match upstream _ (ListPositions "usdt") w1 with
      | (inl positions, w') =>
          let loop := collectPositions upstream positions t w' in
          returned out = Ok (returned loop)
          /\ cachedPositions (trader out) = returned loop
          /\ positionsCacheTime (trader out) = fst (upstream Z Now (world loop))
      | (inr e, _) =>
          returned out = Err (PositionsUnavailable (UpstreamError e))
          /\ trader out = t
      end).
Proof.
  intros out age w1. subst out age w1. rewrite GetPositions_run.
  destruct (cachedPositions t) as [|posMap rest] eqn:Ecache.
  - split; [intros H; now contradiction H|]. cbv iota.
    destruct (upstream _ (ListPositions "usdt") w) as [[positions|e] w2].
    + cbv zeta.
      destruct (upstream Z Now (world (collectPositions upstream positions t w2)))
        as [now w3]. simpl_out.
      split; [intros _; eexists; reflexivity|]. intros _. repeat split; reflexivity.
    + simpl_out. split; [intros _; eexists; reflexivity|]. intros _. split; reflexivity.
  - destruct (upstream Z Now w) as [now w1]. simpl_out.
    destruct (now - positionsCacheTime t <? cacheDuration t) eqn:Eage.
    + split; [intros _ _; repeat split; reflexivity|].
      split; [discriminate|].
      intros [H|H]; [discriminate|]. apply Z.ltb_lt in Eage. lia.
    + split; [intros _ H; apply Z.ltb_ge in Eage; lia|].
      split; [discriminate|]. intros _.
      destruct (upstream _ (ListPositions "usdt") w1) as [[positions|e] w2].
      * cbv zeta.
        destruct (upstream Z Now (world (collectPositions upstream positions t w2)))
          as [now3 w3]. simpl_out. repeat split; reflexivity.
      * simpl_out. split; reflexivity.
Qed.

End PositionsCache.

(** ** What the methods keep of the trader *)

Section Keeps.

Context {World : Type}.
Variable upstream : forall R : Type, Call R -> World -> R * World.
Variable I : GateIOFuturesTrader -> Prop.

Lemma keeps_ret {A} (a : A) : keeps (World := World) I (ret a).
Proof. intros t w H. exact H. Qed.

Lemma keeps_get : keeps (World := World) I get.
Proof. intros t w H. exact H. Qed.

Lemma keeps_call {R} (c : Call R) : keeps I (call upstream c).
Proof. intros t w H. unfold call. now destruct (upstream R c w). Qed.

Lemma keeps_modify f : (forall t, I t -> I (f t)) -> keeps (World := World) I (modify f).
Proof. intros Hf t w H. now apply Hf. Qed.

Lemma keeps_bind {A B} (c : M World A) (k : A -> M World B) :
  keeps I c -> (forall a, keeps I (k a)) -> keeps I (bind c k).
Proof. intros Hc Hk t w H. apply Hk, Hc, H. Qed.

Lemma keeps_forEach {A} (l : list A) (body : A -> M World unit) :
  (forall x, keeps I (body x)) -> keeps I (forEach l body).
Proof.
  intros Hb. induction l as [|x l IH]; [apply keeps_ret|].
  apply keeps_bind; [apply Hb | intros _; exact IH].
Qed.

End Keeps.

Create HintDb keeps.

Ltac keeps_step :=
  first
    [ apply keeps_ret | apply keeps_get | apply keeps_call
    | solve [auto with keeps]
    | apply keeps_bind; [| intros ?]
    | apply keeps_forEach; intros ?
    | match goal with
      | |- keeps _ (match ?x with _ => _ end) => destruct x
      | |- keeps _ (if ?b then _ else _) => destruct b
      | |- keeps _ (let (_, _) := ?x in _) => destruct x
      end ].
Ltac keeps_all := repeat keeps_step.

(** The methods that write to no field keep every property. *)
Section Untouched.

Context {World : Type}.
Variable upstream : forall R : Type, Call R -> World -> R * World.
Variable I : GateIOFuturesTrader -> Prop.

Lemma GetMarketPrice_keeps symbol : keeps I (GetMarketPrice upstream symbol).
Proof. unfold GetMarketPrice. keeps_all. Qed.

Lemma SetLeverage_keeps symbol leverage : keeps I (SetLeverage upstream symbol leverage).
Proof. unfold SetLeverage. keeps_all. Qed.

Lemma CancelAllOrders_keeps symbol : keeps I (CancelAllOrders upstream symbol).
Proof. unfold CancelAllOrders. keeps_all. Qed.

Lemma CheckMinNotional_keeps symbol q : keeps I (CheckMinNotional upstream symbol q).
Proof. unfold CheckMinNotional. keeps_all; apply GetMarketPrice_keeps. Qed.

End Untouched.

#[local] Hint Resolve GetMarketPrice_keeps SetLeverage_keeps CancelAllOrders_keeps
  CheckMinNotional_keeps : keeps.

(** The methods that write to the table of contracts only keep what a
    new table does not change. *)
Section TableOnly.

Context {World : Type}.
Variable upstream : forall R : Type, Call R -> World -> R * World.
Variable I : GateIOFuturesTrader -> Prop.
Hypothesis new_table : forall table now t, I t -> I (setSymbolInfoCache table now t).

Lemma getSymbolInfo_keeps symbol : keeps I (getSymbolInfo upstream symbol).
Proof.
  unfold getSymbolInfo. keeps_all.
  apply keeps_modify. intros t. apply new_table.
Qed.
Hint Resolve getSymbolInfo_keeps : keeps.

Lemma convert_keeps symbol q :
  keeps I (convertCoinQuantityToContractSize upstream symbol q).
Proof. unfold convertCoinQuantityToContractSize. keeps_all. Qed.
Hint Resolve convert_keeps : keeps.

Lemma FormatQuantity_keeps symbol q : keeps I (FormatQuantity upstream symbol q).
Proof. unfold FormatQuantity. keeps_all. Qed.
Hint Resolve FormatQuantity_keeps : keeps.

Lemma collectPositions_keeps positions : keeps I (collectPositions upstream positions).
Proof.
  induction positions as [|pos rest IH]; [apply keeps_ret|].
  cbn [collectPositions]. unfold positionMap. keeps_all.
Qed.

Lemma OpenLong_keeps symbol q leverage : keeps I (OpenLong upstream symbol q leverage).
Proof. unfold OpenLong. keeps_all. Qed.

Lemma OpenShort_keeps symbol q leverage : keeps I (OpenShort upstream symbol q leverage).
Proof. unfold OpenShort. keeps_all. Qed.

Lemma SetStopLoss_keeps symbol side q price :
  keeps I (SetStopLoss upstream symbol side q price).
Proof. unfold SetStopLoss. keeps_all. Qed.

Lemma SetTakeProfit_keeps symbol side q price :
  keeps I (SetTakeProfit upstream symbol side q price).
Proof. unfold SetTakeProfit. keeps_all. Qed.

Lemma GetMinOpenAmount_keeps symbol : keeps I (GetMinOpenAmount upstream symbol).
Proof. unfold GetMinOpenAmount. keeps_all. Qed.

(** What is left of [CloseLong] and [CloseShort] once the quantity is
    known. *)
Lemma close_keeps symbol (size : float64 -> Z) wrap (r : result float64) :
  keeps I (match r with
           | Ok quantity =>
               bind (FormatQuantity upstream symbol quantity) (fun r =>
                 match r with
                 | Ok quantityStr =>
                     match Strconv.ParseFloat quantityStr with
                     | (_, Some e) =>
                         ret (Err (FormattedUnparsable (NumError quantityStr e)))
                     | (contractSizeFloat, None) =>
                         bind (call upstream
                                 (CreateFuturesOrder "usdt"
                                    (marketOrder (normalizeSymbolForGateIO symbol)
                                       (size contractSizeFloat) true
                                       "t-gateio-futures-close")))
                              (fun r =>
                                 match r with
                                 | inr e => ret (Err (wrap (UpstreamError e)))
                                 | inl order =>
                                     bind (CancelAllOrders upstream symbol)
                                          (fun _ => ret (Ok (orderResult order)))
                                 end)
                     end
                 | Err e => ret (Err (id e))
                 end)
           | Err e => ret (Err (id e))
           end).
Proof. keeps_all. Qed.

(** The methods that read the positions keep what [GetPositions]
    keeps. *)
Hypothesis read_positions : keeps I (GetPositions upstream).
Hint Resolve read_positions : keeps.

Lemma resolveQuantity_keeps symbol side q :
  keeps I (resolveQuantity upstream symbol side q).
Proof. unfold resolveQuantity. keeps_all. Qed.

Lemma CloseLong_keeps symbol q : keeps I (CloseLong upstream symbol q).
Proof.
  unfold CloseLong. apply keeps_bind; [apply resolveQuantity_keeps|].
  intros r. apply (close_keeps symbol (fun x => Int64.neg (absContracts x)) CloseLongFailed).
Qed.

Lemma CloseShort_keeps symbol q : keeps I (CloseShort upstream symbol q).
Proof.
  unfold CloseShort. apply keeps_bind; [apply resolveQuantity_keeps|].
  intros r. apply (close_keeps symbol absContracts CloseShortFailed).
Qed.

Lemma cancelSelected_keeps selected symbol :
  keeps I (cancelSelected upstream selected symbol).
Proof. unfold cancelSelected, cancelIfSelected. keeps_all. Qed.
Hint Resolve cancelSelected_keeps : keeps.

Lemma CancelStopOrders_keeps symbol : keeps I (CancelStopOrders upstream symbol).
Proof.
  unfold CancelStopOrders, CancelStopLossOrders, CancelTakeProfitOrders. keeps_all.
Qed.

End TableOnly.

Section Consistency.

Context {World : Type}.
Variable upstream : forall R : Type, Call R -> World -> R * World.

Lemma contractTable_by_name (contracts : list Contract.t) name info :
  contractTable contracts !! name = Some info -> Contract.Name info = name.
Proof.
  unfold contractTable.
  assert (G : forall (m : gmap string Contract.t),
             (forall n i, m !! n = Some i -> Contract.Name i = n) ->
             forall n i,
               fold_left (fun m contract => <[Contract.Name contract := contract]> m)
                         contracts m !! n = Some i ->
               Contract.Name i = n).
  { induction contracts as [|c rest IH]; intros m Hm n i; [apply Hm|].
    cbn [fold_left]. apply IH. intros n' i'.
    rewrite lookup_insert.
    destruct (decide (Contract.Name c = n')) as [<-|Hne]; [|apply Hm].
    intros [= <-]. reflexivity. }
  apply G. intros n i. rewrite lookup_empty. discriminate.
Qed.

Lemma consistent_new apiKey secretKey :
  consistent (NewGateIOFuturesTrader apiKey secretKey).
Proof.
  split; [reflexivity| | constructor | discriminate].
  intros name info. cbn [NewGateIOFuturesTrader symbolInfoCache].
  rewrite lookup_empty. discriminate.
Qed.

Lemma consistent_table contracts now t :
  consistent t -> consistent (setSymbolInfoCache (contractTable contracts) now t).
Proof.
  intros [L C P B]. split; [exact L| |exact P|exact B].
  intros name info. apply contractTable_by_name.
Qed.

Lemma consistent_balance t account now :
  consistent t -> consistent (setBalanceCache (balanceRecord account) now t).
Proof.
  intros [L C P B]. split; [exact L|exact C|exact P|].
  intros balance [= <-]. now exists account.
Qed.

Lemma consistent_positions t result now :
  Forall positionRecord result ->
  consistent t -> consistent (setPositionsCache result now t).
Proof. intros F [L C P B]. split; [exact L|exact C|exact F|exact B]. Qed.

Lemma getSymbolInfo_consistent symbol : keeps consistent (getSymbolInfo upstream symbol).
Proof.
  unfold getSymbolInfo. keeps_all.
  apply keeps_modify. intros t. apply consistent_table.
Qed.
Hint Resolve getSymbolInfo_consistent : keeps.

Lemma GetBalance_consistent : keeps consistent (GetBalance upstream).
Proof.
  unfold GetBalance. keeps_all.
  all: apply keeps_modify; intros t'; apply consistent_balance.
Qed.

Lemma collectPositions_consistent positions :
  keeps consistent (collectPositions upstream positions).
Proof.
  induction positions as [|pos rest IH]; [apply keeps_ret|].
  cbn [collectPositions]. unfold positionMap. keeps_all.
Qed.

Lemma positionRecord_reported pos posMap :
  posMap !! "symbol" = reportedSymbol pos ->
  posMap !! "side" = reportedSide pos ->
  amountNotNegative posMap -> positionRecord posMap.
Proof.
  intros Hs Hd Ha. split; [eexists; exact Hs|]. split; [|exact Ha].
  rewrite Hd. unfold reportedSide. destruct (0 <? Position.Size pos); auto.
Qed.

Lemma collectPositions_formed positions t w :
  Forall positionRecord (returned (collectPositions upstream positions t w)).
Proof.
  revert t w. induction positions as [|pos rest IH]; intros t w; [constructor|].
  cbn [collectPositions]. rewrite !returned_bind.
  pose proof (positionMap_record upstream pos t w) as H.
  set (o1 := positionMap upstream pos t w) in *.
  specialize (IH (trader o1) (world o1)).
  unfold ret; simpl_out.
  destruct (returned o1) as [posMap|]; [|exact IH].
  destruct H as (_ & Hs & Hd & Ha). constructor; [|exact IH].
  exact (positionRecord_reported pos posMap Hs Hd Ha).
Qed.

(** What [GetPositions] returns from a consistent trader. *)
Lemma GetPositions_formed t w :
  consistent t ->
  consistent (trader (GetPositions upstream t w))
  /\ forall positions,
      returned (GetPositions upstream t w) = Ok positions ->
      Forall positionRecord positions.
Proof.
  intros H. rewrite GetPositions_run.
  assert (fetch : forall w1 asked,
    let out :=
      match upstream _ (ListPositions "usdt") w1 with
      | (inl positions, w2) =>
          let loop := collectPositions upstream positions t w2 in
          let (now, w3) := upstream Z Now (world loop) in
          mkOut (Ok (returned loop))
                (setPositionsCache (returned loop) now (trader loop)) w3
                (asked ++ Sent (ListPositions "usdt") :: sent loop ++ [Sent Now])
      | (inr e, w2) =>
          mkOut (Err (PositionsUnavailable (UpstreamError e))) t w2
                (asked ++ [Sent (ListPositions "usdt")])
      end in
    consistent (trader out)
    /\ forall positions, returned out = Ok positions -> Forall positionRecord positions).
  { intros w1 asked.
    destruct (upstream _ (ListPositions "usdt") w1) as [[positions|e] w2]; cbv zeta.
    - pose proof (collectPositions_formed positions t w2) as F.
      pose proof (collectPositions_consistent positions t w2 H) as C.
      destruct (upstream Z Now (world (collectPositions upstream positions t w2)))
        as [now w3]. simpl_out.
      split; [now apply consistent_positions|]. now intros positions' [= <-].
    - simpl_out. split; [exact H | discriminate]. }
  destruct (cachedPositions t) as [|posMap rest] eqn:Ecache.
  - apply fetch.
  - destruct (upstream Z Now w) as [now w1].
    destruct (now - positionsCacheTime t <? cacheDuration t); [|apply fetch].
    simpl_out. split; [exact H|]. intros positions [= <-].
    rewrite <- Ecache. apply H.
Qed.

Lemma GetPositions_consistent : keeps consistent (GetPositions upstream).
Proof. intros t w H. now apply GetPositions_formed. Qed.
Hint Resolve GetPositions_consistent : keeps.

Lemma convert_consistent symbol q :
  keeps consistent (convertCoinQuantityToContractSize upstream symbol q).
Proof. unfold convertCoinQuantityToContractSize. keeps_all. Qed.
Hint Resolve convert_consistent : keeps.

Lemma FormatQuantity_consistent symbol q :
  keeps consistent (FormatQuantity upstream symbol q).
Proof. unfold FormatQuantity. keeps_all. Qed.
Hint Resolve FormatQuantity_consistent : keeps.

Lemma resolveQuantity_consistent symbol side q :
  keeps consistent (resolveQuantity upstream symbol side q).
Proof. unfold resolveQuantity. keeps_all. Qed.
Hint Resolve resolveQuantity_consistent : keeps.

Lemma cancelSelected_consistent selected symbol :
  keeps consistent (cancelSelected upstream selected symbol).
Proof. unfold cancelSelected, cancelIfSelected. keeps_all. Qed.
Hint Resolve cancelSelected_consistent : keeps.

Lemma run_consistent m : keeps consistent (run upstream m).
Proof.
  destruct m; cbn [run]; (apply keeps_bind; [|intros ?; apply keeps_ret]).
  - apply GetBalance_consistent.
  - apply GetPositions_consistent.
  - apply getSymbolInfo_consistent.
  - apply convert_consistent.
  - apply FormatQuantity_consistent.
  - apply GetMarketPrice_keeps.
  - apply SetLeverage_keeps.
  - unfold OpenLong. keeps_all.
  - unfold OpenShort. keeps_all.
  - unfold CloseLong. keeps_all.
  - unfold CloseShort. keeps_all.
  - apply CancelAllOrders_keeps.
  - apply cancelSelected_consistent.
  - apply cancelSelected_consistent.
  - unfold CancelStopOrders, CancelStopLossOrders, CancelTakeProfitOrders. keeps_all.
  - unfold SetStopLoss. keeps_all.
  - unfold SetTakeProfit. keeps_all.
  - apply CheckMinNotional_keeps.
  - unfold GetMinOpenAmount. keeps_all.
Qed.

(** X7.  Every trader that calls of the methods lead to from a new one
    is consistent, whatever the exchange answers and whatever happens to
    it between the calls (the maps handed out by the methods are taken
    not to be written to by the callers): the lifetime of the caches is
    still 15 seconds, every contract of the table is stored under its
    own name, every cached position has a symbol, the side ["long"] or
    ["short"] and an amount that is a number and not negative, and a
    cached balance is the record built from an account. *)
Theorem reachable_consistent (t : GateIOFuturesTrader) :
  reachable upstream t -> consistent t.
Proof.
  induction 1 as [apiKey secretKey|m t w _ IH].
  - apply consistent_new.
  - now apply run_consistent.
Qed.

End Consistency.

Lemma reachable_consistent_witness :
  let x := exchange (inl [contract "0.0001" "0.1" 1]) "100000" [position 20] [] in
  let t := trader (run answer CallGetPositions fresh x) in
  length (cachedPositions t) = 1%nat /\ consistent t.
Proof.
  intros x t.
  assert (cached : length (cachedPositions t) = 1%nat) by (vm_compute; reflexivity).
  split; [exact cached|].
  apply (reachable_consistent answer).
  exact (reachable_run answer CallGetPositions fresh x (reachable_new answer "key" "secret")).
Defined.

(** ** Type assertions on the cached records *)

Section Returns.

Context {World : Type}.
Variable upstream : forall R : Type, Call R -> World -> R * World.

Lemma returns_ret {A} (Q : A -> Prop) (a : A) : Q a -> returns (World := World) Q (ret a).
Proof. intros H t w. exact H. Qed.

Lemma returns_bind {A B} (Q : B -> Prop) (c : M World A) (k : A -> M World B) :
  (forall a, returns Q (k a)) -> returns Q (bind c k).
Proof. intros Hk t w. apply Hk. Qed.

End Returns.

Ltac returns_step :=
  first
    [ apply returns_ret; reflexivity
    | apply returns_bind; intros ?
    | match goal with
      | |- returns _ (match ?x with _ => _ end) => destruct x
      | |- returns _ (if ?b then _ else _) => destruct b
      | |- returns _ (let (_, _) := ?x in _) => destruct x
      end ].
Ltac returns_all := repeat returns_step.

Section Assertions.

Context {World : Type}.
Variable upstream : forall R : Type, Call R -> World -> R * World.

Abbreviation sound := (fun r => isAssertionFailure r = false).

Lemma findPositionAmt_formed positions symbol side :
  Forall positionRecord positions ->
  match findPositionAmt positions symbol side with
  | Some (Err _) => False
  | _ => True
  end.
Proof.
  induction 1 as [|pos rest (_ & _ & amt & Ha & _) _ IH]; [exact Logic.I|].
  cbn [findPositionAmt].
  destruct (isString (pos !! "symbol") symbol && isString (pos !! "side") side);
    [|exact IH].
  now rewrite Ha.
Qed.

Lemma positionSideOf_formed positions symbol :
  Forall positionRecord positions ->
  exists side, positionSideOf positions symbol = Some side.
Proof.
  induction 1 as [|pos rest (_ & Hd & _) _ IH]; [now exists ""|].
  cbn [positionSideOf].
  destruct (isString (pos !! "symbol") symbol); [|exact IH].
  destruct Hd as [-> | ->]; eauto.
Qed.

Lemma GetPositions_sound t w : sound (returned (GetPositions upstream t w)).
Proof.
  rewrite GetPositions_run.
  destruct (cachedPositions t) as [|posMap rest].
  - destruct (upstream _ (ListPositions "usdt") w) as [[positions|e] w2];
      [cbv zeta; destruct (upstream Z Now _)|]; reflexivity.
  - destruct (upstream Z Now w) as [now w1].
    destruct (now - positionsCacheTime t <? cacheDuration t); [reflexivity|].
    destruct (upstream _ (ListPositions "usdt") w1) as [[positions|e] w2];
      [cbv zeta; destruct (upstream Z Now _)|]; reflexivity.
Qed.

Lemma resolveQuantity_sound symbol side quantity t w :
  consistent t ->
  sound (returned (resolveQuantity upstream symbol side quantity t w)).
Proof.
  intros H. unfold resolveQuantity.
  destruct (Float64.eqb quantity Float64.zero); [|reflexivity].
  rewrite returned_bind.
  pose proof (GetPositions_sound t w) as S.
  destruct (GetPositions_formed upstream t w H) as [_ F].
  destruct (returned (GetPositions upstream t w)) as [positions|e]; [|exact S].
  pose proof (findPositionAmt_formed positions symbol side (F _ eq_refl)) as A.
  destruct (findPositionAmt positions symbol side) as [[amt|e]|];
    [|contradiction|reflexivity].
  unfold ret; simpl_out. now destruct (Float64.eqb amt Float64.zero).
Qed.

Lemma FormatQuantity_sound symbol quantity :
  returns sound (FormatQuantity upstream symbol quantity).
Proof. unfold FormatQuantity. returns_all. Qed.

Lemma CloseLong_sound symbol quantity t w :
  consistent t -> sound (returned (CloseLong upstream symbol quantity t w)).
Proof.
  intros H. unfold CloseLong. rewrite returned_bind.
  pose proof (resolveQuantity_sound symbol "long" quantity t w H) as S.
  set (o1 := resolveQuantity upstream symbol "long" quantity t w) in *.
  destruct (returned o1) as [q|e]; [|exact S].
  rewrite returned_bind.
  pose proof (FormatQuantity_sound symbol q (trader o1) (world o1)) as S2.
  set (o2 := FormatQuantity upstream symbol q (trader o1) (world o1)) in *.
  destruct (returned o2) as [quantityStr|e]; [|exact S2].
  generalize (trader o2) (world o2).
  match goal with |- forall t w, isAssertionFailure (returned (?c t w)) = false =>
    change (returns sound c) end.
  returns_all.
Qed.

Lemma CloseShort_sound symbol quantity t w :
  consistent t -> sound (returned (CloseShort upstream symbol quantity t w)).
Proof.
  intros H. unfold CloseShort. rewrite returned_bind.
  pose proof (resolveQuantity_sound symbol "short" quantity t w H) as S.
  set (o1 := resolveQuantity upstream symbol "short" quantity t w) in *.
  destruct (returned o1) as [q|e]; [|exact S].
  rewrite returned_bind.
  pose proof (FormatQuantity_sound symbol q (trader o1) (world o1)) as S2.
  set (o2 := FormatQuantity upstream symbol q (trader o1) (world o1)) in *.
  destruct (returned o2) as [quantityStr|e]; [|exact S2].
  generalize (trader o2) (world o2).
  match goal with |- forall t w, isAssertionFailure (returned (?c t w)) = false =>
    change (returns sound c) end.
  returns_all.
Qed.

Lemma cancelSelected_sound selected symbol t w :
  consistent t -> sound (returned (cancelSelected upstream selected symbol t w)).
Proof.
  intros H. unfold cancelSelected. rewrite returned_bind.
  pose proof (GetMarketPrice_keeps upstream consistent symbol t w H) as H1.
  set (o1 := GetMarketPrice upstream symbol t w) in *.
  rewrite returned_bind.
  pose proof (keeps_call upstream consistent
                (ListPriceTriggeredOrders "usdt" "open"
                   (contractFilter (normalizeSymbolForGateIO symbol)))
                (trader o1) (world o1) H1) as H2.
  set (o2 := call upstream _ (trader o1) (world o1)) in *.
  destruct (returned o2) as [priceOrders|e]; [|reflexivity].
  rewrite returned_bind.
  destruct (GetPositions_formed upstream (trader o2) (world o2) H2) as [_ F].
  set (o3 := GetPositions upstream (trader o2) (world o2)) in *.
  assert (F' : Forall positionRecord
                 (match returned o3 with Ok l => l | Err _ => [] end)).
  { destruct (returned o3); [now apply F | constructor]. }
  destruct (positionSideOf_formed _ symbol F') as (side & ->).
  rewrite returned_bind. reflexivity.
Qed.

(** X8.  From a consistent trader the type assertions on the cached
    position records never fail: [CloseLong] and [CloseShort] do not
    return the error of an amount that is no [float64], and
    [CancelStopLossOrders], [CancelTakeProfitOrders] and
    [CancelStopOrders] do not panic on the side of a position. *)
Theorem cached_records_are_typed symbol quantity (t : GateIOFuturesTrader) (w : World) :
  consistent t ->
  isAssertionFailure (returned (CloseLong upstream symbol quantity t w)) = false
  /\ isAssertionFailure (returned (CloseShort upstream symbol quantity t w)) = false
  /\ isAssertionFailure (returned (CancelStopLossOrders upstream symbol t w)) = false
  /\ isAssertionFailure (returned (CancelTakeProfitOrders upstream symbol t w)) = false
  /\ isAssertionFailure (returned (CancelStopOrders upstream symbol t w)) = false.
Proof.
  intros H.
  split; [now apply CloseLong_sound|]. split; [now apply CloseShort_sound|].
  split; [now apply cancelSelected_sound|]. split; [now apply cancelSelected_sound|].
  unfold CancelStopOrders, CancelStopLossOrders, CancelTakeProfitOrders.
  rewrite returned_bind.
  pose proof (cancelSelected_sound isStopLoss symbol t w H) as S.
  pose proof (cancelSelected_consistent upstream isStopLoss symbol t w H) as H1.
  set (o1 := cancelSelected upstream isStopLoss symbol t w) in *.
  destruct (returned o1) as [[]|e]; [|exact S].
  now apply cancelSelected_sound.
Qed.

End Assertions.

Lemma cached_records_are_typed_witness :
  let x := exchange (inl [contract "0.0001" "0.1" 1]) "100000" [position 20] [] in
  let t := trader (GetPositions answer fresh x) in
  isAssertionFailure (returned (CloseLong answer "BTCUSDT" Float64.zero t x)) = false
  /\ isAssertionFailure (returned (CloseShort answer "BTCUSDT" Float64.zero t x)) = false
  /\ isAssertionFailure (returned (CancelStopLossOrders answer "BTCUSDT" t x)) = false
  /\ isAssertionFailure (returned (CancelTakeProfitOrders answer "BTCUSDT" t x)) = false
  /\ isAssertionFailure (returned (CancelStopOrders answer "BTCUSDT" t x)) = false.
Proof.
  intros x t.
  assert (sound : consistent t).
  { apply GetPositions_consistent. apply consistent_new. }
  exact (cached_records_are_typed answer "BTCUSDT" Float64.zero t x sound).
Defined.

(** ** What the result of a trading method says about its order *)

Section OrderReports.

Context {World : Type}.
Variable upstream : forall R : Type, Call R -> World -> R * World.

Abbreviation unrefused := (fun r => reportsRefusal r = false).

Lemma SetLeverage_unrefused symbol leverage :
  returns unrefused (SetLeverage upstream symbol leverage).
Proof. unfold SetLeverage. returns_all. Qed.

Lemma FormatQuantity_unrefused symbol quantity :
  returns unrefused (FormatQuantity upstream symbol quantity).
Proof. unfold FormatQuantity. returns_all. Qed.

Lemma CheckMinNotional_unrefused symbol quantity :
  returns unrefused (CheckMinNotional upstream symbol quantity).
Proof. unfold CheckMinNotional. returns_all. Qed.

Lemma GetPositions_unrefused : returns unrefused (GetPositions upstream).
Proof. unfold GetPositions. returns_all. Qed.

Lemma findPositionAmt_error positions symbol side e :
  findPositionAmt positions symbol side = Some (Err e) ->
  e = PositionAmountNotFloat symbol side.
Proof.
  induction positions as [|pos rest IH]; [discriminate|]. cbn [findPositionAmt].
  destruct (isString (pos !! "symbol") symbol && isString (pos !! "side") side);
    [|exact IH].
  destruct (pos !! "positionAmt") as [[amt|s|i]|]; now intros [= <-].
Qed.

Lemma resolveQuantity_unrefused symbol side quantity :
  returns unrefused (resolveQuantity upstream symbol side quantity).
Proof.
  unfold resolveQuantity. intros t w.
  destruct (Float64.eqb quantity Float64.zero); [|reflexivity].
  rewrite returned_bind. pose proof (GetPositions_unrefused t w) as G.
  destruct (returned (GetPositions upstream t w)) as [positions|e]; [|exact G].
  destruct (findPositionAmt positions symbol side) as [[amt|e]|] eqn:F;
    [destruct (Float64.eqb amt Float64.zero)|..]; try reflexivity.
  now rewrite (findPositionAmt_error _ _ _ _ F).
Qed.

(** A step that places no order and whose error is passed on. *)
Ltac pass o x calm kind :=
  rewrite sent_bind, returned_bind, submittedOrders_app, (no_orders _ calm);
  cbn [app];
  pose proof kind as R; cbv beta in R;
  match type of R with
  | reportsRefusal (returned ?c) = false => set (o := c) in *
  end;
  destruct (returned o) as [x|?];
  [clear R
  | unfold ret, id; simpl_out; cbn [reportsOrder]; cbn [reportsRefusal] in R;
    rewrite R; reflexivity].

Lemma order_then_report {A} settle order wrap (k : FuturesOrder.t -> M World (result A)) t w :
  (forall e, isRefusal (wrap e) = true) ->
  (forall accepted t' w',
      quiet (sent (k accepted t' w')) /\ reportsOrder (returned (k accepted t' w')) = true) ->
  let out := bind (call upstream (CreateFuturesOrder settle order))
                  (fun r => match r with
                            | inr e => ret (Err (wrap (UpstreamError e)))
                            | inl accepted => k accepted
                            end) t w in
  length (submittedOrders (sent out)) = 1%nat /\ reportsOrder (returned out) = true.
Proof.
  intros Hw Hk out. subst out.
  rewrite sent_bind, returned_bind, submittedOrders_app. unfold call.
  destruct (upstream _ (CreateFuturesOrder settle order) w) as [[accepted|e] w'];
    simpl_out.
  - destruct (Hk accepted t w') as [Q R]. rewrite (no_orders _ Q), R. now split.
  - split; [reflexivity|]. apply Hw.
Qed.

Lemma report_after_close symbol (accepted : FuturesOrder.t) t w :
  let out := bind (CancelAllOrders upstream symbol)
                  (fun _ => ret (Ok (orderResult accepted))) t w in
  quiet (sent out) /\ reportsOrder (returned out) = true.
Proof.
  split; [|reflexivity].
  apply only_bind; [apply CancelAllOrders_quiet | reflexivity].
Qed.

(** X9.  The result of a trading method tells whether an order went to
    the exchange.  [OpenLong], [OpenShort], [CloseLong] and [CloseShort]
    send exactly one order when they return the record of an order or
    the error of a refused order ([...Failed]), and none when they
    return any other error. *)
Theorem result_reports_order symbol quantity leverage (t : GateIOFuturesTrader) (w : World) :
  (let out := OpenLong upstream symbol quantity leverage t w in
   length (submittedOrders (sent out))
   = if reportsOrder (returned out) then 1%nat else 0%nat)
  /\ (let out := OpenShort upstream symbol quantity leverage t w in
      length (submittedOrders (sent out))
      = if reportsOrder (returned out) then 1%nat else 0%nat)
  /\ (let out := CloseLong upstream symbol quantity t w in
      length (submittedOrders (sent out))
      = if reportsOrder (returned out) then 1%nat else 0%nat)
  /\ (let out := CloseShort upstream symbol quantity t w in
      length (submittedOrders (sent out))
      = if reportsOrder (returned out) then 1%nat else 0%nat).
Proof.
  split; [|split; [|split]]; cbv zeta.
  - unfold OpenLong.
    rewrite sent_bind, returned_bind, submittedOrders_app,
      (no_orders _ (CancelAllOrders_quiet upstream symbol t w)); cbn [app].
    set (o0 := CancelAllOrders upstream symbol t w).
    pass o1 u1 (SetLeverage_quiet upstream symbol leverage (trader o0) (world o0))
         (SetLeverage_unrefused symbol leverage (trader o0) (world o0)).
    pass o2 quantityStr (FormatQuantity_quiet upstream symbol quantity (trader o1) (world o1))
         (FormatQuantity_unrefused symbol quantity (trader o1) (world o1)).
    destruct (Strconv.ParseFloat quantityStr) as [contractSizeFloat [e3|]]; [reflexivity|].
    pass o3 u3 (CheckMinNotional_quiet upstream symbol quantity (trader o2) (world o2))
         (CheckMinNotional_unrefused symbol quantity (trader o2) (world o2)).
    destruct (order_then_report "usdt"
                (marketOrder (normalizeSymbolForGateIO symbol)
                   (Float64.to_int64 contractSizeFloat) false "t-gateio-futures")
                OpenLongFailed (fun accepted => ret (Ok (orderResult accepted)))
                (trader o3) (world o3)) as [N R];
      [reflexivity | intros; split; reflexivity |].
    rewrite N, R. reflexivity.
  - unfold OpenShort.
    rewrite sent_bind, returned_bind, submittedOrders_app,
      (no_orders _ (CancelAllOrders_quiet upstream symbol t w)); cbn [app].
    set (o0 := CancelAllOrders upstream symbol t w).
    pass o1 u1 (SetLeverage_quiet upstream symbol leverage (trader o0) (world o0))
         (SetLeverage_unrefused symbol leverage (trader o0) (world o0)).
    pass o2 quantityStr (FormatQuantity_quiet upstream symbol quantity (trader o1) (world o1))
         (FormatQuantity_unrefused symbol quantity (trader o1) (world o1)).
    destruct (Strconv.ParseFloat quantityStr) as [contractSizeFloat [e3|]]; [reflexivity|].
    pass o3 u3 (CheckMinNotional_quiet upstream symbol quantity (trader o2) (world o2))
         (CheckMinNotional_unrefused symbol quantity (trader o2) (world o2)).
    destruct (order_then_report "usdt"
                (marketOrder (normalizeSymbolForGateIO symbol)
                   (Float64.to_int64 (Float64.neg contractSizeFloat)) false
                   "t-gateio-futures")
                OpenShortFailed (fun accepted => ret (Ok (orderResult accepted)))
                (trader o3) (world o3)) as [N R];
      [reflexivity | intros; split; reflexivity |].
    rewrite N, R. reflexivity.
  - unfold CloseLong.
    pass o1 amount (resolveQuantity_quiet upstream symbol "long" quantity t w)
         (resolveQuantity_unrefused symbol "long" quantity t w).
    pass o2 quantityStr (FormatQuantity_quiet upstream symbol amount (trader o1) (world o1))
         (FormatQuantity_unrefused symbol amount (trader o1) (world o1)).
    destruct (Strconv.ParseFloat quantityStr) as [contractSizeFloat [e3|]]; [reflexivity|].
    destruct (order_then_report "usdt"
                (marketOrder (normalizeSymbolForGateIO symbol)
                   (Int64.neg (absContracts contractSizeFloat)) true
                   "t-gateio-futures-close")
                CloseLongFailed
                (fun accepted => bind (CancelAllOrders upstream symbol)
                                      (fun _ => ret (Ok (orderResult accepted))))
                (trader o2) (world o2)) as [N R];
      [reflexivity | intros; apply report_after_close |].
    rewrite N, R. reflexivity.
  - unfold CloseShort.
    pass o1 amount (resolveQuantity_quiet upstream symbol "short" quantity t w)
         (resolveQuantity_unrefused symbol "short" quantity t w).
    pass o2 quantityStr (FormatQuantity_quiet upstream symbol amount (trader o1) (world o1))
         (FormatQuantity_unrefused symbol amount (trader o1) (world o1)).
    destruct (Strconv.ParseFloat quantityStr) as [contractSizeFloat [e3|]]; [reflexivity|].
    destruct (order_then_report "usdt"
                (marketOrder (normalizeSymbolForGateIO symbol)
                   (absContracts contractSizeFloat) true "t-gateio-futures-close")
                CloseShortFailed
                (fun accepted => bind (CancelAllOrders upstream symbol)
                                      (fun _ => ret (Ok (orderResult accepted))))
                (trader o2) (world o2)) as [N R];
      [reflexivity | intros; apply report_after_close |].
    rewrite N, R. reflexivity.
Qed.

End OrderReports.

(** ** The cached account across the calls that do not read it *)

Section AccountCaches.

Context {World : Type}.
Variable upstream : forall R : Type, Call R -> World -> R * World.

Lemma sameAccount_table t0 table now t :
  sameAccount t0 t -> sameAccount t0 (setSymbolInfoCache table now t).
Proof. intros H. exact H. Qed.

Lemma run_sameAccount m t0 :
  readsAccount m = false -> keeps (sameAccount t0) (run upstream m).
Proof.
  pose proof (sameAccount_table t0) as T.
  destruct m; cbn [readsAccount]; intros R; try discriminate R; cbn [run];
    (apply keeps_bind; [|intros ?; apply keeps_ret]).
  - now apply getSymbolInfo_keeps.
  - now apply convert_keeps.
  - now apply FormatQuantity_keeps.
  - apply GetMarketPrice_keeps.
  - apply SetLeverage_keeps.
  - now apply OpenLong_keeps.
  - now apply OpenShort_keeps.
  - unfold CloseLong, resolveQuantity. rewrite R.
    apply keeps_bind; [apply keeps_ret|]. intros r.
    now apply (close_keeps upstream _ T symbol
                 (fun x => Int64.neg (absContracts x)) CloseLongFailed).
  - unfold CloseShort, resolveQuantity. rewrite R.
    apply keeps_bind; [apply keeps_ret|]. intros r.
    now apply (close_keeps upstream _ T symbol absContracts CloseShortFailed).
  - apply CancelAllOrders_keeps.
  - now apply SetStopLoss_keeps.
  - now apply SetTakeProfit_keeps.
  - apply CheckMinNotional_keeps.
  - now apply GetMinOpenAmount_keeps.
Qed.

Lemma GetBalance_fresh t w balance :
  cachedBalance t = Some balance ->
  fst (upstream Z Now w) - balanceCacheTime t < cacheDuration t ->
  returned (GetBalance upstream t w) = Ok balance.
Proof.
  intros C A. unfold GetBalance. unfold_go. rewrite C.
  destruct (upstream Z Now w) as [now w1]. simpl_out. simpl fst in A.
  apply Z.ltb_lt in A. now rewrite A.
Qed.

Lemma GetPositions_fresh t w :
  cachedPositions t <> [] ->
  fst (upstream Z Now w) - positionsCacheTime t < cacheDuration t ->
  returned (GetPositions upstream t w) = Ok (cachedPositions t).
Proof.
  intros C A. rewrite GetPositions_run.
  destruct (cachedPositions t) as [|posMap rest]; [now contradiction C|].
  destruct (upstream Z Now w) as [now w1]. simpl fst in A.
  apply Z.ltb_lt in A. now rewrite A.
Qed.

(** X10.  A call that does not read the account ([readsAccount]: every
    method but [GetBalance], [GetPositions], the selective
    cancellations, and [CloseLong] and [CloseShort] with the quantity
    0) leaves the cached balance and positions, their times and their
    lifetime as they are.  An order placed by [OpenLong], say, does not
    refresh them: [GetBalance] and [GetPositions] called after it,
    within the lifetime of the cache, still return the balance and the
    positions from before the order. *)
Theorem cached_account_outlives_calls (m : method) (t : GateIOFuturesTrader) (w : World) :
  readsAccount m = false ->
  let o := run upstream m t w in
  sameAccount t (trader o)
  /\ (forall balance,
        cachedBalance t = Some balance ->
        fst (upstream Z Now (world o)) - balanceCacheTime t < cacheDuration t ->
        returned (GetBalance upstream (trader o) (world o)) = Ok balance)
  /\ (cachedPositions t <> [] ->
      fst (upstream Z Now (world o)) - positionsCacheTime t < cacheDuration t ->
      returned (GetPositions upstream (trader o) (world o)) = Ok (cachedPositions t)).
Proof.
  intros R o.
  assert (S : sameAccount t (trader o)).
  { apply run_sameAccount; [exact R|]. repeat split. }
  split; [exact S|]. destruct S as (B & Bt & P & Pt & D). split.
  - intros balance C A. apply GetBalance_fresh; [now rewrite B|].
    now rewrite Bt, D.
  - intros C A. rewrite <- P. apply GetPositions_fresh; [now rewrite P|].
    now rewrite Pt, D.
Qed.

End AccountCaches.

Lemma cached_account_outlives_calls_witness :
  let x := exchange (inl [contract "0.0001" "0.1" 1]) "100000" [position 20] [] in
  let t := trader (GetPositions answer fresh x) in
  let o := run answer (CallOpenLong "BTCUSDT" (num "0.002") 10) t x in
  length (submittedOrders (sent o)) = 1%nat
  /\ returned (GetPositions answer (trader o) (world o)) = Ok (cachedPositions t).
Proof.
  intros x t o.
  assert (placed : length (submittedOrders (sent o)) = 1%nat) by (vm_compute; reflexivity).
  assert (unread : readsAccount (CallOpenLong "BTCUSDT" (num "0.002") 10) = false)
    by reflexivity.
  assert (held : cachedPositions t <> []).
  { intros E. apply (f_equal (@length _)) in E. vm_compute in E. discriminate E. }
  assert (young : fst (answer Z Now (world o)) - positionsCacheTime t < cacheDuration t)
    by (vm_compute; reflexivity).
  pose proof (cached_account_outlives_calls answer _ t x unread) as (_ & _ & stale).
  split; [exact placed|]. exact (stale held young).
Defined.

(** ** Cancelling the orders of a symbol *)

Lemma cancelledOrdinaryOrders_app (a b : list Event) :
  cancelledOrdinaryOrders (a ++ b)
  = (cancelledOrdinaryOrders a ++ cancelledOrdinaryOrders b)%list.
Proof. apply flat_map_app. Qed.

Lemma kept_ordinary (evs : list Event) :
  only (fun ev => negb (cancelsOrdinaryOrders ev)) evs -> cancelledOrdinaryOrders evs = [].
Proof.
  unfold only, cancelledOrdinaryOrders.
  induction evs as [|[R c] evs IH]; [reflexivity|].
  cbn [forallb flat_map]. intros [Hc Hr]%andb_true_iff.
  rewrite (IH Hr). destruct c; try reflexivity; discriminate Hc.
Qed.

Lemma readOnly_kept_ordinary (evs : list Event) :
  readOnly evs -> only (fun ev => negb (cancelsOrdinaryOrders ev)) evs.
Proof. apply only_weaken. intros [R c]; destruct c; now intros. Qed.

Section CancelAll.

Context {World : Type}.
Variable upstream : forall R : Type, Call R -> World -> R * World.

Lemma call_out {R} (c : Call R) t w :
  call upstream c t w
  = mkOut (fst (upstream R c w)) t (snd (upstream R c w)) [Sent c].
Proof. unfold call. now destruct (upstream R c w). Qed.

Lemma ret_out {A} (a : A) t (w : World) : ret a t w = mkOut a t w [].
Proof. reflexivity. Qed.

(** The loop of [CancelAllOrders] over the open conditional orders. *)
Lemma cancel_all_loop (priceOrders : list FuturesPriceTriggeredOrder.t) t w :
  let o := forEach priceOrders (fun order =>
             if 0 <? FuturesPriceTriggeredOrder.Id order then
               bind (call upstream (CancelPriceTriggeredOrder "usdt"
                       (Strconv.FormatInt (FuturesPriceTriggeredOrder.Id order))))
                    (fun _ => ret tt)
             else ret tt) t w in
  cancelledTriggerOrders (sent o)
  = map (fun order => Strconv.FormatInt (FuturesPriceTriggeredOrder.Id order))
        (List.filter (fun order => 0 <? FuturesPriceTriggeredOrder.Id order) priceOrders)
  /\ cancelledOrdinaryOrders (sent o) = [].
Proof.
  cbv zeta. revert t w. induction priceOrders as [|order rest IH]; intros t w.
  - split; reflexivity.
  - cbn [forEach List.filter]. rewrite sent_bind.
    rewrite cancelledTriggerOrders_app, cancelledOrdinaryOrders_app.
    destruct (0 <? FuturesPriceTriggeredOrder.Id order).
    + rewrite sent_bind, call_out. simpl_out.
      rewrite !trader_bind, !world_bind, call_out, !ret_out. simpl_out.
      destruct (IH t (snd (upstream _ (CancelPriceTriggeredOrder "usdt"
                             (Strconv.FormatInt (FuturesPriceTriggeredOrder.Id order))) w)))
        as [-> ->].
      split; reflexivity.
    + rewrite !ret_out. simpl_out. apply IH.
Qed.

Lemma CancelAllOrders_traffic symbol t w :
  let gateIOSymbol := normalizeSymbolForGateIO symbol in
  let out := CancelAllOrders upstream symbol t w in
  let w1 := snd (upstream _ (CancelFuturesOrders "usdt" gateIOSymbol) w) in
  let listed :=
    fst (upstream _ (ListPriceTriggeredOrders "usdt" "open" (contractFilter gateIOSymbol))
           w1) in
  cancelledOrdinaryOrders (sent out) = [gateIOSymbol]
  /\ cancelledTriggerOrders (sent out)
     = match listed with
       | inl priceOrders =>
           map (fun order => Strconv.FormatInt (FuturesPriceTriggeredOrder.Id order))
               (List.filter (fun order => 0 <? FuturesPriceTriggeredOrder.Id order)
                            priceOrders)
       | inr _ => []
       end.
Proof.
  intros gateIOSymbol out w1 listed. subst out w1 listed.
  unfold CancelAllOrders. fold gateIOSymbol.
  rewrite !sent_bind, !cancelledOrdinaryOrders_app, !cancelledTriggerOrders_app.
  rewrite ?trader_bind, ?world_bind, ?call_out. simpl_out.
  destruct (fst (upstream _ (ListPriceTriggeredOrders "usdt" "open"
                               (contractFilter gateIOSymbol))
                   (snd (upstream _ (CancelFuturesOrders "usdt" gateIOSymbol) w))))
    as [priceOrders|e].
  - match goal with
    | |- context [forEach priceOrders _ ?t' ?w'] =>
        destruct (cancel_all_loop priceOrders t' w') as [T O]
    end.
    cbv zeta in T, O. rewrite T, O, !ret_out. simpl_out.
    cbn [cancelledOrdinaryOrders cancelledTriggerOrders flat_map app].
    now rewrite app_nil_r.
  - rewrite !ret_out. simpl_out. split; reflexivity.
Qed.

(** X11.  [CancelAllOrders] never fails and never places an order.
    Whatever the exchange answers, it returns no error and leaves the
    trader as it was; it asks once for the ordinary orders of the
    contract to be cancelled, lists the open conditional orders of the
    contract, and asks for each listed one with a positive id to be
    cancelled, in the order of the listing; when the listing fails
    no conditional order is cancelled. *)
Theorem CancelAllOrders_cancels symbol (t : GateIOFuturesTrader) (w : World) :
  let gateIOSymbol := normalizeSymbolForGateIO symbol in
  let out := CancelAllOrders upstream symbol t w in
  let w1 := snd (upstream _ (CancelFuturesOrders "usdt" gateIOSymbol) w) in
  let listed :=
    fst (upstream _ (ListPriceTriggeredOrders "usdt" "open" (contractFilter gateIOSymbol))
           w1) in
  returned out = Ok tt /\ trader out = t
  /\ quiet (sent out)
  /\ cancelledOrdinaryOrders (sent out) = [gateIOSymbol]
  /\ cancelledTriggerOrders (sent out)
     = match listed with
       | inl priceOrders =>
           map (fun order => Strconv.FormatInt (FuturesPriceTriggeredOrder.Id order))
               (List.filter (fun order => 0 <? FuturesPriceTriggeredOrder.Id order)
                            priceOrders)
       | inr _ => []
       end.
Proof.
  intros gateIOSymbol out w1 listed. subst out w1 listed.
  split; [reflexivity|].
  split; [exact (CancelAllOrders_keeps upstream (fun t' => t' = t) symbol t w eq_refl)|].
  split; [apply CancelAllOrders_quiet|].
  exact (CancelAllOrders_traffic symbol t w).
Qed.

Abbreviation kept := (only (fun ev => negb (cancelsOrdinaryOrders ev))).

Lemma SetLeverage_kept symbol leverage t w :
  kept (sent (SetLeverage upstream symbol leverage t w)).
Proof. unfold SetLeverage. traffic. Qed.

Lemma FormatQuantity_kept symbol quantity t w :
  kept (sent (FormatQuantity upstream symbol quantity t w)).
Proof. apply readOnly_kept_ordinary, FormatQuantity_reads. Qed.

Lemma CheckMinNotional_kept symbol quantity t w :
  kept (sent (CheckMinNotional upstream symbol quantity t w)).
Proof. apply readOnly_kept_ordinary, CheckMinNotional_reads. Qed.

Lemma resolveQuantity_kept symbol side quantity t w :
  kept (sent (resolveQuantity upstream symbol side quantity t w)).
Proof. apply readOnly_kept_ordinary, resolveQuantity_reads. Qed.

Hint Resolve SetLeverage_kept FormatQuantity_kept CheckMinNotional_kept
  resolveQuantity_kept : traffic.

Lemma open_first_cancels {A} symbol (k : result unit -> M World A) t w :
  (forall r t' w', kept (sent (k r t' w'))) ->
  let out := bind (CancelAllOrders upstream symbol) k t w in
  cancelledOrdinaryOrders (sent out) = [normalizeSymbolForGateIO symbol]
  /\ exists rest,
      sent out = Sent (CancelFuturesOrders "usdt" (normalizeSymbolForGateIO symbol)) :: rest.
Proof.
  intros Hk out. subst out. rewrite sent_bind, cancelledOrdinaryOrders_app.
  destruct (CancelAllOrders_traffic symbol t w) as [-> _].
  rewrite (kept_ordinary _ (Hk _ _ _)). split; [reflexivity|].
  unfold CancelAllOrders. rewrite sent_bind, call_out. simpl_out.
  eexists. reflexivity.
Qed.

Lemma close_then_cancels symbol order wrap (k : FuturesOrder.t -> gmap string value) t w :
  let out := bind (call upstream (CreateFuturesOrder "usdt" order))
                  (fun r => match r with
                            | inr e => ret (Err (wrap (UpstreamError e)))
                            | inl accepted =>
                                bind (CancelAllOrders upstream symbol)
                                     (fun _ => ret (Ok (k accepted)))
                            end) t w in
  cancelledOrdinaryOrders (sent out)
  = match returned out with
    | Ok _ => [normalizeSymbolForGateIO symbol]
    | Err _ => []
    end.
Proof.
  cbv zeta. rewrite sent_bind, returned_bind, cancelledOrdinaryOrders_app, call_out.
  simpl_out.
  destruct (fst (upstream _ (CreateFuturesOrder "usdt" order) w)) as [accepted|e];
    [|reflexivity].
  rewrite sent_bind, returned_bind, cancelledOrdinaryOrders_app.
  destruct (CancelAllOrders_traffic symbol t
              (snd (upstream _ (CreateFuturesOrder "usdt" order) w))) as [-> _].
  reflexivity.
Qed.

(** A step that cancels no ordinary orders and whose error is passed on. *)
Ltac pass_kept o x calm :=
  rewrite sent_bind, returned_bind, cancelledOrdinaryOrders_app, (kept_ordinary _ calm);
  cbn [app];
  match goal with
  | |- context [returned ?c] =>
      match type of calm with
      | context [sent c] => set (o := c) in *
      end
  end;
  destruct (returned o) as [x|?]; [|reflexivity].

(** X12.  [OpenLong] and [OpenShort] ask for the ordinary orders of the
    contract to be cancelled once, as their first request, whether or
    not they then place an order.  [CloseLong] and [CloseShort] ask for
    it once when their order has been accepted, after it, and not at
    all when they return an error. *)
Theorem ordinary_orders_cancelled symbol quantity leverage (t : GateIOFuturesTrader)
        (w : World) :
  let gateIOSymbol := normalizeSymbolForGateIO symbol in
  (let out := OpenLong upstream symbol quantity leverage t w in
   cancelledOrdinaryOrders (sent out) = [gateIOSymbol]
   /\ exists rest, sent out = Sent (CancelFuturesOrders "usdt" gateIOSymbol) :: rest)
  /\ (let out := OpenShort upstream symbol quantity leverage t w in
      cancelledOrdinaryOrders (sent out) = [gateIOSymbol]
      /\ exists rest, sent out = Sent (CancelFuturesOrders "usdt" gateIOSymbol) :: rest)
  /\ (let out := CloseLong upstream symbol quantity t w in
      cancelledOrdinaryOrders (sent out)
      = match returned out with Ok _ => [gateIOSymbol] | Err _ => [] end)
  /\ (let out := CloseShort upstream symbol quantity t w in
      cancelledOrdinaryOrders (sent out)
      = match returned out with Ok _ => [gateIOSymbol] | Err _ => [] end).
Proof.
  cbv zeta. split; [|split; [|split]].
  - unfold OpenLong. apply open_first_cancels. intros r t' w'. traffic.
  - unfold OpenShort. apply open_first_cancels. intros r t' w'. traffic.
  - unfold CloseLong.
    pass_kept o1 amount (resolveQuantity_kept symbol "long" quantity t w).
    pass_kept o2 quantityStr (FormatQuantity_kept symbol amount (trader o1) (world o1)).
    destruct (Strconv.ParseFloat quantityStr) as [contractSizeFloat [e3|]]; [reflexivity|].
    apply (close_then_cancels symbol _ CloseLongFailed orderResult).
  - unfold CloseShort.
    pass_kept o1 amount (resolveQuantity_kept symbol "short" quantity t w).
    pass_kept o2 quantityStr (FormatQuantity_kept symbol amount (trader o1) (world o1)).
    destruct (Strconv.ParseFloat quantityStr) as [contractSizeFloat [e3|]]; [reflexivity|].
    apply (close_then_cancels symbol _ CloseShortFailed orderResult).
Qed.

(** X13.  With a leverage that is not positive [OpenLong] and
    [OpenShort] return the error of [SetLeverage] and open nothing, but
    the cancellation they start with has been made: they have sent
    exactly the requests of [CancelAllOrders], no request for the
    leverage, the contract or the price follows, and no order. *)
Theorem open_with_invalid_leverage symbol quantity leverage (t : GateIOFuturesTrader)
        (w : World) :
  leverage <= 0 ->
  let cancelled := CancelAllOrders upstream symbol t w in
  (let out := OpenLong upstream symbol quantity leverage t w in
   returned out = Err (InvalidLeverage leverage)
   /\ sent out = sent cancelled /\ trader out = t /\ submittedOrders (sent out) = [])
  /\ (let out := OpenShort upstream symbol quantity leverage t w in
      returned out = Err (InvalidLeverage leverage)
      /\ sent out = sent cancelled /\ trader out = t /\ submittedOrders (sent out) = []).
Proof.
  intros L cancelled.
  assert (E : (leverage <=? 0) = true) by now apply Z.leb_le.
  assert (T : trader cancelled = t)
    by exact (CancelAllOrders_keeps upstream (fun t' => t' = t) symbol t w eq_refl).
  assert (Q : submittedOrders (sent cancelled) = [])
    by apply no_orders, CancelAllOrders_quiet.
  split; cbv zeta.
  - unfold OpenLong.
    rewrite returned_bind, sent_bind, trader_bind. fold cancelled.
    rewrite returned_bind, sent_bind, trader_bind.
    unfold SetLeverage. rewrite E, !ret_out. simpl_out.
    rewrite !app_nil_r. repeat split; assumption.
  - unfold OpenShort.
    rewrite returned_bind, sent_bind, trader_bind. fold cancelled.
    rewrite returned_bind, sent_bind, trader_bind.
    unfold SetLeverage. rewrite E, !ret_out. simpl_out.
    rewrite !app_nil_r. repeat split; assumption.
Qed.

End CancelAll.

Lemma open_with_invalid_leverage_witness :
  let x := exchange (inl [contract "0.0001" "0.1" 1]) "100000" []
                    [conditional 7 (-5) "90"; conditional 0 5 "110"] in
  returned (OpenLong answer "BTCUSDT" (num "0.002") 0 fresh x) = Err (InvalidLeverage 0)
  /\ cancelledTriggerOrders (sent (OpenLong answer "BTCUSDT" (num "0.002") 0 fresh x))
     = ["7"]
  /\ submittedOrders (sent (OpenLong answer "BTCUSDT" (num "0.002") 0 fresh x)) = [].
Proof.
  intros x.
  assert (invalid : 0 <= 0) by lia.
  pose proof (open_with_invalid_leverage answer "BTCUSDT" (num "0.002") 0 fresh x invalid)
    as [(failed & requests & _ & none) _].
  split; [exact failed|]. split; [|exact none].
  rewrite requests. vm_compute. reflexivity.
Defined.

(** ** The direction of closing and protective orders *)

Section Directions.

Context {World : Type}.
Variable upstream : forall R : Type, Call R -> World -> R * World.

Lemma to_int64_range (x : float64) :
  Int64.min_int <= Float64.to_int64 x <= Int64.max_int.
Proof.
  assert (B : Int64.min_int <= Int64.min_int <= Int64.max_int)
    by (unfold Int64.min_int, Int64.max_int; lia).
  destruct x as [s|s| |s m e]; try exact B.
  - unfold Float64.to_int64, Int64.min_int, Int64.max_int. lia.
  - unfold Float64.to_int64.
    set (v := if s then - Float64.truncate m e else Float64.truncate m e).
    destruct ((Int64.min_int <=? v) && (v <=? Int64.max_int)) eqn:E; [|exact B].
    apply andb_true_iff in E as [E1 E2]. apply Z.leb_le in E1, E2. lia.
Qed.

Lemma wrap_small (z : Z) : - 2 ^ 63 <= z < 2 ^ 63 -> Int64.wrap z = z.
Proof.
  intros H. unfold Int64.wrap. rewrite Z.mod_small; lia.
Qed.

Lemma wrap_top : Int64.wrap (2 ^ 63) = - 2 ^ 63.
Proof. reflexivity. Qed.

(** [-|v|] and [|v|] in [int64]: the first is never positive; the
    second is negative for the least [int64] only, whose negation
    overflows. *)
Lemma absContracts_sign (x : float64) :
  Int64.neg (absContracts x) <= 0
  /\ (0 <= absContracts x \/ absContracts x = Int64.min_int).
Proof.
  unfold absContracts. pose proof (to_int64_range x) as R.
  set (v := Float64.to_int64 x) in *. unfold Int64.min_int, Int64.max_int in *.
  destruct (v <? 0) eqn:N.
  - apply Z.ltb_lt in N. unfold Int64.neg.
    destruct (Z.eq_dec v (- 2 ^ 63)) as [->|Hne].
    + change (- - 2 ^ 63) with (2 ^ 63). rewrite wrap_top.
      change (- - 2 ^ 63) with (2 ^ 63). rewrite wrap_top. split; [lia|now right].
    + rewrite (wrap_small (- v)) by lia. rewrite Z.opp_involutive.
      rewrite wrap_small by lia. split; [lia|left; lia].
  - apply Z.ltb_ge in N. unfold Int64.neg. rewrite wrap_small by lia.
    split; [lia|left; lia].
Qed.

(** X14.  A closing order never adds to a position: every order that
    [CloseLong] sends is reduce-only and has a size that is not
    positive, and every order that [CloseShort] sends is reduce-only
    and has a size that is not negative, except for the least [int64],
    whose negation overflows (the size [int64()] gives for a number out
    of range). *)
Theorem closing_orders_reduce symbol quantity (t : GateIOFuturesTrader) (w : World) :
  (forall order,
      In order (submittedOrders (sent (CloseLong upstream symbol quantity t w))) ->
      FuturesOrder.ReduceOnly order = true /\ FuturesOrder.Size order <= 0)
  /\ (forall order,
      In order (submittedOrders (sent (CloseShort upstream symbol quantity t w))) ->
      FuturesOrder.ReduceOnly order = true
      /\ (0 <= FuturesOrder.Size order \/ FuturesOrder.Size order = Int64.min_int)).
Proof.
  split; intros order H.
  - destruct (CloseLong_orders upstream symbol quantity t w) as [E|(q & x & _ & E)];
      rewrite E in H; [contradiction|].
    destruct H as [<-|[]]. split; [reflexivity|]. apply absContracts_sign.
  - destruct (CloseShort_orders upstream symbol quantity t w) as [E|(q & x & _ & E)];
      rewrite E in H; [contradiction|].
    destruct H as [<-|[]]. split; [reflexivity|]. apply absContracts_sign.
Qed.

(** X15.  The exchange cannot tell a stop-loss from a take-profit: for
    the same symbol, side, quantity and price, on the same trader and
    exchange, [SetStopLoss] and [SetTakeProfit] send the same requests,
    the same conditional order among them, and leave the same trader;
    they differ in the error they wrap a refusal in. *)
Theorem protective_orders_alike symbol positionSide quantity price
        (t : GateIOFuturesTrader) (w : World) :
  let stopLoss := SetStopLoss upstream symbol positionSide quantity price t w in
  let takeProfit := SetTakeProfit upstream symbol positionSide quantity price t w in
  sent stopLoss = sent takeProfit
  /\ trader stopLoss = trader takeProfit /\ world stopLoss = world takeProfit
  /\ (returned stopLoss = Ok tt <-> returned takeProfit = Ok tt).
Proof.
  cbv zeta. unfold SetStopLoss, SetTakeProfit.
  rewrite !sent_bind, !trader_bind, !world_bind, !returned_bind.
  set (o1 := FormatQuantity upstream symbol quantity t w).
  destruct (returned o1) as [quantityStr|e]; [|repeat split; intros H; exact H].
  rewrite !sent_bind, !trader_bind, !world_bind, !returned_bind, !call_out. simpl_out.
  destruct (fst (upstream _ (CreatePriceTriggeredOrder "usdt" _) (world o1))) as [r|e];
    rewrite !ret_out; simpl_out; repeat split; try reflexivity; discriminate.
Qed.

End Directions.

(** ** Conditional orders with a readable trigger price *)

Section Comparisons.

Import Float64.

Lemma SFcompare_antisym (a b : float64) :
  SFcompare b a = option_map CompOpp (SFcompare a b).
Proof.
  destruct a as [s1|s1| |s1 m1 e1], b as [s2|s2| |s2 m2 e2];
    try reflexivity; try (destruct s1; reflexivity); try (destruct s2; reflexivity);
    try (destruct s1, s2; reflexivity).
  cbn [SFcompare option_map].
  change (Pos.compare_cont Eq m2 m1) with (m2 ?= m1)%positive.
  change (Pos.compare_cont Eq m1 m2) with (m1 ?= m2)%positive.
  rewrite (Z.compare_antisym e1 e2), (Pos.compare_antisym m1 m2).
  destruct s1, s2; try reflexivity;
    destruct (e1 ?= e2); cbn [CompOpp]; try reflexivity;
    now destruct (m1 ?= m2)%positive.
Qed.

(** Of [a < b] and [a > b] at most one holds. *)
Lemma ltb_gtb_exclusive (a b : float64) : ltb a b && gtb a b = false.
Proof.
  unfold ltb, gtb, SFltb. rewrite (SFcompare_antisym a b).
  now destruct (SFcompare a b) as [[]|].
Qed.

End Comparisons.

Section ReadableTrigger.

(** X16.  A conditional order with a trigger price that can be read is
    classified by that price alone, once the current price is known to
    be positive: against a long position it is a stop-loss when the
    trigger is below the current price and a take-profit when it is
    above, against a short position the other way round, and for any
    other side it is neither.  No such order is both, and one whose
    trigger equals the current price is neither. *)
Theorem readable_trigger_classified positionSide currentPrice order triggerPrice :
  let trigger := FuturesPriceTrigger.Price (FuturesPriceTriggeredOrder.Trigger order) in
  trigger <> "" ->
  Strconv.ParseFloat trigger = (triggerPrice, None) ->
  Float64.gtb currentPrice Float64.zero = true ->
  isStopLoss positionSide currentPrice order
  && isTakeProfit positionSide currentPrice order = false
  /\ (positionSide = "long" ->
      isStopLoss positionSide currentPrice order = Float64.ltb triggerPrice currentPrice
      /\ isTakeProfit positionSide currentPrice order
         = Float64.gtb triggerPrice currentPrice)
  /\ (positionSide = "short" ->
      isStopLoss positionSide currentPrice order = Float64.gtb triggerPrice currentPrice
      /\ isTakeProfit positionSide currentPrice order
         = Float64.ltb triggerPrice currentPrice)
  /\ (positionSide <> "long" -> positionSide <> "short" ->
      isStopLoss positionSide currentPrice order = false
      /\ isTakeProfit positionSide currentPrice order = false)
  /\ (Float64.eqb triggerPrice currentPrice = true ->
      isStopLoss positionSide currentPrice order = false
      /\ isTakeProfit positionSide currentPrice order = false).
Proof.
  intros trigger given parsed known. unfold isStopLoss, isTakeProfit. fold trigger.
  assert (E : negb (String.eqb trigger "") = true).
  { apply negb_true_iff, String.eqb_neq. exact given. }
  rewrite E, parsed, known. cbn [failed negb andb].
  pose proof (ltb_gtb_exclusive triggerPrice currentPrice) as X.
  assert (Q : Float64.eqb triggerPrice currentPrice = true ->
              Float64.ltb triggerPrice currentPrice = false
              /\ Float64.gtb triggerPrice currentPrice = false).
  { unfold Float64.eqb, Float64.ltb, Float64.gtb, SFeqb, SFltb.
    rewrite (SFcompare_antisym triggerPrice currentPrice).
    destruct (SFcompare triggerPrice currentPrice) as [[]|]; try discriminate.
    now split. }
  destruct (String.eqb positionSide "long") eqn:L.
  - apply String.eqb_eq in L. subst positionSide.
    split; [exact X|]. split; [now split|]. split; [discriminate|].
    split; [intros H; now contradiction H|exact Q].
  - apply String.eqb_neq in L. destruct (String.eqb positionSide "short") eqn:S.
    + apply String.eqb_eq in S. subst positionSide.
      split; [now rewrite andb_comm|]. split; [intros H; now contradiction L|].
      split; [now split|]. split; [intros _ H; now contradiction H|].
      intros H. destruct (Q H). now split.
    + apply String.eqb_neq in S. split; [reflexivity|].
      split; [intros H; now contradiction L|]. split; [intros H; now contradiction S|].
      split; now split.
Qed.

End ReadableTrigger.

Lemma readable_trigger_classified_witness :
  isStopLoss "long" (num "100") (conditional 7 (-5) "90") = true
  /\ isTakeProfit "long" (num "100") (conditional 7 (-5) "90") = false
  /\ isStopLoss "long" (num "100") (conditional 8 (-5) "100") = false
  /\ isTakeProfit "long" (num "100") (conditional 8 (-5) "100") = false.
Proof.
  assert (given : "90" <> "") by discriminate.
  assert (parsed : Strconv.ParseFloat "90" = (num "90", None)) by (vm_compute; reflexivity).
  assert (known : Float64.gtb (num "100") Float64.zero = true) by (vm_compute; reflexivity).
  assert (below : Float64.ltb (num "90") (num "100") = true) by (vm_compute; reflexivity).
  assert (above : Float64.gtb (num "90") (num "100") = false) by (vm_compute; reflexivity).
  pose proof (readable_trigger_classified "long" (num "100") (conditional 7 (-5) "90")
                (num "90") given parsed known) as (_ & long & _).
  destruct (long eq_refl) as [stop profit].
  assert (given' : "100" <> "") by discriminate.
  assert (parsed' : Strconv.ParseFloat "100" = (num "100", None))
    by (vm_compute; reflexivity).
  assert (equal : Float64.eqb (num "100") (num "100") = true) by (vm_compute; reflexivity).
  pose proof (readable_trigger_classified "long" (num "100") (conditional 8 (-5) "100")
                (num "100") given' parsed' known) as (_ & _ & _ & _ & same).
  destruct (same equal) as [stop' profit'].
  split; [now rewrite stop|]. split; [now rewrite profit|]. split; assumption.
Defined.

(** ** The minimum amount to open *)

Section MinOpenAmount.

Context {World : Type}.
Variable upstream : forall R : Type, Call R -> World -> R * World.

Lemma GetMinOpenAmount_reads symbol t w :
  readOnly (sent (GetMinOpenAmount upstream symbol t w)).
Proof.
  unfold GetMinOpenAmount.
  apply only_bind; [apply GetMarketPrice_reads|]. intros p t' w'.
  destruct p as [price|e]; [|apply only_ret].
  apply only_bind; [apply getSymbolInfo_reads|]. intros r t'' w''.
  destruct r; apply only_ret.
Qed.


End MinOpenAmount.

(** ** Setting the leverage *)

Section Substrings.

Import Strings.

Lemma string_app_assoc (a b c : string) : (a ++ b) ++ c = a ++ (b ++ c).
Proof. induction a as [|x a IH]; [reflexivity|]. rewrite !app_cons. now rewrite IH. Qed.

Lemma HasPrefix_app (p r : string) : HasPrefix (p ++ r) p = true.
Proof.
  induction p as [|x p IH]; [now destruct r|].
  rewrite app_cons. cbn [HasPrefix]. now rewrite Ascii.eqb_refl, IH.
Qed.

Lemma HasPrefix_split (s p : string) :
  HasPrefix s p = true -> exists r, s = p ++ r.
Proof.
  revert s. induction p as [|x p IH]; intros s; [now exists s|].
  destruct s as [|y s]; [discriminate|]. cbn [HasPrefix].
  intros [E H]%andb_true_iff. apply Ascii.eqb_eq in E. subst y.
  destruct (IH s H) as (r & ->). now exists r.
Qed.

Lemma Contains_split (s sub : string) :
  Contains s sub = true -> exists a b, s = a ++ sub ++ b.
Proof.
  induction s as [|c s IH]; cbn [Contains].
  - rewrite orb_false_r. intros (r & ->)%HasPrefix_split. now exists "", r.
  - intros [H|H]%orb_true_iff.
    + apply HasPrefix_split in H as (r & ->). now exists "", r.
    + destruct (IH H) as (a & b & ->). now exists (String c a), b.
Qed.

Lemma Contains_found (a sub b : string) : Contains (a ++ sub ++ b) sub = true.
Proof.
  induction a as [|c a IH].
  - change ("" ++ sub ++ b) with (sub ++ b).
    destruct (sub ++ b) eqn:E; cbn [Contains]; rewrite <- E, HasPrefix_app; reflexivity.
  - rewrite app_cons. cbn [Contains]. now rewrite IH, orb_true_r.
Qed.

(** A string that contains a text contains every part of the text. *)
Lemma Contains_part (s a sub b : string) :
  Contains s (a ++ sub ++ b) = true -> Contains s sub = true.
Proof.
  intros (x & y & ->)%Contains_split.
  rewrite !string_app_assoc, <- (string_app_assoc x a).
  apply Contains_found.
Qed.

End Substrings.

Section Leverage.

Context {World : Type}.
Variable upstream : forall R : Type, Call R -> World -> R * World.

(** X18.  [SetLeverage] never changes the trader.  For a leverage that
    is not positive it returns an error and sends nothing.  Otherwise
    it sends one request, the leverage in decimal digits for the
    normalised symbol, and reports the error of the exchange unless
    the message says ["already"] or ["same"], or the HTTP status is
    a 2xx and the message says ["unmarshal"]; the test for
    ["cannot unmarshal array"] adds nothing to that. *)
Theorem SetLeverage_outcome symbol leverage (t : GateIOFuturesTrader) (w : World) :
  let out := SetLeverage upstream symbol leverage t w in
  let request :=
    UpdatePositionLeverage "usdt" (normalizeSymbolForGateIO symbol)
                           (Strconv.FormatInt leverage) in
  trader out = t
  /\ (leverage <= 0 -> returned out = Err (InvalidLeverage leverage) /\ sent out = [])
  /\ (0 < leverage ->
      sent out = [Sent request]
      /\ returned out
         = match fst (upstream _ request w) with
           | inl _ => Ok tt
           | inr e =>
               if leverageErrorIgnored e then Ok tt
               else Err (LeverageFailed (UpstreamError e))
           end).
Proof.
  intros out request. subst out.
  split; [exact (SetLeverage_keeps upstream (fun t' => t' = t) symbol leverage t w eq_refl)|].
  unfold SetLeverage. fold request. split; intros L.
  - assert (E : (leverage <=? 0) = true) by now apply Z.leb_le.
    rewrite E. split; reflexivity.
  - assert (E : (leverage <=? 0) = false) by now apply Z.leb_gt.
    rewrite E, sent_bind, returned_bind, call_out. simpl_out.
    destruct (fst (upstream _ request w)) as [position|e]; [split; reflexivity|].
    unfold leverageErrorIgnored.
    set (ok := match statusCode e with
               | Some code => (200 <=? code) && (code <? 300)
               | None => false
               end).
    assert (U : Strings.Contains (message e) "cannot unmarshal array"
                || Strings.Contains (message e) "unmarshal"
                = Strings.Contains (message e) "unmarshal").
    { destruct (Strings.Contains (message e) "cannot unmarshal array") eqn:C;
        [|reflexivity].
      symmetry. exact (Contains_part (message e) "cannot " "unmarshal" " array" C). }
    rewrite U.
    destruct (ok && Strings.Contains (message e) "unmarshal");
      [split; reflexivity|].
    cbn [orb].
    destruct (Strings.Contains (message e) "already" || Strings.Contains (message e) "same");
      split; reflexivity.
Qed.

(** X19.  [SetStopLoss] and [SetTakeProfit] negate the size for the
    side ["LONG"] only.  Given the side as [GetPositions] reports it,
    ["long"] or ["short"], the size of the conditional order they send
    is the integer part of the quantity string as it is: the order
    against a long position is not turned into a sale. *)
Theorem reported_side_is_not_negated symbol (pos : Position.t) positionSide quantity price
        (t : GateIOFuturesTrader) (w : World) :
  reportedSide pos = Some (VString positionSide) ->
  forall order,
    In order (submittedTriggerOrders
                (sent (SetStopLoss upstream symbol positionSide quantity price t w)))
    \/ In order (submittedTriggerOrders
                   (sent (SetTakeProfit upstream symbol positionSide quantity price t w))) ->
    exists quantityStr,
      (exists t' w',
          returned (FormatQuantity upstream symbol quantity t' w') = Ok quantityStr)
      /\ FuturesInitialOrder.Size (FuturesPriceTriggeredOrder.Initial order)
         = Float64.to_int64 (fst (Strconv.ParseFloat quantityStr)).
Proof.
  intros reported order H.
  assert (S : protectiveSize positionSide
              = fun quantityStr => Float64.to_int64 (fst (Strconv.ParseFloat quantityStr))).
  { unfold reportedSide in reported. injection reported as <-.
    now destruct (0 <? Position.Size pos). }
  destruct H as [H|H].
  - destruct (SetStopLoss_orders upstream symbol positionSide quantity price t w)
      as [E|(q & F & E)]; rewrite E in H; [contradiction|].
    destruct H as [<-|[]]. exists q. split; [exact F|]. cbn. now rewrite S.
  - destruct (SetTakeProfit_orders upstream symbol positionSide quantity price t w)
      as [E|(q & F & E)]; rewrite E in H; [contradiction|].
    destruct H as [<-|[]]. exists q. split; [exact F|]. cbn. now rewrite S.
Qed.

End Leverage.

Lemma reported_side_is_not_negated_witness :
  let x := exchange (inl [contract "1" "0.001" 0]) "100" [position 20] [] in
  let order := triggerOrder "BTC_USDT" 20 (num "90") in
  reportedSide (position 20) = Some (VString "long")
  /\ submittedTriggerOrders
       (sent (SetStopLoss answer "BTCUSDT" "long" (num "20") (num "90") fresh x))
     = [order]
  /\ exists quantityStr,
      (exists t' w',
          returned (FormatQuantity answer "BTCUSDT" (num "20") t' w') = Ok quantityStr)
      /\ FuturesInitialOrder.Size (FuturesPriceTriggeredOrder.Initial order)
         = Float64.to_int64 (fst (Strconv.ParseFloat quantityStr)).
Proof.
  intros x order.
  assert (reported : reportedSide (position 20) = Some (VString "long")) by reflexivity.
  assert (placed : submittedTriggerOrders
                     (sent (SetStopLoss answer "BTCUSDT" "long" (num "20") (num "90")
                              fresh x))
                   = [order]) by (vm_compute; reflexivity).
  split; [exact reported|]. split; [exact placed|].
  apply (reported_side_is_not_negated answer "BTCUSDT" (position 20) "long"
           (num "20") (num "90") fresh x reported order).
  left. rewrite placed. left. reflexivity.
Defined.
